(** * Rice-pest detection and pesticide recommendation: a shallow embedding

    Two programs of the repository are modelled:
    - [推荐系统.py] (module [Recommend]): single-image detection, aggregation of
      the detected pests and the dosage recommendation scaled by the field area;
    - [app.py] (module [Detector]): the streaming detector, its worker thread
      [VideoWorker] and the main window [YOLODetector].

    Python numbers are modelled in [PyNum]: [int] as [Z], [float] as IEEE 754
    binary64 through [SpecFloat] (the integer-only specification of floating
    point arithmetic of the standard library). *)

From stdpp Require Import base list strings.
From Stdlib Require Import ZArith String Ascii Bool Lia.
From Stdlib Require Import DecimalString.
From Stdlib Require Import Floats.SpecFloat.

Local Open Scope Z_scope.

(** ** Python numbers *)

Module PyNum.

(** binary64 *)
Definition prec : Z := 53.
Definition emax : Z := 1024.

(** A Python number as the two programs meet them: an [int] or a [float]. *)
Inductive value : Type :=
| PyInt (z : Z)
| PyFloat (f : spec_float).

Definition is_nan (f : spec_float) : bool :=
  match f with S754_nan => true | _ => false end.

Definition is_finite (f : spec_float) : bool :=
  match f with S754_zero _ | S754_finite _ _ _ => true | _ => false end.

(** [float(z)] for an [int]: rounded to nearest even, [OverflowError]
    ([None]) when the integer is too large for a binary64. *)
Definition float_of_int (z : Z) : option spec_float :=
  match binary_normalize prec emax z 0 false with
  | S754_infinity _ => None
  | f => Some f
  end.

(** [x * y]: an [int] operand of a mixed product is converted first. *)
Definition mul (x y : value) : option value :=
  match x, y with
  | PyInt a, PyInt b => Some (PyInt (a * b))
  | PyInt a, PyFloat g =>
      match float_of_int a with
      | Some f => Some (PyFloat (SFmul prec emax f g))
      | None => None
      end
  | PyFloat f, PyInt b =>
      match float_of_int b with
      | Some g => Some (PyFloat (SFmul prec emax f g))
      | None => None
      end
  | PyFloat f, PyFloat g => Some (PyFloat (SFmul prec emax f g))
  end.

(** [x + y] *)
Definition add (x y : value) : option value :=
  match x, y with
  | PyInt a, PyInt b => Some (PyInt (a + b))
  | PyInt a, PyFloat g =>
      match float_of_int a with
      | Some f => Some (PyFloat (SFadd prec emax f g))
      | None => None
      end
  | PyFloat f, PyInt b =>
      match float_of_int b with
      | Some g => Some (PyFloat (SFadd prec emax f g))
      | None => None
      end
  | PyFloat f, PyFloat g => Some (PyFloat (SFadd prec emax f g))
  end.

(** [x / n] for a [float] [x] and a positive [int] [n] (the only division
    of the programs: a sum of confidences by a non-zero length). *)
Definition div_by_len (x : value) (n : Z) : option value :=
  match x, float_of_int n with
  | PyFloat f, Some g => Some (PyFloat (SFdiv prec emax f g))
  | PyInt a, Some g =>
      match float_of_int a with
      | Some f => Some (PyFloat (SFdiv prec emax f g))
      | None => None
      end
  | _, None => None
  end.

(** [x == 0] *)
Definition is_zero (x : value) : bool :=
  match x with
  | PyInt z => z =? 0
  | PyFloat f => SFeqb f (S754_zero false)
  end.

(** [x <= 0] *)
Definition le_zero (x : value) : bool :=
  match x with
  | PyInt z => z <=? 0
  | PyFloat f => SFleb f (S754_zero false)
  end.

(** *** [float(text)]

    Text is a [string] of bytes, the UTF-8 encoding of the Python [str].
    The reading follows CPython.  A text that is not all ASCII is first
    transformed: every decimal digit of Unicode becomes the ASCII digit
    of its value, every blank of Unicode becomes a space, and the text
    is cut at the first other character above 126, which is replaced by
    a question mark.  Then underscores between digits are dropped,
    blanks around the literal are stripped, and an optional sign is
    followed by either [inf], [infinity], [nan] (any case) or a decimal
    literal with optional fraction and exponent.  The decimal value is
    rounded to the nearest binary64, ties to even; too large a value
    reads as an infinity. *)

Definition code (c : ascii) : N := N_of_ascii c.

Definition is_digit (c : ascii) : bool :=
  ((48 <=? code c) && (code c <=? 57))%N.

Definition digit_val (c : ascii) : Z := Z.of_N (code c) - 48.

Definition is_space (c : ascii) : bool :=
  let n := code c in
  (((9 <=? n) && (n <=? 13)) || (n =? 32))%N.

Definition is_underscore (c : ascii) : bool := (code c =? 95)%N.

Definition lower (c : ascii) : ascii :=
  let n := code c in
  if ((65 <=? n) && (n <=? 90))%N then ascii_of_N (n + 32) else c.

(** Underscores are allowed only after a digit and before a digit. *)
Fixpoint drop_underscores (prev_digit prev_us : bool) (s : list ascii)
  : option (list ascii) :=
  match s with
  | [] => if prev_us then None else Some []
  | c :: r =>
      if is_underscore c then
        if prev_digit then drop_underscores false true r else None
      else if prev_us && negb (is_digit c) then None
      else
        match drop_underscores (is_digit c) false r with
        | Some r' => Some (c :: r')
        | None => None
        end
  end.

Fixpoint lstrip (s : list ascii) : list ascii :=
  match s with
  | c :: r => if is_space c then lstrip r else s
  | [] => []
  end.

Definition strip (s : list ascii) : list ascii :=
  rev (lstrip (rev (lstrip s))).

(** Reads a run of digits: the accumulated value, the number of digits
    read and the rest. *)
Fixpoint take_digits (s : list ascii) (acc : Z) (n : nat)
  : Z * nat * list ascii :=
  match s with
  | c :: r =>
      if is_digit c then take_digits r (10 * acc + digit_val c) (S n)
      else (acc, n, s)
  | [] => (acc, n, [])
  end.

Definition take_sign (s : list ascii) : bool * list ascii :=
  match s with
  | c :: r =>
      if (code c =? 45)%N then (true, r)
      else if (code c =? 43)%N then (false, r)
      else (false, s)
  | [] => (false, [])
  end.

(** The decimal literal [m * 10^e], or [None]. *)
Definition parse_decimal (s : list ascii) : option (Z * Z) :=
  let '(ip, ni, r1) := take_digits s 0 0%nat in
  let '(m, nf, r2) :=
    match r1 with
    | c :: r => if (code c =? 46)%N then take_digits r ip 0%nat
                else (ip, 0%nat, r1)
    | [] => (ip, 0%nat, [])
    end in
  match (ni + nf)%nat with
  | O => None
  | S _ =>
      match r2 with
      | [] => Some (m, - Z.of_nat nf)
      | c :: r =>
          if ((code c =? 101) || (code c =? 69))%N then
            let '(neg, r3) := take_sign r in
            match take_digits r3 0 0%nat with
            | (_, O, _) => None
            | (ev, S _, []) =>
                Some (m, (if neg then - ev else ev) - Z.of_nat nf)
            | (_, S _, _ :: _) => None
            end
          else None
      end
  end.

(** The binary64 nearest to [(-1)^neg * m * 10^e], for [0 <= m]. *)
Definition round_decimal (neg : bool) (m e : Z) : spec_float :=
  match m with
  | Z0 => S754_zero neg
  | Zneg _ => S754_nan
  | Zpos p =>
      match e with
      | Zneg k =>
          let '(q, e', l) :=
            SFdiv_core_binary prec emax m 0 (Z.pow_pos 10 k) 0 in
          binary_round_aux prec emax neg q e' l
      | _ => binary_normalize prec emax
               (if neg then - (m * 10 ^ e) else m * 10 ^ e) 0 neg
      end
  end.

Definition ascii_list_eqb (a b : list ascii) : bool :=
  String.eqb (string_of_list_ascii a) (string_of_list_ascii b).

Definition parse_float (s : list ascii) : option spec_float :=
  match drop_underscores false false s with
  | None => None
  | Some s1 =>
      let '(neg, body) := take_sign (strip s1) in
      let low := map lower body in
      if ascii_list_eqb low (list_ascii_of_string "inf")
         || ascii_list_eqb low (list_ascii_of_string "infinity")
      then Some (S754_infinity neg)
      else if ascii_list_eqb low (list_ascii_of_string "nan")
      then Some S754_nan
      else
        match parse_decimal body with
        | Some (m, e) => Some (round_decimal neg m e)
        | None => None
        end
  end.

(** The code points of a text in UTF-8; [None] for bytes that encode no
    text. *)
Definition continuation (c : ascii) : option Z :=
  let n := Z.of_N (code c) in
  if (128 <=? n) && (n <=? 191) then Some (n - 128) else None.

Fixpoint decode_utf8 (s : list ascii) : option (list Z) :=
  match s with
  | [] => Some []
  | c :: r =>
      let n := Z.of_N (code c) in
      if n <? 128 then option_map (cons n) (decode_utf8 r)
      else if (194 <=? n) && (n <=? 223) then
        match r with
        | c1 :: r1 =>
            match continuation c1 with
            | Some x1 =>
                option_map (cons ((n - 192) * 64 + x1)) (decode_utf8 r1)
            | None => None
            end
        | [] => None
        end
      else if (224 <=? n) && (n <=? 239) then
        match r with
        | c1 :: c2 :: r2 =>
            match continuation c1, continuation c2 with
            | Some x1, Some x2 =>
                let p := (n - 224) * 4096 + x1 * 64 + x2 in
                if 2048 <=? p then option_map (cons p) (decode_utf8 r2)
                else None
            | _, _ => None
            end
        | _ => None
        end
      else if (240 <=? n) && (n <=? 244) then
        match r with
        | c1 :: c2 :: c3 :: r3 =>
            match continuation c1, continuation c2, continuation c3 with
            | Some x1, Some x2, Some x3 =>
                let p := (n - 240) * 262144 + x1 * 4096 + x2 * 64 + x3 in
                if (65536 <=? p) && (p <=? 1114111)
                then option_map (cons p) (decode_utf8 r3)
                else None
            | _, _, _ => None
            end
        | _ => None
        end
      else None
  end.

(** The digits zero of the decimal digits of Unicode above ASCII
    (Unicode 14.0, the database of CPython 3.11): each is followed by
    the digits one to nine of its script. *)
Definition decimal_zeros : list Z :=
  [
    1632; 1776; 1984; 2406; 2534; 2662; 2790; 2918; 3046; 3174; 3302; 3430;
    3558; 3664; 3792; 3872; 4160; 4240; 6112; 6160; 6470; 6608; 6784; 6800;
    6992; 7088; 7232; 7248; 42528; 43216; 43264; 43472; 43504; 43600;
    44016; 65296; 66720; 68912; 69734; 69872; 69942; 70096; 70384; 70736;
    70864; 71248; 71360; 71472; 71904; 72016; 72784; 73040; 73120; 92768;
    92864; 93008; 120782; 120792; 120802; 120812; 120822; 123200; 123632;
    125264; 130032 ].

(** [Py_UNICODE_TODECIMAL] *)
Definition to_decimal (p : Z) : option Z :=
  match List.find (fun z => (z <=? p) && (p <? z + 10)) decimal_zeros with
  | Some z => Some (p - z)
  | None => None
  end.

(** The blanks of Unicode above ASCII. *)
Definition unicode_spaces : list Z :=
  [
    133; 160; 5760; 8192; 8193; 8194; 8195; 8196; 8197; 8198; 8199; 8200;
    8201; 8202; 8232; 8233; 8239; 8287; 12288 ].

(** [Py_UNICODE_ISSPACE], above ASCII *)
Definition is_unicode_space (p : Z) : bool :=
  existsb (Z.eqb p) unicode_spaces.

(** [_PyUnicode_TransformDecimalAndSpaceToASCII], for a text that is not
    all ASCII. *)
Fixpoint transform_decimal_and_space (ps : list Z) : list ascii :=
  match ps with
  | [] => []
  | p :: r =>
      if p <? 127 then ascii_of_N (Z.to_N p) :: transform_decimal_and_space r
      else if is_unicode_space p then " "%char :: transform_decimal_and_space r
      else
        match to_decimal p with
        | Some d => ascii_of_N (Z.to_N (48 + d)) :: transform_decimal_and_space r
        | None => ["?"%char]
        end
  end.

Definition is_ascii (c : ascii) : bool := (code c <? 128)%N.

(** [float(text)]; [None] is [ValueError]. *)
Definition py_float (text : string) : option spec_float :=
  let s := list_ascii_of_string text in
  if forallb is_ascii s then parse_float s
  else
    match decode_utf8 s with
    | Some ps => parse_float (transform_decimal_and_space ps)
    | None => None
    end.

(** *** Formatting *)

(** [str(z)] for an [int] *)
Definition str_of_int (z : Z) : string :=
  NilZero.string_of_int (Z.to_int z).

(** Nearest integer to [n / d], ties to even, for [0 <= n], [0 < d]. *)
Definition div_half_even (n d : Z) : Z :=
  let q := n / d in
  let r := n mod d in
  match 2 * r ?= d with
  | Lt => q
  | Gt => q + 1
  | Eq => if Z.even q then q else q + 1
  end.

Fixpoint zeros (n : nat) : string :=
  match n with
  | O => EmptyString
  | S k => String "0" (zeros k)
  end.

(** [d] decimal digits of [n], padded with zeros on the left. *)
Definition pad_digits (d : nat) (n : Z) : string :=
  let t := str_of_int n in
  (zeros (d - String.length t) ++ t)%string.

(** [format(x, ".df")] for a [float] and [1 <= d]: the exact binary
    value rounded to [d] decimals, ties to even; the sign is kept on
    zero. *)
Definition format_float_f (d : nat) (f : spec_float) : string :=
  let scale := 10 ^ Z.of_nat d in
  let fixed (s : bool) (n : Z) : string :=
    ((if s then "-" else EmptyString) ++ str_of_int (n / scale) ++ "."
       ++ pad_digits d (n mod scale))%string in
  match f with
  | S754_nan => "nan"
  | S754_infinity s => if s then "-inf" else "inf"
  | S754_zero s => fixed s 0
  | S754_finite s m e =>
      fixed s
        match e with
        | Zneg k => div_half_even (scale * Zpos m) (Z.pow_pos 2 k)
        | _ => scale * Zpos m * 2 ^ e
        end
  end.

(** [f"{x:.df}"]: an [int] is converted to [float] first. *)
Definition format_f (d : nat) (x : value) : option string :=
  match x with
  | PyFloat f => Some (format_float_f d f)
  | PyInt z =>
      match float_of_int z with
      | Some f => Some (format_float_f d f)
      | None => None
      end
  end.

(** The sign of a [float] that has one. *)
Definition has_sign (s : bool) (f : spec_float) : Prop :=
  match f with
  | S754_zero s' | S754_infinity s' | S754_finite s' _ _ => s' = s
  | S754_nan => False
  end.

(** A number that is neither an infinity nor a NaN. *)
Definition value_finite (v : value) : bool :=
  match v with
  | PyInt _ => true
  | PyFloat f => is_finite f
  end.

End PyNum.

(** ** Python dictionaries

    A [dict] keeps its keys in insertion order, and both programs iterate
    over dictionaries ([values()], [items()]), so a dictionary is an
    association list with unique keys: an assignment to a present key
    replaces the value in place, an assignment to a new key appends. *)

Module Dict.
Section Dict.
Context {K V : Type} `{EqDecision K}.

Fixpoint get (d : list (K * V)) (k : K) : option V :=
  match d with
  | [] => None
  | (k', v) :: r => if decide (k = k') then Some v else get r k
  end.

(** [d[k] = v] *)
Fixpoint set (d : list (K * V)) (k : K) (v : V) : list (K * V) :=
  match d with
  | [] => [(k, v)]
  | (k', v') :: r =>
      if decide (k = k') then (k, v) :: r else (k', v') :: set r k v
  end.

(** [d.get(k, dflt)] *)
Definition get_default (d : list (K * V)) (k : K) (dflt : V) : V :=
  match get d k with Some v => v | None => dflt end.

Definition keys (d : list (K * V)) : list K := map fst d.
Definition values (d : list (K * V)) : list V := map snd d.
End Dict.
End Dict.

(** ** The detection model, as both programs use it

    The model is a black box: a table of class names and a prediction.
    Every call [results = model(...)] of the programs is followed at once
    by [results[0].plot()]: either the call raises, or it returns boxes
    and the plot raises, or the plot returns the annotated image. *)

Module Yolo.

Record Image : Type := { height : nat; width : nat; pixels : list N }.

Record Box : Type := { cls : Z; conf : spec_float }.

Inductive Prediction : Type :=
| Raises (msg : string)
| Results (plot : Image) (boxes : list Box)
| PlotRaises (msg : string) (boxes : list Box).

(** The arguments of one call [model(source, conf=..., device=...)];
    [None] for a keyword the call does not pass, and for a source that is
    Python's [None]. *)
Record Call : Type :=
  { source : option Image; conf_arg : option spec_float;
    device_arg : option string }.

Record Model : Type :=
  { names : list (Z * string); predict : Call -> Prediction }.

(** The labels of the boxes of one result, as [names] gives them;
    [None] when a class has no name. *)
Fixpoint labels_of (names : list (Z * string)) (boxes : list Box)
  : option (list string) :=
  match boxes with
  | [] => Some []
  | box :: r =>
      match Dict.get names (cls box), labels_of names r with
      | Some l, Some ls => Some (l :: ls)
      | _, _ => None
      end
  end.

(** A model whose plot labels every box with [names[cls]], as the plot
    of ultralytics does: the plot raises when a class has no name, so
    it returns only when every box has one. *)
Definition plot_labels_boxes (m : Model) : Prop :=
  forall c plot boxes,
    predict m c = Results plot boxes -> is_Some (labels_of (names m) boxes).

End Yolo.

Definition newline : string := String (ascii_of_nat 10) EmptyString.

(** ** 推荐系统.py: detection on one image and the dosage recommendation *)

Module Recommend.
Import PyNum Yolo.

(** 英文标签到中文名称的映射 *)
Definition LABEL_MAP : list (string * string) :=
  [ ("green-leafhopper", "绿色叶蝉");
    ("rice-bug", "稻蝽");
    ("leaf-folder", "卷叶虫");
    ("stem-borer", "茎螟");
    ("whorl-maggot", "叶鞘蛆") ]%string.

(** 农药数据库（英文标签: [农药名称, 单位用量(ml/亩)]） *)
Definition PESTICIDE_DB : list (string * (string * Z)) :=
  [ ("green-leafhopper", ("吡虫啉", 30));
    ("rice-bug", ("氯氰菊酯", 50));
    ("leaf-folder", ("甲维盐", 40));
    ("stem-borer", ("氯虫苯甲酰胺", 60));
    ("whorl-maggot", ("吡蚜酮", 35)) ]%string.

(** One entry of [self.pest_data]. *)
Record PestItem : Type :=
  { english : string; chinese : string; pesticide : string;
    base_dosage : Z; count : Z }.

Definition incr_count (it : PestItem) : PestItem :=
  {| english := english it; chinese := chinese it;
     pesticide := pesticide it; base_dosage := base_dosage it;
     count := count it + 1 |}.

(** What the window does to the outside, in order. *)
Inductive Effect : Type :=
| ModelCall (c : Call)
| Critical (text : string).

(** The window: the attributes set by [__init__], the widgets the slots
    read and write, the effects so far, and whether an exception left a
    slot unhandled (PyQt then ends the process). *)
Record App : Type :=
  { model : option Model;
    current_img : option Image;
    pest_data : list PestItem;
    area_input : string;
    result_label : string;
    image_label : option Image;
    select_image_btn : bool;
    run_detection_btn : bool;
    status : string;
    log : list Effect;
    crashed : bool }.

Definition init : App :=
  {| model := None; current_img := None; pest_data := [];
     area_input := EmptyString;
     result_label := "检测结果与推荐农药将显示在此";
     image_label := None;
     select_image_btn := false; run_detection_btn := false;
     status := EmptyString; log := []; crashed := false |}.

Definition set_model (m : Model) (a : App) : App :=
  {| model := Some m; current_img := current_img a;
     pest_data := pest_data a; area_input := area_input a;
     result_label := result_label a; image_label := image_label a;
     select_image_btn := select_image_btn a;
     run_detection_btn := run_detection_btn a;
     status := status a; log := log a; crashed := crashed a |}.

Definition set_current_img (i : option Image) (a : App) : App :=
  {| model := model a; current_img := i;
     pest_data := pest_data a; area_input := area_input a;
     result_label := result_label a; image_label := image_label a;
     select_image_btn := select_image_btn a;
     run_detection_btn := run_detection_btn a;
     status := status a; log := log a; crashed := crashed a |}.

Definition set_pest_data (d : list PestItem) (a : App) : App :=
  {| model := model a; current_img := current_img a;
     pest_data := d; area_input := area_input a;
     result_label := result_label a; image_label := image_label a;
     select_image_btn := select_image_btn a;
     run_detection_btn := run_detection_btn a;
     status := status a; log := log a; crashed := crashed a |}.

Definition set_area_input (t : string) (a : App) : App :=
  {| model := model a; current_img := current_img a;
     pest_data := pest_data a; area_input := t;
     result_label := result_label a; image_label := image_label a;
     select_image_btn := select_image_btn a;
     run_detection_btn := run_detection_btn a;
     status := status a; log := log a; crashed := crashed a |}.

Definition set_result_label (t : string) (a : App) : App :=
  {| model := model a; current_img := current_img a;
     pest_data := pest_data a; area_input := area_input a;
     result_label := t; image_label := image_label a;
     select_image_btn := select_image_btn a;
     run_detection_btn := run_detection_btn a;
     status := status a; log := log a; crashed := crashed a |}.

Definition set_image_label (i : Image) (a : App) : App :=
  {| model := model a; current_img := current_img a;
     pest_data := pest_data a; area_input := area_input a;
     result_label := result_label a; image_label := Some i;
     select_image_btn := select_image_btn a;
     run_detection_btn := run_detection_btn a;
     status := status a; log := log a; crashed := crashed a |}.

Definition enable_select_image (a : App) : App :=
  {| model := model a; current_img := current_img a;
     pest_data := pest_data a; area_input := area_input a;
     result_label := result_label a; image_label := image_label a;
     select_image_btn := true;
     run_detection_btn := run_detection_btn a;
     status := status a; log := log a; crashed := crashed a |}.

Definition enable_run_detection (a : App) : App :=
  {| model := model a; current_img := current_img a;
     pest_data := pest_data a; area_input := area_input a;
     result_label := result_label a; image_label := image_label a;
     select_image_btn := select_image_btn a;
     run_detection_btn := true;
     status := status a; log := log a; crashed := crashed a |}.

Definition show_status (t : string) (a : App) : App :=
  {| model := model a; current_img := current_img a;
     pest_data := pest_data a; area_input := area_input a;
     result_label := result_label a; image_label := image_label a;
     select_image_btn := select_image_btn a;
     run_detection_btn := run_detection_btn a;
     status := t; log := log a; crashed := crashed a |}.

Definition emit (e : Effect) (a : App) : App :=
  {| model := model a; current_img := current_img a;
     pest_data := pest_data a; area_input := area_input a;
     result_label := result_label a; image_label := image_label a;
     select_image_btn := select_image_btn a;
     run_detection_btn := run_detection_btn a;
     status := status a; log := log a ++ [e]; crashed := crashed a |}.

Definition crash (a : App) : App :=
  {| model := model a; current_img := current_img a;
     pest_data := pest_data a; area_input := area_input a;
     result_label := result_label a; image_label := image_label a;
     select_image_btn := select_image_btn a;
     run_detection_btn := run_detection_btn a;
     status := status a; log := log a; crashed := true |}.

(** [QMessageBox.critical(self, "错误", text)] *)
Definition critical (text : string) (a : App) : App := emit (Critical text) a.

(** *** [update_recommendation] *)

(** [area = float(area_text) if area_text else 1], and [1] on any
    exception. *)
Definition effective_area (area_text : string) : value :=
  match area_text with
  | EmptyString => PyInt 1
  | _ =>
      match py_float area_text with
      | Some f => PyFloat f
      | None => PyInt 1
      end
  end.

(** [total_dosage = base_dosage * area] *)
Definition total_dosage (it : PestItem) (area : value) : option value :=
  mul (PyInt (base_dosage it)) area.

Definition dashes : string := "--------------------".

(** The five lines of one item; [None] when the product or its
    formatting raises [OverflowError]. *)
Definition item_lines (area : value) (it : PestItem) : option (list string) :=
  match total_dosage it area with
  | None => None
  | Some total =>
      match format_f 1 total with
      | None => None
      | Some shown =>
          Some [ ("【" ++ chinese it ++ "】")%string;
                 ("推荐农药：" ++ pesticide it)%string;
                 ("基础用量：" ++ str_of_int (base_dosage it) ++ "ml/亩")%string;
                 ("总用量：" ++ shown ++ "ml")%string;
                 dashes ]
      end
  end.

Fixpoint result_lines (area : value) (items : list PestItem)
  : option (list string) :=
  match items with
  | [] => Some []
  | it :: r =>
      match item_lines area it, result_lines area r with
      | Some l, Some ls => Some (l ++ ls)
      | _, _ => None
      end
  end.

Definition no_pest_text : string := "未检测到害虫".

(** The text [update_recommendation] puts on [result_label], from the
    stored items and the area text; [None] when it raises. *)
Definition report (items : list PestItem) (area_text : string)
  : option string :=
  let area := effective_area area_text in
  match items with
  | [] => Some no_pest_text
  | _ :: _ =>
      match result_lines area items with
      | Some ls => Some (String.concat newline ls)
      | None => None
      end
  end.

Definition update_recommendation (a : App) : option App :=
  match report (pest_data a) (area_input a) with
  | Some t => Some (set_result_label t a)
  | None => None
  end.

Definition overflow_text : string := "int too large to convert to float".

(** *** [run_detection] *)

Definition unknown_pesticide : string * Z := ("未知"%string, 0).

(** The dictionary built for one box. *)
Definition item_of_label (eng_label : string) : PestItem :=
  let chi_name := Dict.get_default LABEL_MAP eng_label eng_label in
  let '(pesticide, dosage) :=
    Dict.get_default PESTICIDE_DB eng_label unknown_pesticide in
  {| english := eng_label; chinese := chi_name; pesticide := pesticide;
     base_dosage := dosage; count := 1 |}.

(** The first loop: one item per box appended to [self.pest_data]; a
    class missing from [names] raises [KeyError] with the items appended
    so far left in place. *)
Fixpoint collect (names : list (Z * string)) (boxes : list Box)
  (acc : list PestItem) : list PestItem * option Z :=
  match boxes with
  | [] => (acc, None)
  | box :: r =>
      match Dict.get names (cls box) with
      | Some eng_label => collect names r (acc ++ [item_of_label eng_label])
      | None => (acc, Some (cls box))
      end
  end.

(** The second loop, 聚合相同害虫: one step and the whole loop. *)
Definition aggregate_step (pest_dict : list (string * PestItem))
  (item : PestItem) : list (string * PestItem) :=
  let key := english item in
  match Dict.get pest_dict key with
  | Some it => Dict.set pest_dict key (incr_count it)
  | None => Dict.set pest_dict key item
  end.

Definition aggregate (items : list PestItem) : list (string * PestItem) :=
  fold_left aggregate_step items [].

Definition call_of (img : Image) : Call :=
  {| source := Some img; conf_arg := None; device_arg := None |}.

(** [results[0].plot()] follows the call of the model and comes before
    [self.pest_data.clear()]: when either raises, nothing is cleared and
    the image shown stays. *)
Definition run_detection (a : App) : App :=
  match model a, current_img a with
  | Some m, Some img =>
      let a := emit (ModelCall (call_of img)) a in
      match predict m (call_of img) with
      | Raises msg | PlotRaises msg _ => critical ("检测失败：" ++ msg) a
      | Results annotated_img boxes =>
          let a := set_image_label annotated_img a in
          let a := set_pest_data [] a in
          match collect (names m) boxes [] with
          | (items, Some k) =>
              critical ("检测失败：" ++ str_of_int k) (set_pest_data items a)
          | (items, None) =>
              let a := set_pest_data (Dict.values (aggregate items)) a in
              match update_recommendation a with
              | Some a => show_status "检测完成" a
              | None => critical ("检测失败：" ++ overflow_text) a
              end
          end
      end
  | _, _ => a
  end.

(** *** The other slots *)

Definition load_model (file_name : string) (loaded : Model + string)
  (a : App) : App :=
  match file_name with
  | EmptyString => a
  | _ =>
      match loaded with
      | inl m => show_status "模型加载成功" (enable_select_image (set_model m a))
      | inr e => critical ("加载模型失败：" ++ e) a
      end
  end.

(** [cv2.imread] gives [None] for a file it cannot read, and then
    [display_image] raises, with text [e]. *)
Definition select_image (file_name : string) (read : option Image)
  (e : string) (a : App) : App :=
  match file_name with
  | EmptyString => a
  | _ =>
      let a := set_current_img read a in
      match read with
      | Some img =>
          show_status "图片加载成功"
            (enable_run_detection (set_image_label img a))
      | None => critical ("加载图片失败：" ++ e) a
      end
  end.

(** What the user and the environment do: a click on a button (with what
    the dialog and the libraries answer), or an edit of the area field.
    [textChanged] is connected to [update_recommendation]; an exception
    that escapes a slot ends the process. *)
Inductive Event : Type :=
| ClickLoadModel (file_name : string) (loaded : Model + string)
| ClickSelectImage (file_name : string) (read : option Image) (e : string)
| AreaTextChanged (text : string)
| ClickRunDetection.

Definition step (ev : Event) (a : App) : App :=
  if crashed a then a else
  match ev with
  | ClickLoadModel f r => load_model f r a
  | ClickSelectImage f r e =>
      if select_image_btn a then select_image f r e a else a
  | AreaTextChanged text =>
      let a := set_area_input text a in
      match update_recommendation a with
      | Some a' => a'
      | None => crash a
      end
  | ClickRunDetection =>
      if run_detection_btn a then run_detection a else a
  end.

Definition steps (evs : list Event) (a : App) : App :=
  fold_left (fun a ev => step ev a) evs a.

Inductive reachable : App -> Prop :=
| reach_init : reachable init
| reach_step ev a : reachable a -> reachable (step ev a).

(** A record whose base dosage converts to [float]. *)
Definition dosage_in_range (it : PestItem) : Prop :=
  0 <= base_dosage it < 2 ^ 53.

(** A model that finds the given classes in every image. *)
Definition demo_names : list (Z * string) :=
  [ (0, "green-leafhopper"); (1, "rice-bug"); (2, "leaf-folder");
    (3, "stem-borer"); (4, "whorl-maggot"); (5, "aphid") ]%string.

Definition blank : Image :=
  {| height := 1; width := 1; pixels := [0%N; 0%N; 0%N] |}.

(** The [float] 0.5 *)
Definition half : spec_float := S754_finite false 4503599627370496 (-53).

Definition demo_boxes (found : list Z) : list Box :=
  map (fun k => {| cls := k; conf := half |}) found.

Definition demo_model (found : list Z) : Model :=
  {| names := demo_names;
     predict := fun _ => Results blank (demo_boxes found) |}.

(** A model that finds a class without a name, 9: the plot raises. *)
Definition unnamed_class_model : Model :=
  {| names := demo_names;
     predict := fun _ => PlotRaises "9" (demo_boxes [1; 1; 9]) |}.

(** The window with that model loaded, an image selected and the area
    text typed, and then after a click on the detection button. *)
Definition ready (found : list Z) (area_text : string) : App :=
  steps [ ClickLoadModel "best.pt" (inl (demo_model found));
          ClickSelectImage "field.jpg" (Some blank) EmptyString;
          AreaTextChanged area_text ] init.

Definition after_detection (found : list Z) (area_text : string) : App :=
  step ClickRunDetection (ready found area_text).

(** The number of detections labelled [l]. *)
Definition occurrences (l : string) (ls : list string) : Z :=
  Z.of_nat (count_occ string_dec ls l).

(** The item [it] with [n] as its count. *)
Definition with_count (n : Z) (it : PestItem) : PestItem :=
  {| english := english it; chinese := chinese it;
     pesticide := pesticide it; base_dosage := base_dosage it;
     count := n |}.

(** The invariant of the aggregation loop after the items of the labels
    [ls]: no key twice, the keys are the labels met, and each value is
    the item of its label with the number of detections as count. *)
Definition aggregated (ls : list string) (d : list (string * PestItem))
  : Prop :=
  NoDup (Dict.keys d)
  /\ (forall k, k ∈ Dict.keys d <-> k ∈ ls)
  /\ (forall k it, Dict.get d k = Some it ->
        it = with_count (occurrences k ls) (item_of_label k)).

(** A record that agrees with the two tables: its Chinese name and its
    pesticide are what [LABEL_MAP] and [PESTICIDE_DB] give for its label,
    with their fallbacks, and it counts at least one detection. *)
Definition from_tables (it : PestItem) : Prop :=
  chinese it = Dict.get_default LABEL_MAP (english it) (english it)
  /\ (pesticide it, base_dosage it)
     = Dict.get_default PESTICIDE_DB (english it) unknown_pesticide
  /\ 1 <= count it.

(** What the buttons and the log say of the window in every state it
    can reach. *)
Definition gated (a : App) : Prop :=
  (select_image_btn a = true <-> model a <> None)
  /\ (run_detection_btn a = true -> select_image_btn a = true)
  /\ (forall c, ModelCall c ∈ log a ->
        model a <> None
        /\ (exists img, source c = Some img)
        /\ conf_arg c = None /\ device_arg c = None).

End Recommend.

(** ** app.py: the streaming detector *)

Module Detector.
Import PyNum Yolo.

(** *** [VideoWorker] *)

(** The dictionary [extract_stats] returns. *)
Record Stats : Type :=
  { total_objects : Z;
    class_distribution : list (string * Z);
    avg_confidence : value;
    fps : value }.

(** [video_source]: a camera index or a file path. *)
Inductive Source : Type :=
| Camera (index : Z)
| File (path : string).

(** [ret, frame = cap.read()] *)
Inductive ReadOutcome : Type :=
| ReadOk (frame : Image)
| ReadFail.

(** A [cv2.VideoCapture]: whether it is open, and what the device
    answers to the reads to come (a read past the end fails). *)
Record Capture : Type := { is_opened : bool; feed : list ReadOutcome }.

Definition release (c : Capture) : Capture :=
  {| is_opened := false; feed := feed c |}.

(** Where the worker thread is: [start()] was called and [run] has not
    begun, [run] is at the head of its loop, [run] has returned, or an
    exception has escaped [run]. *)
Inductive Phase : Type := Started | Looping | Finished | Failed.

(** The attributes of a [VideoWorker]; [fps_attr] is the attribute
    [extract_stats] reads with [getattr(self, "fps", 0)], absent
    ([None]) until something assigns it. *)
Record VideoWorker : Type :=
  { w_model : Model;
    video_source : Source;
    conf_threshold : spec_float;
    running : bool;
    cap : option Capture;
    fps_attr : option value;
    phase : Phase }.

(** [VideoWorker(model, video_source, conf_threshold)] followed by
    [start()]. *)
Definition new_worker (m : Model) (src : Source) (th : spec_float)
  : VideoWorker :=
  {| w_model := m; video_source := src; conf_threshold := th;
     running := true; cap := None; fps_attr := None; phase := Started |}.

Definition set_running (b : bool) (w : VideoWorker) : VideoWorker :=
  {| w_model := w_model w; video_source := video_source w;
     conf_threshold := conf_threshold w; running := b; cap := cap w;
     fps_attr := fps_attr w; phase := phase w |}.

Definition set_cap (c : Capture) (w : VideoWorker) : VideoWorker :=
  {| w_model := w_model w; video_source := video_source w;
     conf_threshold := conf_threshold w; running := running w;
     cap := Some c; fps_attr := fps_attr w; phase := phase w |}.

Definition set_phase (p : Phase) (w : VideoWorker) : VideoWorker :=
  {| w_model := w_model w; video_source := video_source w;
     conf_threshold := conf_threshold w; running := running w;
     cap := cap w; fps_attr := fps_attr w; phase := p |}.

(** The loop of [extract_stats]: the counts per name and the sum of the
    confidences; [None] when a class is missing from [names]. *)
Fixpoint count_boxes (names : list (Z * string)) (boxes : list Box)
  (counts : list (string * Z)) (total_conf : value)
  : option (list (string * Z) * value) :=
  match boxes with
  | [] => Some (counts, total_conf)
  | box :: r =>
      match Dict.get names (cls box) with
      | None => None
      | Some name =>
          let counts := Dict.set counts name (Dict.get_default counts name 0 + 1) in
          match add total_conf (PyFloat (conf box)) with
          | Some t => count_boxes names r counts t
          | None => None
          end
      end
  end.

(** [sum(counts.values())] *)
Definition sum_values (counts : list (string * Z)) : Z :=
  fold_left Z.add (Dict.values counts) 0.

Definition extract_stats (w : VideoWorker) (boxes : list Box)
  : option Stats :=
  match count_boxes (names (w_model w)) boxes [] (PyInt 0) with
  | None => None
  | Some (counts, total_conf) =>
      let avg_conf :=
        match boxes with
        | [] => Some (PyInt 0)
        | _ :: _ => div_by_len total_conf (Z.of_nat (List.length boxes))
        end in
      match avg_conf with
      | None => None
      | Some avg =>
          Some {| total_objects := sum_values counts;
                  class_distribution := counts;
                  avg_confidence := avg;
                  fps := match fps_attr w with Some v => v | None => PyInt 0 end |}
      end
  end.

(** What a thread does to the outside. *)
Inductive Effect : Type :=
| Message (is_error : bool) (title content : string)
| ModelCall (c : Call)
| OpenSource (src : Source)
| ReleaseSource (src : Source)
| MakeDirs (path : string)
| WriteImage (file_name : string) (img : Image).

(** The result of one step of a thread: the worker after it, the
    [frame_ready] signals emitted and the effects. *)
Record Stepped : Type :=
  { after : VideoWorker;
    emitted : list (Image * Stats);
    done : list Effect }.

Definition frame_call (w : VideoWorker) (frame : Image) : Call :=
  {| source := Some frame; conf_arg := Some (conf_threshold w);
     device_arg := Some "cpu"%string |}.

(** [self.cap.release()] after the loop *)
Definition leave_loop (c : Capture) (w : VideoWorker) : Stepped :=
  {| after := set_phase Finished (set_cap (release c) w);
     emitted := [];
     done := [ReleaseSource (video_source w)] |}.

(** One turn of the loop of [run], from the test of the [while] to the
    end of the body.  Without a capture the test itself raises. *)
Definition loop_turn (w : VideoWorker) : Stepped :=
  match cap w with
  | None => {| after := set_phase Failed w; emitted := []; done := [] |}
  | Some c =>
      if running w && is_opened c then
        match feed c with
        | ReadOk frame :: rest =>
            let c := {| is_opened := is_opened c; feed := rest |} in
            let w := set_cap c w in
            match predict (w_model w) (frame_call w frame) with
            | Raises _ | PlotRaises _ _ =>
                {| after := set_phase Failed w; emitted := [];
                   done := [ModelCall (frame_call w frame)] |}
            | Results annotated_frame boxes =>
                match extract_stats w boxes with
                | None =>
                    {| after := set_phase Failed w; emitted := [];
                       done := [ModelCall (frame_call w frame)] |}
                | Some stats =>
                    {| after := w;
                       emitted := [(annotated_frame, stats)];
                       done := [ModelCall (frame_call w frame)] |}
                end
            end
        | ReadFail :: rest =>
            leave_loop {| is_opened := is_opened c; feed := rest |}
              (set_running false w)
        | [] => leave_loop c (set_running false w)
        end
      else leave_loop c w
  end.

(** One step of the thread; [dev] is what [cv2.VideoCapture] gives when
    the step is the opening. *)
Definition worker_step (dev : Capture) (w : VideoWorker) : Stepped :=
  match phase w with
  | Started =>
      {| after := set_phase Looping (set_cap dev w); emitted := [];
         done := [OpenSource (video_source w)] |}
  | Looping => loop_turn w
  | Finished | Failed => {| after := w; emitted := []; done := [] |}
  end.

Definition then_step (s : Stepped) (t : VideoWorker -> Stepped) : Stepped :=
  let r := t (after s) in
  {| after := after r; emitted := emitted s ++ emitted r;
     done := done s ++ done r |}.

Fixpoint turns (fuel : nat) (w : VideoWorker) : Stepped :=
  match fuel with
  | O => {| after := w; emitted := []; done := [] |}
  | S n =>
      match phase w with
      | Looping => then_step (loop_turn w) (turns n)
      | _ => {| after := w; emitted := []; done := [] |}
      end
  end.

(** [run] on a device, undisturbed: the opening and the turns of the
    loop, one more than the device has reads. *)
Definition run (dev : Capture) (w : VideoWorker) : Stepped :=
  then_step (worker_step dev w) (turns (S (List.length (feed dev)))).

(** [self.running = False] and [self.wait()] for a thread that is not
    inside the body of its loop: it leaves at its next test of the
    [while], after opening its source if it had not yet. *)
Definition clear_and_wait (dev : Capture) (w : VideoWorker) : Stepped :=
  then_step (worker_step dev (set_running false w)) (worker_step dev).

(** [stop()].  The thread reads [running] at the test of the [while] and
    nowhere else: when a turn of the loop is in flight at the call
    ([in_flight]), that turn runs to its end during [wait()], with its
    read, its call of the model and its signal, and the thread leaves at
    the test that follows. *)
Definition stop (dev : Capture) (in_flight : bool) (w : VideoWorker)
  : Stepped :=
  match in_flight, phase w with
  | true, Looping => then_step (loop_turn w) (clear_and_wait dev)
  | _, _ => clear_and_wait dev w
  end.

(** What a turn of the loop publishes for a frame it has read: the
    annotated frame and its statistics; [None] when the model or
    [extract_stats] raises. *)
Definition publish (w : VideoWorker) (frame : Image)
  : option (Image * Stats) :=
  match predict (w_model w) (frame_call w frame) with
  | Raises _ | PlotRaises _ _ => None
  | Results annotated_frame boxes =>
      match extract_stats w boxes with
      | Some stats => Some (annotated_frame, stats)
      | None => None
      end
  end.

Fixpoint publish_all (w : VideoWorker) (frames : list Image)
  : option (list (Image * Stats)) :=
  match frames with
  | [] => Some []
  | f :: r =>
      match publish w f, publish_all w r with
      | Some x, Some xs => Some (x :: xs)
      | _, _ => None
      end
  end.

(** *** [YOLODetector] *)

Record Widgets : Type :=
  { input_combo : nat;
    startBtn : bool;
    stopBtn : bool;
    model_label : string;
    status_label : string;
    stats_text : string;
    image_label : option Image;
    progress_bar : bool }.

Inductive Life : Type := Alive | Closed | Aborted.

(** The window: its attributes ([file_path] and [last_image] are absent
    until assigned), its widgets, the worker objects created so far
    ([worker] refers to one of them by position), the [frame_ready]
    signals waiting for the event loop, and the effects so far. *)
Record YOLODetector : Type :=
  { model : option Model;
    model_path : string;
    save_dir : string;
    worker : option nat;
    dark_theme : bool;
    file_path : option string;
    last_image : option Image;
    ui : Widgets;
    threads : list VideoWorker;
    queue : list (Image * Stats);
    effects : list Effect;
    life : Life }.

Definition init_ui : Widgets :=
  {| input_combo := 0; startBtn := true; stopBtn := true;
     model_label := "当前模型: 未加载"; status_label := "就绪";
     stats_text :=
       ("暂无检测数据" ++ newline ++ newline
        ++ "- 加载模型并开始检测以查看统计信息" ++ newline
        ++ "- 统计信息包括：类别数量、平均置信度等")%string;
     image_label := None; progress_bar := false |}.

Definition init : YOLODetector :=
  {| model := None; model_path := EmptyString; save_dir := "results";
     worker := None; dark_theme := true; file_path := None;
     last_image := None; ui := init_ui; threads := []; queue := [];
     effects := []; life := Alive |}.

Definition with_ui (f : Widgets -> Widgets) (a : YOLODetector)
  : YOLODetector :=
  {| model := model a; model_path := model_path a; save_dir := save_dir a;
     worker := worker a; dark_theme := dark_theme a;
     file_path := file_path a; last_image := last_image a;
     ui := f (ui a); threads := threads a; queue := queue a;
     effects := effects a; life := life a |}.

Definition set_input_combo (i : nat) (u : Widgets) : Widgets :=
  {| input_combo := i; startBtn := startBtn u; stopBtn := stopBtn u;
     model_label := model_label u; status_label := status_label u;
     stats_text := stats_text u; image_label := image_label u;
     progress_bar := progress_bar u |}.

Definition set_buttons (start stop : bool) (u : Widgets) : Widgets :=
  {| input_combo := input_combo u; startBtn := start; stopBtn := stop;
     model_label := model_label u; status_label := status_label u;
     stats_text := stats_text u; image_label := image_label u;
     progress_bar := progress_bar u |}.

Definition set_model_label (t : string) (u : Widgets) : Widgets :=
  {| input_combo := input_combo u; startBtn := startBtn u;
     stopBtn := stopBtn u;
     model_label := t; status_label := status_label u;
     stats_text := stats_text u; image_label := image_label u;
     progress_bar := progress_bar u |}.

Definition set_status_label (t : string) (u : Widgets) : Widgets :=
  {| input_combo := input_combo u; startBtn := startBtn u;
     stopBtn := stopBtn u;
     model_label := model_label u; status_label := t;
     stats_text := stats_text u; image_label := image_label u;
     progress_bar := progress_bar u |}.

Definition set_stats_text (t : string) (u : Widgets) : Widgets :=
  {| input_combo := input_combo u; startBtn := startBtn u;
     stopBtn := stopBtn u;
     model_label := model_label u; status_label := status_label u;
     stats_text := t; image_label := image_label u;
     progress_bar := progress_bar u |}.

Definition set_image_label (i : Image) (u : Widgets) : Widgets :=
  {| input_combo := input_combo u; startBtn := startBtn u;
     stopBtn := stopBtn u;
     model_label := model_label u; status_label := status_label u;
     stats_text := stats_text u; image_label := Some i;
     progress_bar := progress_bar u |}.

Definition set_progress_bar (b : bool) (u : Widgets) : Widgets :=
  {| input_combo := input_combo u; startBtn := startBtn u;
     stopBtn := stopBtn u;
     model_label := model_label u; status_label := status_label u;
     stats_text := stats_text u; image_label := image_label u;
     progress_bar := b |}.

Definition set_model (m : Model) (path : string) (a : YOLODetector)
  : YOLODetector :=
  {| model := Some m; model_path := path; save_dir := save_dir a;
     worker := worker a; dark_theme := dark_theme a;
     file_path := file_path a; last_image := last_image a;
     ui := ui a; threads := threads a; queue := queue a;
     effects := effects a; life := life a |}.

Definition set_worker (r : option nat) (a : YOLODetector) : YOLODetector :=
  {| model := model a; model_path := model_path a; save_dir := save_dir a;
     worker := r; dark_theme := dark_theme a;
     file_path := file_path a; last_image := last_image a;
     ui := ui a; threads := threads a; queue := queue a;
     effects := effects a; life := life a |}.

Definition set_dark_theme (b : bool) (a : YOLODetector) : YOLODetector :=
  {| model := model a; model_path := model_path a; save_dir := save_dir a;
     worker := worker a; dark_theme := b;
     file_path := file_path a; last_image := last_image a;
     ui := ui a; threads := threads a; queue := queue a;
     effects := effects a; life := life a |}.

Definition set_file_path (t : string) (a : YOLODetector) : YOLODetector :=
  {| model := model a; model_path := model_path a; save_dir := save_dir a;
     worker := worker a; dark_theme := dark_theme a;
     file_path := Some t; last_image := last_image a;
     ui := ui a; threads := threads a; queue := queue a;
     effects := effects a; life := life a |}.

Definition set_threads (ts : list VideoWorker) (a : YOLODetector)
  : YOLODetector :=
  {| model := model a; model_path := model_path a; save_dir := save_dir a;
     worker := worker a; dark_theme := dark_theme a;
     file_path := file_path a; last_image := last_image a;
     ui := ui a; threads := ts; queue := queue a;
     effects := effects a; life := life a |}.

Definition set_queue (q : list (Image * Stats)) (a : YOLODetector)
  : YOLODetector :=
  {| model := model a; model_path := model_path a; save_dir := save_dir a;
     worker := worker a; dark_theme := dark_theme a;
     file_path := file_path a; last_image := last_image a;
     ui := ui a; threads := threads a; queue := q;
     effects := effects a; life := life a |}.

Definition perform (es : list Effect) (a : YOLODetector) : YOLODetector :=
  {| model := model a; model_path := model_path a; save_dir := save_dir a;
     worker := worker a; dark_theme := dark_theme a;
     file_path := file_path a; last_image := last_image a;
     ui := ui a; threads := threads a; queue := queue a;
     effects := effects a ++ es; life := life a |}.

Definition set_life (l : Life) (a : YOLODetector) : YOLODetector :=
  {| model := model a; model_path := model_path a; save_dir := save_dir a;
     worker := worker a; dark_theme := dark_theme a;
     file_path := file_path a; last_image := last_image a;
     ui := ui a; threads := threads a; queue := queue a;
     effects := effects a; life := l |}.

Definition show_message (title content : string) (is_error : bool)
  (a : YOLODetector) : YOLODetector :=
  perform [Message is_error title content] a.

(** An unhandled exception in a slot or in [run] ends the process. *)
Definition abort (a : YOLODetector) : YOLODetector := set_life Aborted a.

(** The [float] literal [0.3] *)
Definition conf_0_3 : spec_float := S754_finite false 5404319552844595 (-54).

(** What [YOLO(file_name).to('cpu')] does. *)
Inductive Loaded : Type :=
| LoadOk (m : Model)
| LoadNotFound
| LoadError (error_msg : string).

Definition load_model (file_name base_name : string) (l : Loaded)
  (a : YOLODetector) : YOLODetector :=
  match file_name with
  | EmptyString => show_message "提示" "未选择任何文件。" false a
  | _ =>
      let a := with_ui (set_progress_bar true) a in
      let a := with_ui (set_status_label "正在加载模型...") a in
      match l with
      | LoadOk m =>
          let a := set_model m file_name a in
          let a := with_ui (set_model_label ("当前模型: " ++ base_name)) a in
          let a := with_ui (set_status_label "模型加载成功") a in
          let a := with_ui (set_progress_bar false) a in
          show_message "成功" "模型加载完成" false a
      | LoadNotFound =>
          let a := with_ui (set_status_label "模型加载失败 - 文件未找到") a in
          let a := with_ui (set_progress_bar false) a in
          show_message "错误" "文件未找到，请确认路径是否正确。" true a
      | LoadError error_msg =>
          let a := with_ui (set_status_label "模型加载失败 - 未知错误") a in
          let a := with_ui (set_progress_bar false) a in
          show_message "加载失败"
            ("加载模型时发生错误:" ++ newline ++ newline ++ error_msg
             ++ newline ++ newline ++ "请检查以下内容:" ++ newline
             ++ "1. 是否是有效的 YOLOv8 模型文件(.pt)" ++ newline
             ++ "2. 是否为最新 ultralytics 版本" ++ newline
             ++ "3. 是否缺少依赖库") true a
      end
  end.

Definition select_input_file (file_name : string) (a : YOLODetector)
  : YOLODetector :=
  match input_combo (ui a) with
  | 1%nat | 2%nat => set_file_path file_name a
  | _ => a
  end.

Definition display_image (img : Image) (a : YOLODetector) : YOLODetector :=
  with_ui (set_image_label img) a.

(** What [update_stats] is called with: the dictionary of
    [extract_stats], or the result object of the model. *)
Inductive StatsArg : Type :=
| OfDict (stats : Stats)
| OfResult (plot : Image) (boxes : list Box).

Definition class_line (kv : string * Z) : string :=
  ("  • " ++ fst kv ++ ": " ++ str_of_int (snd kv) ++ " 个")%string.

Definition stats_lines (stats : Stats) : option string :=
  match format_f 2 (avg_confidence stats) with
  | None => None
  | Some avg =>
      Some ("当前帧检测到: " ++ str_of_int (total_objects stats) ++ " 个对象"
            ++ newline ++ newline
            ++ "类别分布:" ++ newline
            ++ String.concat newline (map class_line (class_distribution stats))
            ++ newline ++ newline ++ "平均置信度: " ++ avg)%string
  end.

(** [if isinstance(stats, dict): ...], and nothing otherwise. *)
Definition update_stats (arg : StatsArg) (a : YOLODetector) : YOLODetector :=
  match arg with
  | OfDict stats =>
      match stats_lines stats with
      | Some t => with_ui (set_stats_text t) a
      | None => abort a
      end
  | OfResult _ _ => a
  end.

Definition display_image_and_stats (frame : Image) (stats : Stats)
  (a : YOLODetector) : YOLODetector :=
  update_stats (OfDict stats) (display_image frame a).

Definition image_call (img : option Image) : Call :=
  {| source := img; conf_arg := Some conf_0_3; device_arg := None |}.

(** [file_exists] and [read] are what [os.path.exists] and [cv2.imread]
    answer for [file_path]. *)
Definition process_single_image (file_exists : bool) (read : option Image)
  (a : YOLODetector) : YOLODetector :=
  match file_path a with
  | None => show_message "警告" "请选择有效的图片文件！" true a
  | Some _ =>
      if file_exists then
        match model a with
        | None => abort a
        | Some m =>
            let a := perform [ModelCall (image_call read)] a in
            match predict m (image_call read) with
            | Raises _ | PlotRaises _ _ => abort a
            | Results annotated_img boxes =>
                update_stats (OfResult annotated_img boxes)
                  (display_image annotated_img a)
            end
        end
      else show_message "警告" "请选择有效的图片文件！" true a
  end.

Definition start_detection (file_exists : bool) (read : option Image)
  (a : YOLODetector) : YOLODetector :=
  match model a with
  | None => show_message "警告" "请先加载模型！" true a
  | Some m =>
      let source_type := input_combo (ui a) in
      match source_type with
      | 2%nat => process_single_image file_exists read a
      | _ =>
          let a := with_ui (set_buttons false true) a in
          let a := with_ui (set_status_label "检测进行中") a in
          let video_source :=
            match source_type with
            | O => Some (Camera 0)
            | _ => match file_path a with
                   | Some f => Some (File f)
                   | None => None
                   end
            end in
          match video_source with
          | None => abort a
          | Some src =>
              let a := set_worker (Some (List.length (threads a))) a in
              set_threads (threads a ++ [new_worker m src conf_0_3]) a
          end
      end
  end.

(** A step of the thread at position [i]. *)
Definition advance (i : nat) (t : VideoWorker -> Stepped) (a : YOLODetector)
  : YOLODetector :=
  match threads a !! i with
  | None => a
  | Some w =>
      let r := t w in
      let a := set_threads (<[i := after r]> (threads a)) a in
      let a := set_queue (queue a ++ emitted r) a in
      let a := perform (done r) a in
      match phase (after r) with
      | Failed => abort a
      | _ => a
      end
  end.

Definition stop_detection (dev : Capture) (in_flight : bool)
  (a : YOLODetector) : YOLODetector :=
  let a :=
    match worker a with
    | Some i => set_worker None (advance i (stop dev in_flight) a)
    | None => a
    end in
  let a := with_ui (set_buttons true false) a in
  with_ui (set_status_label "已停止检测") a.

(** [dir_exists] and [file_name] are what [os.path.exists(save_dir)] and
    the file dialog answer. *)
Definition save_result (dir_exists : bool) (file_name : string)
  (a : YOLODetector) : YOLODetector :=
  match last_image a with
  | None => show_message "警告" "没有可保存的结果！" true a
  | Some img =>
      let a := if dir_exists then a else perform [MakeDirs (save_dir a)] a in
      match file_name with
      | EmptyString => a
      | _ =>
          let a := perform [WriteImage file_name img] a in
          show_message "保存成功" ("结果已保存至: " ++ file_name) false a
      end
  end.

Definition change_theme (index : nat) (a : YOLODetector) : YOLODetector :=
  let a := set_dark_theme (Nat.eqb index 0) a in
  show_message "主题已切换"
    ("当前主题: " ++ (if Nat.eqb index 0 then "暗黑" else "亮白")) false a.

(** [event.accept()] is not reached when the exception of a turn in
    flight has ended the process during [wait()]. *)
Definition closeEvent (dev : Capture) (in_flight : bool)
  (a : YOLODetector) : YOLODetector :=
  let a :=
    match worker a with
    | Some i => advance i (stop dev in_flight) a
    | None => a
    end in
  match life a with
  | Aborted => a
  | _ => set_life Closed a
  end.

(** What the user, the scheduler and the environment do.  A click on a
    disabled button calls nothing.  [Tick i dev] lets the thread of
    worker [i] make one step; [Deliver] lets the event loop run the slot
    of the oldest [frame_ready] signal.  A click on the stop button and
    the closing of the window come with [in_flight]: whether the thread
    of the worker is inside the body of its loop at that moment. *)
Inductive Event : Type :=
| ClickLoadModel (file_name base_name : string) (l : Loaded)
| SelectInput (index : nat)
| ClickSelectFile (file_name : string)
| ClickStart (file_exists : bool) (read : option Image)
| ClickStop (dev : Capture) (in_flight : bool)
| ClickSave (dir_exists : bool) (file_name : string)
| SelectTheme (index : nat)
| Tick (i : nat) (dev : Capture)
| Deliver
| CloseWindow (dev : Capture) (in_flight : bool).

Definition step (ev : Event) (a : YOLODetector) : YOLODetector :=
  match life a with
  | Closed | Aborted => a
  | Alive =>
      match ev with
      | ClickLoadModel f b l => load_model f b l a
      | SelectInput i =>
          if (i <? 3)%nat then with_ui (set_input_combo i) a else a
      | ClickSelectFile f => select_input_file f a
      | ClickStart e r =>
          if startBtn (ui a) then start_detection e r a else a
      | ClickStop dev in_flight =>
          if stopBtn (ui a) then stop_detection dev in_flight a else a
      | ClickSave e f => save_result e f a
      | SelectTheme i =>
          if (i <? 2)%nat then change_theme i a else a
      | Tick i dev => advance i (worker_step dev) a
      | Deliver =>
          match queue a with
          | [] => a
          | (frame, stats) :: q =>
              display_image_and_stats frame stats (set_queue q a)
          end
      | CloseWindow dev in_flight => closeEvent dev in_flight a
      end
  end.

Definition steps (evs : list Event) (a : YOLODetector) : YOLODetector :=
  fold_left (fun a ev => step ev a) evs a.

Inductive reachable : YOLODetector -> Prop :=
| reach_init : reachable init
| reach_step ev a : reachable a -> reachable (step ev a).

(** A thread that has not left [run]. *)
Definition active (w : VideoWorker) : bool :=
  match phase w with
  | Started | Looping => true
  | Finished | Failed => false
  end.

(** A thread that holds an open capture. *)
Definition holds_source (w : VideoWorker) : bool :=
  match cap w with
  | Some c => is_opened c
  | None => false
  end.

Definition open_sources (a : YOLODetector) : nat :=
  List.length (filter (fun w => holds_source w = true) (threads a)).

Definition wrote_image (e : Effect) : bool :=
  match e with WriteImage _ _ => true | _ => false end.

(** The processing rate for an elapsed time [dt] in seconds, as a loop
    that timed its cycles would derive it: [1 / dt].  The program has no
    such computation; this is the quantity the specification compares
    [fps] with. *)
Definition rate_of_elapsed (dt : spec_float) : value :=
  PyFloat (SFdiv prec emax (S754_finite false 4503599627370496 (-52)) dt).

(** A device whose second read fails and whose third would succeed. *)
Definition demo_device : Capture :=
  {| is_opened := true;
     feed := [ReadOk Recommend.blank; ReadFail; ReadOk Recommend.blank] |}.

Definition demo_worker : VideoWorker :=
  new_worker (Recommend.demo_model [1; 1; 3]) (Camera 0) conf_0_3.

(** What holds of the window in every state it can reach: nothing has
    assigned [last_image] and no image was written; every waiting
    [frame_ready] signal carries [fps] 0; no worker has the attribute
    [fps]; a thread that has not left [run] is the one [worker] refers
    to, and the start button is then disabled; while the process lives,
    a thread that holds an open capture has not left [run]. *)
Definition invariant (a : YOLODetector) : Prop :=
  last_image a = None
  /\ (forall e, e ∈ effects a -> wrote_image e = false)
  /\ (forall x, x ∈ queue a -> fps (snd x) = PyInt 0)
  /\ (forall i w, threads a !! i = Some w ->
        fps_attr w = None
        /\ (active w = true -> worker a = Some i /\ startBtn (ui a) = false)
        /\ (life a = Alive -> holds_source w = true -> active w = true)).

(** A slot that leaves the workers, the start button and [last_image]
    alone, takes signals from the queue at most, and writes no image. *)
Definition quiet (a a' : YOLODetector) : Prop :=
  threads a' = threads a
  /\ worker a' = worker a
  /\ startBtn (ui a') = startBtn (ui a)
  /\ last_image a' = last_image a
  /\ (forall x, x ∈ queue a' -> x ∈ queue a)
  /\ (forall e, e ∈ effects a' -> e ∈ effects a \/ wrote_image e = false)
  /\ (life a' = Alive -> life a = Alive).

(** What the steps of a thread have in common. *)
Definition thread_step_ok (t : VideoWorker -> Stepped) : Prop :=
  forall w,
    (forall e, e ∈ done (t w) -> wrote_image e = false)
    /\ fps_attr (after (t w)) = fps_attr w
    /\ (fps_attr w = None ->
        forall x, x ∈ emitted (t w) -> fps (snd x) = PyInt 0)
    /\ (active (after (t w)) = true -> active w = true)
    /\ ((holds_source w = true -> active w = true) ->
        phase (after (t w)) <> Failed ->
        holds_source (after (t w)) = true -> active (after (t w)) = true).

(** The window with a model loaded and a camera stream running: the
    worker has opened the device. *)
Definition streaming : YOLODetector :=
  steps [ ClickLoadModel "best.pt" "best.pt"
            (LoadOk (Recommend.demo_model [1; 1; 3]));
          ClickStart false None;
          Tick 0 demo_device ] init.

(** A device that gives two frames. *)
Definition two_frames : Capture :=
  {| is_opened := true;
     feed := [ReadOk Recommend.blank; ReadOk Recommend.blank] |}.

(** The [float] 0.05: an elapsed time of 50 ms. *)
Definition fifty_ms : spec_float := S754_finite false 7205759403792794 (-57).

(** The invariant of the counting loop of [extract_stats] after the
    boxes named [ls]: no name twice, the names are those met, and each
    name has the number of boxes that carry it. *)
Definition counted (ls : list string) (counts : list (string * Z)) : Prop :=
  NoDup (Dict.keys counts)
  /\ (forall k, k ∈ Dict.keys counts <-> k ∈ ls)
  /\ (forall k, Dict.get_default counts k 0
                = Z.of_nat (count_occ string_dec ls k)).

(** The calls of the model for the frames read, in order. *)
Definition model_calls (w : VideoWorker) (frames : list Image) : list Effect :=
  map (fun f => ModelCall (frame_call w f)) frames.

(** Statistics that [extract_stats] has returned. *)
Definition published (stats : Stats) : Prop :=
  exists w boxes, extract_stats w boxes = Some stats.

(** The two calls of the program, written out: the call of
    [process_single_image] on what [cv2.imread] gave, with the threshold
    0.3 and no device, and the call of [run] on a frame read, with the
    threshold 0.3 on the cpu. *)
Definition single_image_call (c : Call) : Prop :=
  exists read,
    c = {| source := read; conf_arg := Some conf_0_3; device_arg := None |}.

Definition stream_call (c : Call) : Prop :=
  exists frame,
    c = {| source := Some frame; conf_arg := Some conf_0_3;
           device_arg := Some "cpu"%string |}.

(** What also holds of the window in every state it can reach: every
    worker was created with the threshold 0.3; every call of the model
    made so far is one of the two calls above; every waiting signal
    carries statistics returned by [extract_stats]. *)
Definition calls_invariant (a : YOLODetector) : Prop :=
  (forall i w, threads a !! i = Some w -> conf_threshold w = conf_0_3)
  /\ (forall c, ModelCall c ∈ effects a -> single_image_call c \/ stream_call c)
  /\ (forall x, x ∈ queue a -> published (snd x)).

(** What the steps of a thread have in common, besides. *)
Definition thread_step_calls (t : VideoWorker -> Stepped) : Prop :=
  forall w,
    conf_threshold (after (t w)) = conf_threshold w
    /\ (forall c, ModelCall c ∈ done (t w) ->
          exists frame,
            c = {| source := Some frame; conf_arg := Some (conf_threshold w);
                   device_arg := Some "cpu"%string |})
    /\ (forall x, x ∈ emitted (t w) -> published (snd x)).

(** A slot that leaves the workers alone, takes signals from the queue
    at most, and calls the model on a single image at most. *)
Definition calm (a a' : YOLODetector) : Prop :=
  threads a' = threads a
  /\ (forall x, x ∈ queue a' -> x ∈ queue a)
  /\ (forall c, ModelCall c ∈ effects a' ->
        ModelCall c ∈ effects a \/ single_image_call c).

(** The calls of the model an event can make: a click on the start
    button calls it on the single image read, with no device; a step of
    a thread, or a turn in flight that ends while the window stops or
    closes, calls it on a frame, on the cpu; nothing else calls it. *)
Definition calls_of_event (ev : Event) (c : Call) : Prop :=
  match ev with
  | ClickStart _ read =>
      c = {| source := read; conf_arg := Some conf_0_3; device_arg := None |}
  | Tick _ _ | ClickStop _ true | CloseWindow _ true => stream_call c
  | _ => False
  end.

(** A thread that no exception has left and that, once in the loop,
    has its capture. *)
Definition runnable (w : VideoWorker) : Prop :=
  phase w <> Failed /\ (phase w = Looping -> is_Some (cap w)).

(** While the process lives, no exception has left a thread. *)
Definition alive_threads (a : YOLODetector) : Prop :=
  life a = Alive -> forall i w, threads a !! i = Some w -> runnable w.

Definition thread_step_runs (t : VideoWorker -> Stepped) : Prop :=
  forall w,
    (phase w = Failed -> phase (after (t w)) = Failed)
    /\ (runnable w -> phase (after (t w)) <> Failed -> runnable (after (t w))).

(** The click that assigns [file_path]. *)
Definition is_file_choice (ev : Event) : bool :=
  match ev with ClickSelectFile _ => true | _ => false end.

End Detector.

(** * Properties *)

(** ** Dictionaries *)

Module DictFacts.
Section DictFacts.
Context {K V : Type} `{EqDecision K}.
Implicit Types (d : list (K * V)) (k : K) (v : V).

Lemma get_set_eq d k v : Dict.get (Dict.set d k v) k = Some v.
Proof.
  induction d as [|[k' v'] d IH]; simpl.
  - by rewrite decide_True.
  - destruct (decide (k = k')) as [->|Hne]; simpl.
    + by rewrite decide_True.
    + by rewrite decide_False.
Qed.

Lemma get_set_ne d k k' v :
  k <> k' -> Dict.get (Dict.set d k v) k' = Dict.get d k'.
Proof.
  intros Hne. induction d as [|[k0 v0] d IH]; simpl.
  - rewrite decide_False; [done | congruence].
  - destruct (decide (k = k0)) as [->|Hne0]; simpl.
    + rewrite !decide_False; [done | congruence | congruence].
    + destruct (decide (k' = k0)); [done | apply IH].
Qed.

Lemma get_None d k : Dict.get d k = None <-> k ∉ Dict.keys d.
Proof.
  induction d as [|[k' v'] d IH]; simpl.
  - split; [intros _; apply not_elem_of_nil | done].
  - rewrite not_elem_of_cons. destruct (decide (k = k')) as [->|Hne].
    + split; [done | intros [? _]; done].
    + rewrite IH. tauto.
Qed.

Lemma get_Some_elem d k v : Dict.get d k = Some v -> (k, v) ∈ d.
Proof.
  induction d as [|[k' v'] d IH]; simpl; [done|].
  destruct (decide (k = k')) as [->|Hne].
  - intros [= ->]. apply elem_of_cons; by left.
  - intros Hg. apply elem_of_cons; right; auto.
Qed.

Lemma elem_key d k v : (k, v) ∈ d -> k ∈ Dict.keys d.
Proof.
  intros Hin. unfold Dict.keys.
  apply (list_elem_of_fmap_2 fst) in Hin. exact Hin.
Qed.

Lemma elem_get d k v :
  NoDup (Dict.keys d) -> (k, v) ∈ d -> Dict.get d k = Some v.
Proof.
  induction d as [|[k' v'] d IH]; simpl.
  - intros _ Hin. by apply elem_of_nil in Hin.
  - intros Hnd Hin. apply NoDup_cons in Hnd as [Hk' Hnd].
    apply elem_of_cons in Hin as [[= -> ->]|Hin].
    + by rewrite decide_True.
    + destruct (decide (k = k')) as [->|Hne]; [|by apply IH].
      exfalso. apply Hk'. by apply elem_key in Hin.
Qed.

Lemma keys_set_old d k v v0 :
  Dict.get d k = Some v0 -> Dict.keys (Dict.set d k v) = Dict.keys d.
Proof.
  induction d as [|[k' v'] d IH]; simpl; [done|].
  destruct (decide (k = k')) as [->|Hne]; simpl; [done|].
  intros Hg. f_equal. by apply IH.
Qed.

Lemma keys_set_new d k v :
  Dict.get d k = None -> Dict.keys (Dict.set d k v) = Dict.keys d ++ [k].
Proof.
  induction d as [|[k' v'] d IH]; simpl; [done|].
  destruct (decide (k = k')) as [->|Hne]; simpl; [done|].
  intros Hg. f_equal. by apply IH.
Qed.

Lemma elem_values d v : v ∈ Dict.values d -> exists k, (k, v) ∈ d.
Proof.
  unfold Dict.values. intros Hin.
  apply list_elem_of_fmap in Hin as [[k v'] [-> Hin]]. by exists k.
Qed.
End DictFacts.
End DictFacts.

(** ** Python numbers *)

Module PyNumFacts.
Import PyNum.

Ltac cmp_cases :=
  repeat match goal with
    | |- context [N.leb ?a ?b] => destruct (N.leb_spec a b)
    | |- context [N.eqb ?a ?b] => destruct (N.eqb_spec a b)
    end; simpl; try done; try lia.

Lemma is_digit_code c : is_digit c = true -> (48 <= code c <= 57)%N.
Proof.
  unfold is_digit. intros [H1 H2]%andb_true_iff.
  apply N.leb_le in H1, H2. lia.
Qed.

Lemma digit_not_underscore c : is_digit c = true -> is_underscore c = false.
Proof.
  intros Hd%is_digit_code. unfold is_underscore. cmp_cases.
Qed.

Lemma digit_not_space c : is_digit c = true -> is_space c = false.
Proof.
  intros Hd%is_digit_code. unfold is_space. cbv zeta. cmp_cases.
Qed.

Lemma digit_lower c : is_digit c = true -> lower c = c.
Proof.
  intros Hd%is_digit_code. unfold lower. cbv zeta. cmp_cases.
Qed.

Lemma digit_val_nonneg c : is_digit c = true -> 0 <= digit_val c.
Proof. intros Hd%is_digit_code. unfold digit_val. lia. Qed.

Lemma drop_underscores_digits ds : forall pd,
  forallb is_digit ds = true -> drop_underscores pd false ds = Some ds.
Proof.
  induction ds as [|c ds IH]; intros pd; simpl; [done|].
  intros [Hc Hds]%andb_true_iff.
  rewrite (digit_not_underscore _ Hc), (IH _ Hds). done.
Qed.

Lemma lstrip_digits ds : forallb is_digit ds = true -> lstrip ds = ds.
Proof.
  destruct ds as [|c ds]; simpl; [done|].
  intros [Hc _]%andb_true_iff. by rewrite (digit_not_space _ Hc).
Qed.

Lemma forallb_rev {A} (f : A -> bool) l :
  forallb f l = true -> forallb f (rev l) = true.
Proof.
  rewrite !forallb_forall. intros H x Hx. apply H. by apply in_rev.
Qed.

Lemma map_lower_digits ds : forallb is_digit ds = true -> map lower ds = ds.
Proof.
  induction ds as [|c ds IH]; simpl; [done|].
  intros [Hc Hds]%andb_true_iff. by rewrite (digit_lower _ Hc), IH.
Qed.

(** A run of digits is read to its end. *)
Lemma take_digits_all ds : forall acc n,
  forallb is_digit ds = true -> 0 <= acc ->
  exists v, take_digits ds acc n = (v, (n + List.length ds)%nat, []) /\ 0 <= v.
Proof.
  induction ds as [|c ds IH]; intros acc n; simpl.
  - intros _ Hacc. exists acc. by rewrite Nat.add_0_r.
  - intros [Hc Hds]%andb_true_iff Hacc. rewrite Hc.
    pose proof (digit_val_nonneg _ Hc) as Hv.
    destruct (IH (10 * acc + digit_val c) (S n) Hds) as (v & Hv' & Hpos);
      [lia|].
    exists v. rewrite Hv'. split; [|done]. do 2 f_equal. lia.
Qed.

Lemma not_keyword_digits (w : string) c ds c' w' :
  is_digit c = true -> w = String c' w' -> is_digit c' = false ->
  ascii_list_eqb (c :: ds) (list_ascii_of_string w) = false.
Proof.
  intros Hc -> Hc'. unfold ascii_list_eqb; simpl.
  destruct (Ascii.eqb_spec c c') as [->|Hne]; [congruence | done].
Qed.

(** Rounding keeps the sign: a non-negative mantissa goes to a zero, a
    finite number or an infinity of the sign asked for. *)
Lemma shr_1_nonneg mrs : 0 <= shr_m mrs -> 0 <= shr_m (shr_1 mrs).
Proof.
  destruct mrs as [m r s]; simpl.
  destruct m as [|[p|p|]|[p|p|]]; simpl; lia.
Qed.

Lemma iter_shr_1_nonneg p : forall mrs,
  0 <= shr_m mrs -> 0 <= shr_m (iter_pos shr_1 p mrs).
Proof.
  induction p as [p IH|p IH|]; intros mrs H; simpl.
  - apply IH, IH, shr_1_nonneg, H.
  - apply IH, IH, H.
  - apply shr_1_nonneg, H.
Qed.

Lemma shr_fexp_nonneg m e l :
  0 <= m -> 0 <= shr_m (fst (shr_fexp prec emax m e l)).
Proof.
  intros Hm. unfold shr_fexp, shr.
  assert (H0 : 0 <= shr_m (shr_record_of_loc m l)).
  { by destruct l as [|[]]. }
  destruct (_ - e); simpl; [done| |done].
  by apply iter_shr_1_nonneg.
Qed.

Lemma round_nearest_even_nonneg m l : 0 <= m -> 0 <= round_nearest_even m l.
Proof.
  intros Hm. destruct l as [|[]]; simpl; try lia.
  destruct (Z.even m); lia.
Qed.

Lemma binary_round_aux_sign sx mx ex lx :
  0 <= mx -> has_sign sx (binary_round_aux prec emax sx mx ex lx).
Proof.
  intros Hm. unfold binary_round_aux.
  pose proof (shr_fexp_nonneg mx ex lx Hm) as H1.
  destruct (shr_fexp prec emax mx ex lx) as [mrs' e']. simpl in H1.
  pose proof (shr_fexp_nonneg _ e' loc_Exact
                (round_nearest_even_nonneg _ (loc_of_shr_record mrs') H1)) as H2.
  destruct (shr_fexp prec emax _ e' loc_Exact) as [mrs'' e'']. simpl in H2.
  destruct (shr_m mrs''); simpl; [done| |lia].
  by destruct (_ <=? _).
Qed.

Lemma binary_round_sign sx mx ex :
  has_sign sx (binary_round prec emax sx mx ex).
Proof.
  unfold binary_round. destruct (shl_align _ _ _) as [mz ez].
  by apply binary_round_aux_sign.
Qed.

Lemma round_decimal_sign neg m e : 0 <= m -> has_sign neg (round_decimal neg m e).
Proof.
  intros Hm. unfold round_decimal. destruct m as [|p|p]; [done| |lia].
  destruct e as [|k|k].
  - destruct neg; simpl; apply binary_round_sign.
  - assert (0 < Z.pos p * 10 ^ Z.pos k) by lia.
    destruct (Z.pos p * 10 ^ Z.pos k) as [|n|n] eqn:Hn; try lia.
    destruct neg; simpl; apply binary_round_sign.
  - destruct (SFdiv_core_binary _ _ _ _ _ _) as [[q e'] l] eqn:Hdiv.
    apply binary_round_aux_sign.
    unfold SFdiv_core_binary in Hdiv. cbv zeta in Hdiv.
    match type of Hdiv with
    | context [Z.div_eucl ?a ?b] =>
        pose proof (Z_div_mod a b) as Hdm;
        assert (Ha : 0 <= a);
        [| destruct (Z.div_eucl a b) as [quo rem] ]
    end.
    + destruct (_ - _ - _); try lia. rewrite Z.shiftl_mul_pow2 by lia. lia.
    + injection Hdiv as <- _ _.
      assert (Hb : Z.pow_pos 10 k > 0).
      { rewrite Z.pow_pos_fold. lia. }
      specialize (Hdm Hb) as [Heq Hr]. nia.
Qed.

Lemma has_sign_true_le_zero f : has_sign true f -> le_zero (PyFloat f) = true.
Proof. destruct f as [[]|[]| |[] m e]; simpl; done. Qed.

(** The text [-d1...dn] reads as the number it writes, which is not
    positive. *)
Lemma is_digit_ascii c : is_digit c = true -> is_ascii c = true.
Proof.
  unfold is_digit, is_ascii. intros [H1 H2]%andb_prop.
  apply N.leb_le in H2. apply N.ltb_lt. lia.
Qed.

Lemma digits_ascii ds : forallb is_digit ds = true -> forallb is_ascii ds = true.
Proof.
  induction ds as [|d ds IH]; simpl; [done|].
  intros [Hd Hds]%andb_prop. by rewrite (is_digit_ascii d Hd), IH.
Qed.

(** On a text that is all ASCII, [float] reads the text as it is. *)
Lemma py_float_ascii s :
  forallb is_ascii s = true ->
  py_float (string_of_list_ascii s) = parse_float s.
Proof.
  intros Hs. unfold py_float.
  by rewrite list_ascii_of_string_of_list_ascii, Hs.
Qed.

Lemma py_float_neg_digits ds :
  ds <> [] -> forallb is_digit ds = true ->
  exists f, parse_float ("-"%char :: ds) = Some f /\ has_sign true f.
Proof.
  intros Hne Hds. unfold parse_float. simpl drop_underscores.
  rewrite (drop_underscores_digits _ _ Hds).
  assert (Hstrip : strip ("-"%char :: ds) = "-"%char :: ds).
  { unfold strip. simpl lstrip. simpl rev.
    assert (Hr : lstrip (rev ds ++ ["-"%char]) = rev ds ++ ["-"%char]).
    { pose proof (forallb_rev _ _ Hds) as Hrev.
      destruct (rev ds) as [|c r] eqn:Hrd.
      - apply (f_equal (@rev ascii)) in Hrd. rewrite rev_involutive in Hrd.
        done.
      - simpl in *. apply andb_true_iff in Hrev as [Hc _].
        by rewrite (digit_not_space _ Hc). }
    rewrite Hr, rev_app_distr, rev_involutive. done. }
  rewrite Hstrip. simpl take_sign. cbv iota beta.
  rewrite (map_lower_digits _ Hds).
  destruct ds as [|c ds]; [done|].
  pose proof Hds as Hds'. simpl in Hds'.
  apply andb_true_iff in Hds' as [Hc _].
  rewrite (not_keyword_digits "inf" c ds "i" "nf" Hc eq_refl eq_refl).
  rewrite (not_keyword_digits "infinity" c ds "i" "nfinity" Hc eq_refl eq_refl).
  rewrite (not_keyword_digits "nan" c ds "n" "an" Hc eq_refl eq_refl).
  simpl orb. cbv iota.
  destruct (take_digits_all (c :: ds) 0 0%nat Hds) as (v & Hv & Hpos); [lia|].
  unfold parse_decimal. rewrite Hv. simpl.
  eexists. split; [reflexivity|]. by apply round_decimal_sign.
Qed.
Lemma mul_zero_finite v :
  value_finite v = true ->
  exists t, mul (PyInt 0) v = Some t /\ is_zero t = true.
Proof.
  destruct v as [b|f]; simpl.
  - intros _. by exists (PyInt 0).
  - intros Hf. destruct f as [s|s| |s m e]; try done; eexists; split;
      try reflexivity; done.
Qed.

Lemma mul_zero_nonfinite v :
  value_finite v = false -> mul (PyInt 0) v = Some (PyFloat S754_nan).
Proof. destruct v as [b|[s|s| |s m e]]; simpl; done. Qed.
(** Integers below 2^53 convert to [float] (exactly). *)
Lemma digits2_pos_iter_xO p k :
  digits2_pos (Pos.iter xO p k) = (digits2_pos p + k)%positive.
Proof.
  induction k as [|k IH] using Pos.peano_ind.
  - simpl. by rewrite Pos.add_1_r.
  - rewrite Pos.iter_succ. simpl. rewrite IH. by rewrite Pos.add_succ_r.
Qed.

Lemma digits2_pos_size p : digits2_pos p = Pos.size p.
Proof. induction p as [p IH|p IH|]; simpl; by rewrite ?IH. Qed.

Lemma digits2_pos_bound p : Z.pos p < 2 ^ 53 -> Z.pos (digits2_pos p) <= 53.
Proof.
  intros Hp. rewrite digits2_pos_size.
  destruct (Z_le_gt_dec (Z.pos (Pos.size p)) 53) as [|Hgt]; [done|].
  exfalso. pose proof (Pos.size_le p) as Hle.
  apply Pos2Z.pos_le_pos in Hle. rewrite Pos2Z.inj_pow in Hle.
  assert (2 ^ 54 <= 2 ^ Z.pos (Pos.size p)) by (apply Z.pow_le_mono_r; lia).
  change (Z.pos p~0) with (2 * Z.pos p) in Hle.
  change (2 ^ 54) with (2 * 2 ^ 53) in *. lia.
Qed.

Lemma binary_round_aux_exact sx m e :
  fexp prec emax (Z.pos (digits2_pos m) + e) = e -> e <= emax - prec ->
  binary_round_aux prec emax sx (Z.pos m) e loc_Exact = S754_finite sx m e.
Proof.
  intros Hf He. unfold binary_round_aux, shr_fexp. simpl Zdigits2.
  rewrite Hf, Z.sub_diag. simpl. rewrite Hf, Z.sub_diag. simpl.
  by rewrite (proj2 (Z.leb_le _ _) He).
Qed.

Lemma float_of_int_small z :
  0 <= z < 2 ^ 53 -> exists f, float_of_int z = Some f /\ is_finite f = true.
Proof.
  intros [H0 H53]. unfold float_of_int.
  destruct z as [|p|p]; [by eexists| |lia].
  pose proof (digits2_pos_bound p H53) as Hd.
  unfold binary_normalize, binary_round.
  assert (Hf : fexp prec emax (Z.pos (digits2_pos p) + 0)
               = Z.pos (digits2_pos p) - 53).
  { unfold fexp, emin, prec, emax. lia. }
  rewrite Hf. unfold shl_align. rewrite Z.sub_0_r.
  destruct (Z.pos (digits2_pos p) - 53) as [|k|k] eqn:Hk; [|lia|].
  - rewrite binary_round_aux_exact; [by eexists| |unfold emax, prec; lia].
    unfold fexp, emin, prec, emax. lia.
  - rewrite binary_round_aux_exact; [by eexists| |unfold emax, prec; lia].
    rewrite digits2_pos_iter_xO. unfold fexp, emin, prec, emax. lia.
Qed.
End PyNumFacts.

(** ** 推荐系统.py *)

Module RecommendFacts.
Import PyNum Yolo Recommend.

Lemma english_item_of_label l : english (item_of_label l) = l.
Proof.
  unfold item_of_label.
  by destruct (Dict.get_default PESTICIDE_DB l unknown_pesticide).
Qed.

Lemma count_item_of_label l : count (item_of_label l) = 1.
Proof.
  unfold item_of_label.
  by destruct (Dict.get_default PESTICIDE_DB l unknown_pesticide).
Qed.

Lemma with_count_one l : item_of_label l = with_count 1 (item_of_label l).
Proof.
  unfold with_count. rewrite <- (count_item_of_label l).
  by destruct (item_of_label l).
Qed.

Lemma occurrences_snoc k ls l :
  occurrences k (ls ++ [l]) =
  occurrences k ls + (if decide (l = k) then 1 else 0).
Proof.
  unfold occurrences. rewrite count_occ_app. simpl.
  destruct (string_dec l k), (decide (l = k)); try done; lia.
Qed.

Lemma occurrences_absent k ls : k ∉ ls -> occurrences k ls = 0.
Proof.
  intros Hk. unfold occurrences.
  rewrite (proj1 (count_occ_not_In string_dec ls k)); [done|].
  by rewrite <- list_elem_of_In.
Qed.

Lemma occurrences_present k ls : k ∈ ls -> 1 <= occurrences k ls.
Proof.
  intros Hk. unfold occurrences.
  apply list_elem_of_In, (count_occ_In string_dec) in Hk. lia.
Qed.

Lemma aggregated_nil : aggregated [] [].
Proof.
  repeat split; simpl; try done.
  apply NoDup_nil_2.
Qed.

Lemma aggregated_step ls d l :
  aggregated ls d ->
  aggregated (ls ++ [l]) (aggregate_step d (item_of_label l)).
Proof.
  intros (Hnd & Hkeys & Hval). unfold aggregate_step.
  rewrite english_item_of_label.
  destruct (Dict.get d l) as [it|] eqn:Hg.
  - assert (Hl : l ∈ ls).
    { apply Hkeys. eapply DictFacts.elem_key, DictFacts.get_Some_elem, Hg. }
    repeat split.
    + by rewrite (DictFacts.keys_set_old _ _ _ _ Hg).
    + rewrite (DictFacts.keys_set_old _ _ _ _ Hg), Hkeys.
      intros ?. apply elem_of_app; by left.
    + rewrite (DictFacts.keys_set_old _ _ _ _ Hg), Hkeys.
      intros [?| ->%list_elem_of_singleton]%elem_of_app; done.
    + intros k it'. rewrite occurrences_snoc.
      destruct (decide (l = k)) as [<-|Hne].
      * rewrite DictFacts.get_set_eq. intros [= <-].
        rewrite (Hval _ _ Hg). reflexivity.
      * rewrite DictFacts.get_set_ne by done. intros Hk.
        rewrite (Hval _ _ Hk). by rewrite Z.add_0_r.
  - assert (Hl : l ∉ ls).
    { rewrite <- Hkeys. by apply DictFacts.get_None. }
    repeat split.
    + rewrite (DictFacts.keys_set_new _ _ _ Hg).
      apply NoDup_app. repeat split; [done| |apply NoDup_singleton].
      intros k Hk ->%list_elem_of_singleton. by apply Hkeys in Hk.
    + rewrite (DictFacts.keys_set_new _ _ _ Hg), !elem_of_app, Hkeys. done.
    + rewrite (DictFacts.keys_set_new _ _ _ Hg), !elem_of_app, Hkeys. done.
    + intros k it'. rewrite occurrences_snoc.
      destruct (decide (l = k)) as [<-|Hne].
      * rewrite DictFacts.get_set_eq. intros [= <-].
        rewrite (occurrences_absent _ _ Hl). apply with_count_one.
      * rewrite DictFacts.get_set_ne by done. intros Hk.
        rewrite (Hval _ _ Hk). by rewrite Z.add_0_r.
Qed.

Lemma aggregated_fold ls2 : forall ls1 d,
  aggregated ls1 d ->
  aggregated (ls1 ++ ls2) (fold_left aggregate_step (map item_of_label ls2) d).
Proof.
  induction ls2 as [|l ls2 IH]; intros ls1 d Hd; simpl.
  - by rewrite app_nil_r.
  - replace (ls1 ++ l :: ls2) with ((ls1 ++ [l]) ++ ls2)
      by (by rewrite <- app_assoc).
    apply IH, aggregated_step, Hd.
Qed.

Lemma aggregated_aggregate ls : aggregated ls (aggregate (map item_of_label ls)).
Proof. apply (aggregated_fold ls [] []), aggregated_nil. Qed.

(** What the stored records are, from the invariant. *)
Lemma aggregated_values ls d r :
  aggregated ls d -> r ∈ Dict.values d ->
  english r ∈ ls /\ r = with_count (occurrences (english r) ls) (item_of_label (english r)).
Proof.
  intros (Hnd & Hkeys & Hval) Hr.
  apply DictFacts.elem_values in Hr as [k Hk].
  pose proof (DictFacts.elem_get _ _ _ Hnd Hk) as Hg.
  pose proof (Hval _ _ Hg) as Hit.
  assert (english r = k) as ->.
  { rewrite Hit. unfold with_count; simpl. apply english_item_of_label. }
  split; [|done]. apply Hkeys. eapply DictFacts.elem_key, Hk.
Qed.

Lemma aggregated_english ls d :
  aggregated ls d -> map english (Dict.values d) = Dict.keys d.
Proof.
  intros (Hnd & _ & Hval). unfold Dict.values, Dict.keys.
  rewrite map_map. apply map_ext_in. intros [k it] Hin; simpl.
  apply list_elem_of_In in Hin.
  rewrite (Hval _ _ (DictFacts.elem_get _ _ _ Hnd Hin)).
  unfold with_count; simpl. apply english_item_of_label.
Qed.

Lemma collect_labels names boxes : forall ls acc,
  labels_of names boxes = Some ls ->
  collect names boxes acc = (acc ++ map item_of_label ls, None).
Proof.
  induction boxes as [|b boxes IH]; intros ls acc; simpl.
  - intros [= <-]. by rewrite app_nil_r.
  - destruct (Dict.get names (cls b)) as [l|]; [|done].
    destruct (labels_of names boxes) as [ls'|]; [|done].
    intros [= <-]. rewrite (IH ls' _ eq_refl). simpl.
    by rewrite <- app_assoc.
Qed.

(** [update_recommendation] writes the result label and nothing else. *)
Lemma update_recommendation_Some a a' :
  update_recommendation a = Some a' ->
  exists t, report (pest_data a) (area_input a) = Some t
            /\ a' = set_result_label t a.
Proof.
  unfold update_recommendation.
  destruct (report _ _) as [t|]; [|done]. intros [= <-]. by exists t.
Qed.

(** The records [run_detection] stores. *)
Lemma run_detection_pest_data a m img annotated boxes ls :
  model a = Some m -> current_img a = Some img ->
  predict m (call_of img) = Results annotated boxes ->
  labels_of (names m) boxes = Some ls ->
  pest_data (run_detection a) = Dict.values (aggregate (map item_of_label ls)).
Proof.
  intros Hm Hi Hp Hl. unfold run_detection. rewrite Hm, Hi, Hp.
  rewrite (collect_labels _ _ _ [] Hl). simpl.
  destruct (update_recommendation _) as [a'|] eqn:Hu; [|done].
  apply update_recommendation_Some in Hu as (t & _ & ->). done.
Qed.

(** *** The report is always produced *)

Lemma item_of_label_in_range l : dosage_in_range (item_of_label l).
Proof.
  unfold dosage_in_range, item_of_label, Dict.get_default, PESTICIDE_DB.
  simpl. repeat case_decide; simpl; lia.
Qed.

Lemma effective_area_shape text :
  effective_area text = PyInt 1 \/ exists f, effective_area text = PyFloat f.
Proof.
  unfold effective_area. destruct text; [by left|].
  destruct (py_float _) as [f|]; [right; by exists f | by left].
Qed.

Lemma item_lines_total area it :
  (area = PyInt 1 \/ exists f, area = PyFloat f) ->
  dosage_in_range it -> is_Some (item_lines area it).
Proof.
  intros Harea Hit. unfold item_lines, total_dosage.
  destruct (PyNumFacts.float_of_int_small _ Hit) as (g & Hg & _).
  destruct Harea as [->|[f ->]]; simpl.
  - rewrite Z.mul_1_r, Hg. done.
  - rewrite Hg. done.
Qed.

Lemma result_lines_total area items :
  (area = PyInt 1 \/ exists f, area = PyFloat f) ->
  Forall dosage_in_range items -> is_Some (result_lines area items).
Proof.
  intros Harea. induction 1 as [|it items Hit _ IH]; simpl; [done|].
  destruct (item_lines_total area it Harea Hit) as [l ->].
  destruct IH as [ls ->]. done.
Qed.

Lemma report_total items text :
  Forall dosage_in_range items -> is_Some (report items text).
Proof.
  intros Hitems. unfold report. destruct items as [|it items]; [done|].
  destruct (result_lines_total _ _ (effective_area_shape text) Hitems)
    as [ls ->].
  done.
Qed.

Lemma collect_in_range names boxes : forall acc,
  Forall dosage_in_range acc ->
  Forall dosage_in_range (fst (collect names boxes acc)).
Proof.
  induction boxes as [|b boxes IH]; intros acc Hacc; simpl; [done|].
  destruct (Dict.get names (cls b)) as [l|]; [|done].
  apply IH, Forall_app. split; [done|].
  apply Forall_singleton, item_of_label_in_range.
Qed.

Lemma dict_set_in_range (d : list (string * PestItem)) k it :
  Forall dosage_in_range (Dict.values d) -> dosage_in_range it ->
  Forall dosage_in_range (Dict.values (Dict.set d k it)).
Proof.
  intros Hd Hit. induction d as [|[k' v] d IH]; simpl.
  - by apply Forall_singleton.
  - apply Forall_cons in Hd as [Hv Hd].
    destruct (decide (k = k')); simpl; apply Forall_cons; auto.
Qed.

Lemma dict_get_in_range (d : list (string * PestItem)) k it :
  Forall dosage_in_range (Dict.values d) -> Dict.get d k = Some it ->
  dosage_in_range it.
Proof.
  intros Hd Hg. apply DictFacts.get_Some_elem in Hg.
  rewrite Forall_forall in Hd. apply Hd.
  unfold Dict.values. apply (list_elem_of_fmap_2 snd) in Hg. exact Hg.
Qed.

Lemma aggregate_in_range items : forall d,
  Forall dosage_in_range items ->
  Forall dosage_in_range (Dict.values d) ->
  Forall dosage_in_range (Dict.values (fold_left aggregate_step items d)).
Proof.
  induction items as [|it items IH]; intros d Hitems Hd; simpl; [done|].
  apply Forall_cons in Hitems as [Hit Hitems].
  apply IH; [done|]. unfold aggregate_step.
  destruct (Dict.get d (english it)) as [old|] eqn:Hg.
  - apply dict_set_in_range; [done|].
    apply (dict_get_in_range _ _ _ Hd Hg).
  - by apply dict_set_in_range.
Qed.

Lemma run_detection_in_range a :
  Forall dosage_in_range (pest_data a) ->
  Forall dosage_in_range (pest_data (run_detection a)).
Proof.
  intros Ha. unfold run_detection.
  destruct (model a) as [m|]; [|done].
  destruct (current_img a) as [img|]; [|done].
  destruct (predict m (call_of img)) as [msg|ann boxes|msg bs]; [done| |done].
  pose proof (collect_in_range (names m) boxes [] (Forall_nil_2 _)) as Hc.
  destruct (collect (names m) boxes []) as [items [k|]]; simpl in Hc; [done|].
  assert (Hagg : Forall dosage_in_range (Dict.values (aggregate items))).
  { apply aggregate_in_range; [done|apply Forall_nil_2]. }
  destruct (update_recommendation _) as [a'|] eqn:Hu; [|done].
  apply update_recommendation_Some in Hu as (t & _ & ->). done.
Qed.

Lemma step_in_range ev a :
  Forall dosage_in_range (pest_data a) ->
  Forall dosage_in_range (pest_data (step ev a)).
Proof.
  intros Ha. unfold step. destruct (crashed a); [done|].
  destruct ev as [f l|f r e|text|].
  - unfold load_model. destruct f; [done|]. by destruct l.
  - destruct (select_image_btn a); [|done].
    unfold select_image. destruct f; [done|]. by destruct r.
  - destruct (update_recommendation _) as [a'|] eqn:Hu; [|done].
    apply update_recommendation_Some in Hu as (t & _ & ->). done.
  - destruct (run_detection_btn a); [|done]. by apply run_detection_in_range.
Qed.

Lemma window_reachable_in_range a :
  reachable a -> Forall dosage_in_range (pest_data a).
Proof.
  induction 1 as [|ev a Hr IH]; [apply Forall_nil_2|]. by apply step_in_range.
Qed.

Lemma window_reachable_steps evs : forall a, reachable a -> reachable (steps evs a).
Proof.
  induction evs as [|ev evs IH]; intros a Ha; simpl; [done|].
  apply IH. by constructor.
Qed.

(** C2. For every sequence of detections processed by one run of
    [run_detection], the stored records have pairwise distinct labels,
    each record counts the detections of its label (so the count is at
    least 1), and every detected label has its record.  Detections
    labelled rice-bug, rice-bug, stem-borer give exactly two records,
    with counts 2 and 1. *)
Theorem C2_one_record_per_label a m img annotated boxes ls :
  model a = Some m -> current_img a = Some img ->
  predict m (call_of img) = Results annotated boxes ->
  labels_of (names m) boxes = Some ls ->
  let recs := pest_data (run_detection a) in
  NoDup (map english recs)
  /\ (forall r, r ∈ recs ->
        english r ∈ ls /\ count r = occurrences (english r) ls
        /\ 1 <= count r)
  /\ (forall l, l ∈ ls -> exists r, r ∈ recs /\ english r = l)
  /\ map (fun r => (english r, count r))
        (pest_data (after_detection [1; 1; 3] EmptyString))
      = [("rice-bug"%string, 2); ("stem-borer"%string, 1)].
Proof.
  intros Hm Hi Hp Hl recs. subst recs.
  rewrite (run_detection_pest_data _ _ _ _ _ _ Hm Hi Hp Hl).
  pose proof (aggregated_aggregate ls) as Hagg.
  split; [|split; [|split]].
  - rewrite (aggregated_english _ _ Hagg). apply Hagg.
  - intros r Hr.
    destruct (aggregated_values _ _ _ Hagg Hr) as [Hin Heq].
    split; [done|]. rewrite Heq at 1 3. simpl.
    split; [done|]. by apply occurrences_present.
  - intros l Hin. destruct Hagg as (Hnd & Hkeys & Hval).
    apply Hkeys in Hin.
    rewrite <- (aggregated_english ls) in Hin by done.
    apply list_elem_of_fmap in Hin as [r [-> Hr]]. by exists r.
  - reflexivity.
Qed.

Lemma C2_one_record_per_label_witness :
  NoDup (map english (pest_data (run_detection (ready [1; 1; 3] "2")))).
Proof.
  exact (proj1 (C2_one_record_per_label (ready [1; 1; 3] "2")
                  (demo_model [1; 1; 3]) blank blank (demo_boxes [1; 1; 3])
                  ["rice-bug"; "rice-bug"; "stem-borer"]%string
                  eq_refl eq_refl eq_refl eq_refl)).
Defined.

(** C7. For every area text, the report on an empty set of records is
    the text 未检测到害虫 ("no pests detected"), which is not the empty
    text: when the area is edited with no record stored, and when a
    detection finds no box. *)
Theorem C7_empty_detection_sentinel area_text a :
  crashed a = false -> pest_data a = [] ->
  report [] area_text = Some no_pest_text
  /\ no_pest_text <> EmptyString
  /\ result_label (step (AreaTextChanged area_text) a) = no_pest_text
  /\ (forall m img annotated,
        model a = Some m -> current_img a = Some img ->
        predict m (call_of img) = Results annotated [] ->
        let a' := run_detection (set_area_input area_text a) in
        pest_data a' = [] /\ result_label a' = no_pest_text).
Proof.
  intros Hc Hd. split; [done|]. split; [done|]. split.
  - unfold step. rewrite Hc. unfold update_recommendation. simpl.
    by rewrite Hd.
  - intros m img annotated Hm Hi Hp. unfold run_detection. simpl.
    rewrite Hm, Hi, Hp. done.
Qed.

Lemma C7_empty_detection_sentinel_witness :
  result_label (step (AreaTextChanged "abc") init) = no_pest_text.
Proof.
  exact (proj1 (proj2 (proj2
    (C7_empty_detection_sentinel "abc" init eq_refl eq_refl)))).
Defined.

(** C9. An edit of the area field recomputes the result label from the
    records that are stored: the model is not called (no effect is
    added), and the stored records, the model and the image are left as
    they were.  In every reachable state the recomputation succeeds and
    the label shown is the report of the stored records for the new
    text. *)
Theorem C9_area_change_keeps_records text a :
  let a' := step (AreaTextChanged text) a in
  pest_data a' = pest_data a
  /\ log a' = log a
  /\ model a' = model a
  /\ current_img a' = current_img a
  /\ (reachable a -> crashed a = false ->
      crashed a' = false
      /\ report (pest_data a) text = Some (result_label a')).
Proof.
  unfold step. destruct (crashed a) eqn:Hc.
  - repeat apply conj; done.
  - unfold update_recommendation. simpl.
    destruct (report (pest_data a) text) as [t|] eqn:Hrep; simpl.
    + repeat apply conj; done.
    + repeat apply conj; try done. intros Hr _.
      destruct (report_total (pest_data a) text (window_reachable_in_range a Hr))
        as [t Ht].
      congruence.
Qed.

Lemma C9_area_change_keeps_records_witness :
  pest_data (step (AreaTextChanged "3") (after_detection [1; 1; 3] "2"))
  = pest_data (after_detection [1; 1; 3] "2")
  /\ crashed (step (AreaTextChanged "3") (after_detection [1; 1; 3] "2"))
     = false.
Proof.
  pose proof (C9_area_change_keeps_records "3"
                (after_detection [1; 1; 3] "2")) as (H1 & _ & _ & _ & H5).
  split; [exact H1|].
  assert (Hc : crashed (after_detection [1; 1; 3] "2") = false)
    by (vm_compute; reflexivity).
  assert (Hr : reachable (after_detection [1; 1; 3] "2")).
  { unfold after_detection, ready.
    apply reach_step, window_reachable_steps, reach_init. }
  exact (proj1 (H5 Hr Hc)).
Defined.
(** The text [float] reads: the area, whatever its sign. *)
Lemma effective_area_parsed text f :
  text <> EmptyString -> py_float text = Some f ->
  effective_area text = PyFloat f.
Proof.
  intros Hne Hf. unfold effective_area. destruct text; [done|].
  by rewrite Hf.
Qed.

Lemma effective_area_default text :
  text = EmptyString \/ py_float text = None -> effective_area text = PyInt 1.
Proof.
  unfold effective_area. intros [->|Hf]; [done|].
  destruct text; [done|]. by rewrite Hf.
Qed.

(** C1, amended. For every area text, the effective area is 1 when the
    text is empty or [float] does not read it as a number; otherwise it
    is the number read, whatever its sign: every text made of a minus
    sign and digits gives an area that is not positive, and that area is
    used.  With area text 2 the total dosage of rice-bug is 100.0, with
    an empty text or abc it is 50.0.  [float] reads the decimal digits of
    every script: the fullwidth digit two gives the area 2.0 as well. *)
Theorem C1_effective_area :
  (forall text,
      text = EmptyString \/ py_float text = None ->
      effective_area text = PyInt 1)
  /\ (forall text f,
        text <> EmptyString -> py_float text = Some f ->
        effective_area text = PyFloat f)
  /\ (forall ds,
        ds <> [] -> forallb is_digit ds = true ->
        exists f,
          effective_area (String "-" (string_of_list_ascii ds)) = PyFloat f
          /\ le_zero (PyFloat f) = true)
  /\ (total_dosage (item_of_label "rice-bug") (effective_area "2")
        = Some (PyFloat (S754_finite false 7036874417766400 (-46)))
      /\ report [item_of_label "rice-bug"] "2"
         = Some (String.concat newline
                   [ "【稻蝽】"; "推荐农药：氯氰菊酯"; "基础用量：50ml/亩";
                     "总用量：100.0ml"; dashes ]%string))
  /\ (forall text, text = EmptyString \/ text = "abc"%string ->
        total_dosage (item_of_label "rice-bug") (effective_area text)
        = Some (PyInt 50)
        /\ report [item_of_label "rice-bug"] text
           = Some (String.concat newline
                     [ "【稻蝽】"; "推荐农药：氯氰菊酯"; "基础用量：50ml/亩";
                       "总用量：50.0ml"; dashes ]%string))
  /\ (effective_area "２" = effective_area "2"
      /\ report [item_of_label "rice-bug"] "２"
         = Some (String.concat newline
                   [ "【稻蝽】"; "推荐农药：氯氰菊酯"; "基础用量：50ml/亩";
                     "总用量：100.0ml"; dashes ]%string)).
Proof.
  split; [exact effective_area_default|].
  split; [exact effective_area_parsed|].
  split; [|split; [|split]].
  - intros ds Hne Hds.
    destruct (PyNumFacts.py_float_neg_digits ds Hne Hds) as (f & Hf & Hs).
    exists f. split.
    + apply effective_area_parsed; [done|].
      change (String "-" (string_of_list_ascii ds))
        with (string_of_list_ascii ("-"%char :: ds)).
      rewrite PyNumFacts.py_float_ascii; [done|].
      simpl. by apply PyNumFacts.digits_ascii.
    + by apply PyNumFacts.has_sign_true_le_zero.
  - split; vm_compute; reflexivity.
  - intros text [->| ->]; split; vm_compute; reflexivity.
  - split; vm_compute; reflexivity.
Qed.

Lemma C1_effective_area_witness :
  effective_area "abc" = PyInt 1
  /\ (exists f, effective_area "-25" = PyFloat f /\ le_zero (PyFloat f) = true).
Proof.
  split.
  - exact (proj1 C1_effective_area "abc"%string (or_intror eq_refl)).
  - exact (proj1 (proj2 (proj2 C1_effective_area))
             (list_ascii_of_string "25")
             ltac:(discriminate) eq_refl).
Defined.

(** C1 as stated fails: the text -2 reads as the number -2.0, which is
    not positive, and the area used is -2.0 and not 1; the total dosage
    of rice-bug is then -100.0. *)
Lemma C1_counterexample_negative_area :
  py_float "-2" = Some (S754_finite true 4503599627370496 (-51))
  /\ le_zero (effective_area "-2") = true
  /\ effective_area "-2" <> PyInt 1
  /\ total_dosage (item_of_label "rice-bug") (effective_area "-2")
     = Some (PyFloat (S754_finite true 7036874417766400 (-46)))
  /\ result_label (after_detection [1] "-2")
     = String.concat newline
         [ "【稻蝽】"; "推荐农药：氯氰菊酯"; "基础用量：50ml/亩";
           "总用量：-100.0ml"; dashes ]%string.
Proof. repeat apply conj; try (vm_compute; reflexivity). discriminate. Qed.

Lemma unknown_item label :
  Dict.get PESTICIDE_DB label = None ->
  pesticide (item_of_label label) = "未知"%string
  /\ base_dosage (item_of_label label) = 0.
Proof.
  intros Hg. unfold item_of_label, Dict.get_default. rewrite Hg. done.
Qed.

(** C5, amended. A record stored by [run_detection] whose label is
    absent from [PESTICIDE_DB] has the pesticide name 未知 ("unknown") and
    base dosage 0; its total dosage equals 0 for every area text whose
    effective area is finite, and is NaN when the area text reads as an
    infinity or a NaN. *)
Theorem C5_unknown_label a m img annotated boxes ls r :
  model a = Some m -> current_img a = Some img ->
  predict m (call_of img) = Results annotated boxes ->
  labels_of (names m) boxes = Some ls ->
  r ∈ pest_data (run_detection a) ->
  Dict.get PESTICIDE_DB (english r) = None ->
  pesticide r = "未知"%string
  /\ base_dosage r = 0
  /\ (forall area_text,
        value_finite (effective_area area_text) = true ->
        exists t, total_dosage r (effective_area area_text) = Some t
                  /\ is_zero t = true)
  /\ (forall area_text,
        value_finite (effective_area area_text) = false ->
        total_dosage r (effective_area area_text) = Some (PyFloat S754_nan)).
Proof.
  intros Hm Hi Hp Hl Hr Hdb.
  rewrite (run_detection_pest_data _ _ _ _ _ _ Hm Hi Hp Hl) in Hr.
  destruct (aggregated_values _ _ _ (aggregated_aggregate ls) Hr) as [_ Heq].
  destruct (unknown_item _ Hdb) as [Hname Hbase].
  assert (Hn : pesticide r = "未知"%string) by (by rewrite Heq).
  assert (Hb : base_dosage r = 0) by (by rewrite Heq).
  split; [done|]. split; [done|]. unfold total_dosage. rewrite Hb. split.
  - intros area_text. apply PyNumFacts.mul_zero_finite.
  - intros area_text. apply PyNumFacts.mul_zero_nonfinite.
Qed.

Lemma C5_unknown_label_witness :
  pesticide (item_of_label "aphid") = "未知"%string
  /\ base_dosage (item_of_label "aphid") = 0.
Proof.
  pose proof (C5_unknown_label (ready [5] "2") (demo_model [5]) blank blank
                (demo_boxes [5]) ["aphid"%string] (item_of_label "aphid")
                eq_refl eq_refl eq_refl eq_refl
                ltac:(vm_compute; apply list_elem_of_here) eq_refl)
    as (H1 & H2 & _).
  exact (conj H1 H2).
Defined.

(** C5 as stated fails: for the label aphid, absent from
    [PESTICIDE_DB], and the area text 1e400, which [float] reads as an
    infinity, the total dosage is NaN, which is not equal to 0; so it is
    with the same text written with a fullwidth digit one. *)
Lemma C5_counterexample_infinite_area :
  Dict.get PESTICIDE_DB "aphid"%string = None
  /\ py_float "1e400" = Some (S754_infinity false)
  /\ py_float "１e400" = Some (S754_infinity false)
  /\ total_dosage (item_of_label "aphid") (effective_area "１e400")
     = Some (PyFloat S754_nan)
  /\ total_dosage (item_of_label "aphid") (effective_area "1e400")
     = Some (PyFloat S754_nan)
  /\ is_zero (PyFloat S754_nan) = false
  /\ result_label (after_detection [5] "1e400")
     = String.concat newline
         [ "【aphid】"; "推荐农药：未知"; "基础用量：0ml/亩";
           "总用量：nanml"; dashes ]%string.
Proof. repeat apply conj; vm_compute; reflexivity. Qed.
End RecommendFacts.

(** ** app.py *)

Module DetectorFacts.
Import PyNum Yolo Detector.

(** The literals of the programs. *)
Lemma conf_0_3_literal : py_float "0.3" = Some conf_0_3.
Proof. vm_compute; reflexivity. Qed.

Lemma fifty_ms_literal : py_float "0.05" = Some fifty_ms.
Proof. vm_compute; reflexivity. Qed.

Lemma fold_add_shift l : forall a, fold_left Z.add l a = a + fold_left Z.add l 0.
Proof.
  induction l as [|x l IH]; intros a; simpl; [lia|].
  rewrite (IH (a + x)), (IH (0 + x)). lia.
Qed.

Lemma sum_values_cons k v (d : list (string * Z)) :
  sum_values ((k, v) :: d) = v + sum_values d.
Proof. unfold sum_values; simpl. apply fold_add_shift. Qed.

(** [counts[name] = counts.get(name, 0) + 1] adds one to the sum. *)
Lemma sum_values_incr counts name :
  sum_values (Dict.set counts name (Dict.get_default counts name 0 + 1))
  = sum_values counts + 1.
Proof.
  induction counts as [|[k v] d IH]; [done|].
  unfold Dict.get_default in *. simpl.
  destruct (decide (name = k)) as [->|Hne].
  - rewrite !sum_values_cons. lia.
  - rewrite !sum_values_cons, IH. lia.
Qed.

Lemma count_boxes_spec names boxes : forall counts total ls,
  labels_of names boxes = Some ls ->
  total = PyInt 0 \/ (exists f, total = PyFloat f) ->
  exists counts' total',
    count_boxes names boxes counts total = Some (counts', total')
    /\ sum_values counts' = sum_values counts + Z.of_nat (List.length boxes)
    /\ (boxes <> [] -> exists f, total' = PyFloat f).
Proof.
  induction boxes as [|b boxes IH]; intros counts total ls Hl Ht.
  - exists counts, total. simpl. repeat split; [lia | done].
  - simpl in Hl |- *.
    destruct (Dict.get names (cls b)) as [name|]; [|done].
    destruct (labels_of names boxes) as [ls'|] eqn:Hl'; [|done].
    assert (Hadd : exists f, add total (PyFloat (conf b)) = Some (PyFloat f)).
    { destruct Ht as [->|[f ->]]; simpl; by eexists. }
    destruct Hadd as [f Hadd]. rewrite Hadd.
    destruct (IH (Dict.set counts name (Dict.get_default counts name 0 + 1))
                (PyFloat f) ls' eq_refl) as (c' & t' & Hc & Hs & Hf).
    { right. by exists f. }
    exists c', t'. rewrite Hc. split; [done|]. split.
    + rewrite Hs, sum_values_incr. lia.
    + intros _. destruct boxes as [|b' boxes']; [|by apply Hf].
      simpl in Hc. injection Hc as _ <-. by exists f.
Qed.

(** C8. For every sequence of boxes whose classes have names (and of a
    length below 2^53), [extract_stats] returns statistics whose
    [total_objects] is the number of boxes and equals the sum of the
    values of [class_distribution]. *)
Theorem C8_total_objects w boxes ls :
  labels_of (names (w_model w)) boxes = Some ls ->
  Z.of_nat (List.length boxes) < 2 ^ 53 ->
  exists stats,
    extract_stats w boxes = Some stats
    /\ total_objects stats = Z.of_nat (List.length boxes)
    /\ sum_values (class_distribution stats) = total_objects stats.
Proof.
  intros Hl Hlen. unfold extract_stats.
  destruct (count_boxes_spec _ _ [] (PyInt 0) ls Hl (or_introl eq_refl))
    as (counts & total & Hc & Hs & Hf).
  rewrite Hc. destruct boxes as [|b boxes].
  - eexists. split; [reflexivity|]. simpl. split; [|done].
    simpl in Hc. by injection Hc as <- _.
  - destruct (Hf ltac:(done)) as [f ->].
    destruct (PyNumFacts.float_of_int_small
                (Z.of_nat (List.length (b :: boxes))) ltac:(lia))
      as (g & Hg & _).
    unfold div_by_len. rewrite Hg.
    eexists. split; [reflexivity|]. simpl. split; [|done].
    rewrite Hs. change (sum_values []) with 0. simpl List.length. lia.
Qed.

Lemma C8_total_objects_witness :
  exists stats,
    extract_stats (new_worker (Recommend.demo_model []) (Camera 0) conf_0_3)
                  (Recommend.demo_boxes [1; 1; 3]) = Some stats
    /\ total_objects stats = 3
    /\ sum_values (class_distribution stats) = total_objects stats.
Proof.
  exact (C8_total_objects
           (new_worker (Recommend.demo_model []) (Camera 0) conf_0_3)
           (Recommend.demo_boxes [1; 1; 3])
           ["rice-bug"; "rice-bug"; "stem-borer"]%string
           eq_refl ltac:(vm_compute; reflexivity)).
Defined.
(** *** The worker thread *)

Lemma publish_set_cap c w f : publish (set_cap c w) f = publish w f.
Proof. reflexivity. Qed.

Lemma publish_all_set_cap c w fs :
  publish_all (set_cap c w) fs = publish_all w fs.
Proof.
  induction fs as [|f fs IH]; simpl; [done|].
  by rewrite publish_set_cap, IH.
Qed.

Lemma publish_all_set_phase p w fs :
  publish_all (set_phase p w) fs = publish_all w fs.
Proof. induction fs as [|f fs IH]; simpl; [done|]. by rewrite <- IH. Qed.

Lemma turns_not_looping n w :
  phase w <> Looping ->
  turns n w = {| after := w; emitted := []; done := [] |}.
Proof. intros Hp. destruct n; simpl; [done|]. by destruct (phase w). Qed.

Lemma turns_looping n w :
  phase w = Looping -> turns (S n) w = then_step (loop_turn w) (turns n).
Proof. intros Hp. simpl. by rewrite Hp. Qed.

Lemma emitted_then_step s t :
  emitted (then_step s t) = emitted s ++ emitted (t (after s)).
Proof. reflexivity. Qed.

Lemma after_then_step s t : after (then_step s t) = after (t (after s)).
Proof. reflexivity. Qed.

(** A turn that reads a frame and publishes it. *)
Lemma loop_turn_read_ok w c f rest x :
  cap w = Some c -> running w = true -> is_opened c = true ->
  feed c = ReadOk f :: rest -> publish w f = Some x ->
  after (loop_turn w) = set_cap {| is_opened := true; feed := rest |} w
  /\ emitted (loop_turn w) = [x].
Proof.
  intros Hc Hr Ho Hf Hp. unfold loop_turn. rewrite Hc, Hr, Ho, Hf. simpl.
  unfold publish in Hp.
  change (frame_call (set_cap {| is_opened := true; feed := rest |} w) f)
    with (frame_call w f).
  destruct (predict (w_model w) (frame_call w f)) as [|ann boxes|]; [done| |done].
  change (extract_stats (set_cap {| is_opened := true; feed := rest |} w) boxes)
    with (extract_stats w boxes).
  destruct (extract_stats w boxes) as [st|]; [|done].
  injection Hp as <-. done.
Qed.

(** A turn whose read fails leaves the loop and releases the capture. *)
Lemma loop_turn_read_fail w c rest :
  cap w = Some c -> running w = true -> is_opened c = true ->
  feed c = ReadFail :: rest ->
  loop_turn w
  = leave_loop {| is_opened := true; feed := rest |} (set_running false w).
Proof.
  intros Hc Hr Ho Hf. unfold loop_turn. by rewrite Hc, Hr, Ho, Hf.
Qed.

Lemma turns_until_failed_read rest frames : forall n w c out,
  phase w = Looping -> cap w = Some c -> running w = true ->
  is_opened c = true ->
  feed c = map ReadOk frames ++ ReadFail :: rest ->
  publish_all w frames = Some out ->
  (List.length frames < n)%nat ->
  emitted (turns n w) = out
  /\ phase (after (turns n w)) = Finished
  /\ running (after (turns n w)) = false
  /\ cap (after (turns n w)) = Some {| is_opened := false; feed := rest |}.
Proof.
  induction frames as [|f frames IH]; intros n w c out Hp Hc Hr Ho Hf Hpub Hn.
  - destruct n as [|n]; [simpl in Hn; lia|].
    simpl in Hpub. injection Hpub as <-.
    rewrite (turns_looping _ _ Hp), emitted_then_step, after_then_step.
    rewrite (loop_turn_read_fail _ _ _ Hc Hr Ho Hf).
    rewrite turns_not_looping by done. done.
  - destruct n as [|n]; [simpl in Hn; lia|].
    simpl in Hpub.
    destruct (publish w f) as [x|] eqn:Hx; [|done].
    destruct (publish_all w frames) as [xs|] eqn:Hxs; [|done].
    injection Hpub as <-.
    destruct (loop_turn_read_ok w c f (map ReadOk frames ++ ReadFail :: rest)
                x Hc Hr Ho Hf Hx) as [Ha He].
    rewrite (turns_looping _ _ Hp), emitted_then_step, after_then_step.
    rewrite Ha, He.
    destruct (IH n (set_cap {| is_opened := true;
                               feed := map ReadOk frames ++ ReadFail :: rest |} w)
                {| is_opened := true;
                   feed := map ReadOk frames ++ ReadFail :: rest |} xs)
      as (H1 & H2 & H3 & H4); try done.
    + by rewrite publish_all_set_cap.
    + simpl in Hn. lia.
    + rewrite H1. done.
Qed.

(** The loop always ends: a turn leaves the loop or consumes a read, so
    [run] has turns enough for any device. *)
Lemma loop_turn_progress w c :
  cap w = Some c -> phase w = Looping ->
  active (after (loop_turn w)) = false
  \/ (phase (after (loop_turn w)) = Looping
      /\ exists c', cap (after (loop_turn w)) = Some c'
                    /\ (List.length (feed c') < List.length (feed c))%nat).
Proof.
  intros Hc Hp. unfold loop_turn. rewrite Hc.
  destruct (running w && is_opened c); [|by left].
  destruct (feed c) as [|[f|] rest] eqn:Hfeed; [by left| |by left].
  set (w1 := set_cap {| is_opened := is_opened c; feed := rest |} w).
  destruct (predict (w_model w1) (frame_call w1 f)) as [msg|ann boxes|msg bs];
    [by left| |by left].
  destruct (extract_stats w1 boxes) as [stats|]; [|by left].
  right. simpl. split; [done|]. eexists. split; [reflexivity|]. simpl. lia.
Qed.

Lemma turns_leave_loop n : forall w c,
  cap w = Some c -> (List.length (feed c) < n)%nat ->
  active (after (turns n w)) = false \/ phase w <> Looping.
Proof.
  induction n as [|n IH]; intros w c Hc Hn; [lia|].
  destruct (phase w) eqn:Hp; [by right| |by right|by right].
  left. rewrite (turns_looping _ _ Hp), after_then_step.
  destruct (loop_turn_progress w c Hc Hp) as [Hdone|(Hp' & c' & Hc' & Hlen)].
  - rewrite turns_not_looping; [done|].
    intros Hl. unfold active in Hdone. by rewrite Hl in Hdone.
  - destruct (IH _ c' Hc' ltac:(lia)) as [?|?]; done.
Qed.

Lemma run_leaves_loop dev m src th :
  active (after (run dev (new_worker m src th))) = false.
Proof.
  unfold run. rewrite after_then_step.
  destruct (turns_leave_loop (S (List.length (feed dev)))
              (after (worker_step dev (new_worker m src th))) dev
              eq_refl ltac:(lia)) as [?|Hp]; [done|].
  by destruct Hp.
Qed.

(** C4, amended. A read that fails, which is how a corrupt frame shows
    to the loop, ends the stream: [run] publishes the frames read before
    the first failed read, then leaves the loop and releases the
    capture; the frames after the failed read are never read. *)
Theorem C4_failed_read_ends_stream m src th dev frames rest out :
  is_opened dev = true ->
  feed dev = map ReadOk frames ++ ReadFail :: rest ->
  publish_all (new_worker m src th) frames = Some out ->
  let r := run dev (new_worker m src th) in
  emitted r = out
  /\ phase (after r) = Finished
  /\ running (after r) = false
  /\ cap (after r) = Some {| is_opened := false; feed := rest |}.
Proof.
  intros Ho Hf Hpub r. subst r. unfold run.
  rewrite emitted_then_step, !after_then_step.
  change (after (worker_step dev (new_worker m src th)))
    with (set_phase Looping (set_cap dev (new_worker m src th))).
  change (emitted (worker_step dev (new_worker m src th)))
    with (@nil (Image * Stats)).
  rewrite app_nil_l.
  apply (turns_until_failed_read rest frames _ _ dev); try done.
  - by rewrite publish_all_set_phase, publish_all_set_cap.
  - rewrite Hf, length_app, length_map. simpl. lia.
Qed.

Lemma C4_failed_read_ends_stream_witness :
  List.length (emitted (run demo_device demo_worker)) = 1%nat
  /\ phase (after (run demo_device demo_worker)) = Finished.
Proof.
  pose proof (C4_failed_read_ends_stream
                (Recommend.demo_model [1; 1; 3]) (Camera 0) conf_0_3
                demo_device [Recommend.blank] [ReadOk Recommend.blank] _
                eq_refl eq_refl eq_refl) as (H1 & H2 & _).
  split; [|exact H2]. unfold demo_worker. rewrite H1. reflexivity.
Defined.

(** C4 as stated fails: on a device whose second read fails and whose
    third read would give a frame, the loop publishes one frame and
    ends; the capture is released with the third frame unread. *)
Lemma C4_counterexample_stream_ends :
  List.length (emitted (run demo_device demo_worker)) = 1%nat
  /\ phase (after (run demo_device demo_worker)) = Finished
  /\ cap (after (run demo_device demo_worker))
     = Some {| is_opened := false; feed := [ReadOk Recommend.blank] |}.
Proof. repeat apply conj; vm_compute; reflexivity. Qed.
(** *** The steps of a thread *)

Lemma extract_stats_fps w boxes stats :
  fps_attr w = None -> extract_stats w boxes = Some stats ->
  fps stats = PyInt 0.
Proof.
  intros Hf. unfold extract_stats. rewrite Hf.
  destruct (count_boxes _ _ _ _) as [[counts total]|]; [|done].
  destruct (match boxes with [] => _ | _ => _ end); [|done].
  by intros [= <-].
Qed.

Ltac thread_trivial :=
  solve [ repeat split; simpl; try done;
          try (intros ? ?%elem_of_nil; done);
          try (intros _ ? ?%elem_of_nil; done);
          try (intros ? ->%list_elem_of_singleton; done) ].

Lemma loop_turn_ok : thread_step_ok loop_turn.
Proof.
  intros w. unfold loop_turn.
  destruct (cap w) as [c|] eqn:Hc; [|thread_trivial].
  destruct (running w && is_opened c) eqn:Hro; [|thread_trivial].
  apply andb_true_iff in Hro as [Hr Ho].
  destruct (feed c) as [|[f|] rest] eqn:Hfeed; [thread_trivial| |thread_trivial].
  set (w1 := set_cap {| is_opened := is_opened c; feed := rest |} w).
  destruct (predict (w_model w1) (frame_call w1 f)) as [msg|ann boxes|msg bs];
    [thread_trivial| |thread_trivial].
  destruct (extract_stats w1 boxes) as [stats|] eqn:Hst; [|thread_trivial].
  repeat split; simpl; try done.
  - intros ? ->%list_elem_of_singleton; done.
  - intros Hf x ->%list_elem_of_singleton. simpl.
    by apply (extract_stats_fps w1 boxes).
  - intros Hw _ _. apply Hw. unfold holds_source. by rewrite Hc.
Qed.
Lemma worker_step_ok dev : thread_step_ok (worker_step dev).
Proof.
  intros w. unfold worker_step. destruct (phase w) eqn:Hp.
  - repeat split; simpl; try done.
    + intros ? ->%list_elem_of_singleton; done.
    + intros _ ? ?%elem_of_nil; done.
    + intros _. unfold active. by rewrite Hp.
  - apply loop_turn_ok.
  - repeat split; simpl; try done;
      try (intros ? ?%elem_of_nil; done);
      try (intros _ ? ?%elem_of_nil; done);
      try (intros Hw _ Hh; by apply Hw).
  - repeat split; simpl; try done;
      try (intros ? ?%elem_of_nil; done);
      try (intros _ ? ?%elem_of_nil; done);
      try (intros Hw _ Hh; by apply Hw).
Qed.

Lemma set_running_ok b t :
  thread_step_ok t -> thread_step_ok (fun w => t (set_running b w)).
Proof. intros Ht w. apply (Ht (set_running b w)). Qed.

Lemma then_step_ok s t :
  thread_step_ok s -> thread_step_ok t ->
  (forall w, phase (after (s w)) = Failed -> phase (after (t (after (s w)))) = Failed) ->
  thread_step_ok (fun w => then_step (s w) t).
Proof.
  intros Hs Ht Hfail w.
  destruct (Hs w) as (Hs1 & Hs2 & Hs3 & Hs4 & Hs5).
  destruct (Ht (after (s w))) as (Ht1 & Ht2 & Ht3 & Ht4 & Ht5).
  unfold then_step; simpl. repeat split.
  - intros e [?|?]%elem_of_app; auto.
  - congruence.
  - intros Hf x [?|?]%elem_of_app; [auto|]. apply Ht3; [congruence|done].
  - auto.
  - intros Hw Hnf Hh. apply Ht5; [|done|done].
    apply Hs5; [done|]. intros Hsf. apply Hnf, Hfail, Hsf.
Qed.

Lemma worker_step_failed dev w :
  phase w = Failed -> phase (after (worker_step dev w)) = Failed.
Proof. intros Hp. unfold worker_step. by rewrite Hp. Qed.

Lemma clear_and_wait_ok dev : thread_step_ok (clear_and_wait dev).
Proof.
  apply (then_step_ok (fun w => worker_step dev (set_running false w))
           (worker_step dev)).
  - apply (set_running_ok false), worker_step_ok.
  - apply worker_step_ok.
  - intros w. apply worker_step_failed.
Qed.

Lemma clear_and_wait_failed dev w :
  phase w = Failed -> phase (after (clear_and_wait dev w)) = Failed.
Proof.
  intros Hp. unfold clear_and_wait. rewrite after_then_step.
  apply worker_step_failed, worker_step_failed. exact Hp.
Qed.

Lemma stop_ok dev fl : thread_step_ok (stop dev fl).
Proof.
  intros w. unfold stop. destruct fl; [|apply clear_and_wait_ok].
  destruct (phase w); try apply clear_and_wait_ok.
  apply (then_step_ok loop_turn (clear_and_wait dev) loop_turn_ok
           (clear_and_wait_ok dev)).
  intros w'. apply clear_and_wait_failed.
Qed.

Lemma clear_and_wait_inactive dev w :
  active (after (clear_and_wait dev w)) = false.
Proof. destruct w as [? ? ? ? [c|] ? []]; reflexivity. Qed.

(** After [stop()] the thread has left [run]. *)
Lemma stop_inactive dev fl w : active (after (stop dev fl w)) = false.
Proof.
  unfold stop. destruct fl; [|apply clear_and_wait_inactive].
  destruct (phase w); apply clear_and_wait_inactive.
Qed.
Lemma idle_ok :
  thread_step_ok (fun w => {| after := w; emitted := []; done := [] |}).
Proof.
  intros w.
  repeat split; simpl; try done;
    try (intros ? ?%elem_of_nil; done);
    try (intros _ ? ?%elem_of_nil; done);
    try (intros Hw _ Hh; by apply Hw).
Qed.

Lemma turns_ok n : thread_step_ok (turns n).
Proof.
  induction n as [|n IH]; [apply idle_ok|].
  intros w. simpl. destruct (phase w) eqn:Hp; try apply (idle_ok w).
  apply (then_step_ok loop_turn (turns n) loop_turn_ok IH).
  intros w' Hf. by rewrite turns_not_looping by congruence.
Qed.

Lemma run_ok dev : thread_step_ok (run dev).
Proof.
  apply (then_step_ok (worker_step dev) _ (worker_step_ok dev) (turns_ok _)).
  intros w' Hf. by rewrite turns_not_looping by congruence.
Qed.

(** *** The window *)

Lemma invariant_init : invariant init.
Proof.
  repeat split; simpl; try done; try (intros ? ?%elem_of_nil; done).
Qed.

Lemma invariant_quiet a a' : quiet a a' -> invariant a -> invariant a'.
Proof.
  intros (Ht & Hw & Hb & Hl & Hq & He & Hlife) (I1 & I2 & I3 & I4).
  split; [congruence|]. split; [intros e [?|?]%He; auto|]. split; [auto|].
  intros i w Hi. rewrite Ht in Hi.
  destruct (I4 i w Hi) as (Hfps & Hact & Hhold). rewrite Hw, Hb.
  split; [done|]. split; [done|]. intros Hal. apply Hhold, Hlife, Hal.
Qed.

Ltac quiet_tac :=
  unfold quiet; simpl; repeat split; simpl; try done; auto;
  try (intros ? [?| ->%list_elem_of_singleton]%elem_of_app; auto; fail).

Lemma quiet_load_model f b l a : quiet a (load_model f b l a).
Proof. unfold load_model. destruct f; [quiet_tac|]. destruct l; quiet_tac. Qed.

Lemma quiet_select_input i a : quiet a (with_ui (set_input_combo i) a).
Proof. quiet_tac. Qed.

Lemma quiet_select_input_file f a : quiet a (select_input_file f a).
Proof.
  unfold select_input_file.
  destruct (input_combo (ui a)) as [|[|[|n]]]; quiet_tac.
Qed.

Lemma quiet_update_stats arg a : quiet a (update_stats arg a).
Proof.
  unfold update_stats. destruct arg as [stats|]; [|quiet_tac].
  destruct (stats_lines stats); quiet_tac.
Qed.

Lemma quiet_trans a b c : quiet a b -> quiet b c -> quiet a c.
Proof.
  intros (H1 & H2 & H3 & H4 & H5 & H6 & H7) (G1 & G2 & G3 & G4 & G5 & G6 & G7).
  unfold quiet. repeat split; try congruence; auto.
  intros e [?|?]%G6; auto.
Qed.

Lemma quiet_process_single_image e r a : quiet a (process_single_image e r a).
Proof.
  unfold process_single_image.
  destruct (file_path a); [|quiet_tac].
  destruct e; [|quiet_tac].
  destruct (model a) as [m|]; [|quiet_tac].
  destruct (predict m (image_call r)) as [msg|ann boxes|msg bs];
    [quiet_tac| |quiet_tac].
  eapply quiet_trans; [|apply quiet_update_stats]. quiet_tac.
Qed.

Lemma quiet_save_result e f a :
  last_image a = None -> quiet a (save_result e f a).
Proof. intros Hl. unfold save_result. rewrite Hl. quiet_tac. Qed.

Lemma quiet_change_theme i a : quiet a (change_theme i a).
Proof. quiet_tac. Qed.

Lemma quiet_deliver frame stats q a :
  queue a = (frame, stats) :: q ->
  quiet a (display_image_and_stats frame stats (set_queue q a)).
Proof.
  intros Hq. unfold display_image_and_stats.
  eapply quiet_trans; [|apply quiet_update_stats].
  unfold quiet; simpl; repeat split; auto.
  intros x Hx. rewrite Hq. by apply list_elem_of_further.
Qed.

(** The fields of the window after a step of one of its threads. *)
Lemma advance_fields i t a w :
  threads a !! i = Some w ->
  let a' := advance i t a in
  last_image a' = last_image a
  /\ effects a' = effects a ++ done (t w)
  /\ queue a' = queue a ++ emitted (t w)
  /\ threads a' = <[i := after (t w)]> (threads a)
  /\ worker a' = worker a
  /\ ui a' = ui a
  /\ (life a' = Alive -> life a = Alive /\ phase (after (t w)) <> Failed).
Proof.
  intros Hw. unfold advance. rewrite Hw.
  destruct (phase (after (t w))) eqn:Hp; simpl; repeat split; done.
Qed.

Lemma invariant_advance i t a :
  thread_step_ok t -> invariant a -> invariant (advance i t a).
Proof.
  intros Ht Ha.
  destruct (threads a !! i) as [w|] eqn:Hw;
    [|unfold advance; by rewrite Hw].
  destruct (advance_fields i t a w Hw)
    as (F1 & F2 & F3 & F4 & F5 & F6 & F7).
  destruct Ha as (I1 & I2 & I3 & I4).
  destruct (Ht w) as (T1 & T2 & T3 & T4 & T5).
  destruct (I4 i w Hw) as (Hfps & Hact & Hhold).
  split; [congruence|].
  split; [rewrite F2; intros e [?|?]%elem_of_app; auto|].
  split; [rewrite F3; intros x [?|?]%elem_of_app; auto|].
  intros j w' Hj. rewrite F4 in Hj. rewrite F5, F6.
  apply list_lookup_insert_Some in Hj as [(<- & <- & _)|[Hne Hj]].
  - split; [congruence|]. split; [auto|].
    intros Hal. destruct (F7 Hal) as [Hal' Hnf]. apply T5; auto.
  - destruct (I4 j w' Hj) as (Hfps' & Hact' & Hhold').
    split; [done|]. split; [done|].
    intros Hal. destruct (F7 Hal) as [Hal' _]. auto.
Qed.
Lemma invariant_start_detection e r a :
  startBtn (ui a) = true -> invariant a -> invariant (start_detection e r a).
Proof.
  intros Hb Ha. unfold start_detection.
  destruct (model a) as [m|]; [|eapply invariant_quiet; [quiet_tac|done]].
  destruct (Nat.eq_dec (input_combo (ui a)) 2) as [->|Hne2].
  { eapply invariant_quiet; [apply quiet_process_single_image|done]. }
  destruct Ha as (I1 & I2 & I3 & I4).
  assert (Hidle : forall i w, threads a !! i = Some w -> active w = false).
  { intros i w Hw. destruct (active w) eqn:Hact; [|done].
    destruct (I4 i w Hw) as (_ & Ha & _). destruct (Ha Hact). congruence. }
  set (src := match input_combo (ui a) with
              | O => Some (Camera 0)
              | _ => match file_path a with
                     | Some f => Some (File f)
                     | None => None
                     end
              end).
  assert (Hgoal :
    invariant
      match src with
      | None =>
          abort (with_ui (set_status_label "检测进行中")
                   (with_ui (set_buttons false true) a))
      | Some s =>
          set_threads (threads a ++ [new_worker m s conf_0_3])
            (set_worker (Some (List.length (threads a)))
               (with_ui (set_status_label "检测进行中")
                  (with_ui (set_buttons false true) a)))
      end).
  { destruct src as [s|].
    - split; [done|]. split; [done|]. split; [done|]. simpl.
      intros i w [Hold|[Hlen Hnew]]%lookup_app_Some.
      + destruct (I4 i w Hold) as (Hfps & _ & Hhold).
        split; [done|]. split; [|done].
        intros Hact. rewrite (Hidle _ _ Hold) in Hact. done.
      + destruct (i - List.length (threads a))%nat eqn:Hi; [|done].
        injection Hnew as <-. repeat split; try done. f_equal. lia.
    - split; [done|]. split; [done|]. split; [done|]. simpl.
      intros i w Hi. destruct (I4 i w Hi) as (Hfps & _ & _).
      split; [done|]. split; [|done].
      intros Hact. rewrite (Hidle _ _ Hi) in Hact. done. }
  destruct (input_combo (ui a)) as [|[|[|n]]]; try done.
Qed.

Lemma invariant_stop_detection dev fl a :
  invariant a -> invariant (stop_detection dev fl a).
Proof.
  intros Ha. unfold stop_detection.
  set (a1 := match worker a with
             | Some i => set_worker None (advance i (stop dev fl) a)
             | None => a
             end).
  assert (Hinactive : forall j w,
             threads a !! j = Some w -> active w = true ->
             worker a = Some j).
  { intros j w Hj Hact. destruct Ha as (_ & _ & _ & I4).
    destruct (I4 j w Hj) as (_ & Hw & _). by destruct (Hw Hact). }
  assert (H1 : last_image a1 = None
               /\ (forall e, e ∈ effects a1 -> wrote_image e = false)
               /\ (forall x, x ∈ queue a1 -> fps (snd x) = PyInt 0)
               /\ (forall j w, threads a1 !! j = Some w ->
                     fps_attr w = None /\ active w = false
                     /\ (life a1 = Alive -> holds_source w = true ->
                         active w = true))).
  { subst a1. destruct (worker a) as [i|] eqn:Hwk.
    - destruct (invariant_advance i (stop dev fl) a (stop_ok dev fl) Ha)
        as (I1 & I2 & I3 & I4).
      split; [done|]. split; [done|]. split; [done|]. simpl.
      intros j w Hj. destruct (I4 j w Hj) as (Hfps & _ & Hhold).
      split; [done|]. split; [|done].
      destruct (active w) eqn:Hact; [|done]. exfalso.
      destruct (threads a !! i) as [wi|] eqn:Hwi.
      + destruct (advance_fields i (stop dev fl) a wi Hwi)
          as (_ & _ & _ & F4 & _).
        rewrite F4 in Hj.
        apply list_lookup_insert_Some in Hj as [(<- & <- & _)|[Hne Hj]].
        * by rewrite stop_inactive in Hact.
        * pose proof (Hinactive j w Hj Hact). congruence.
      + unfold advance in Hj. rewrite Hwi in Hj.
        pose proof (Hinactive j w Hj Hact). congruence.
    - destruct Ha as (I1 & I2 & I3 & I4).
      split; [done|]. split; [done|]. split; [done|].
      intros j w Hj. destruct (I4 j w Hj) as (Hfps & _ & Hhold).
      split; [done|]. split; [|done].
      destruct (active w) eqn:Hact; [|done].
      pose proof (Hinactive j w Hj Hact). congruence. }
  destruct H1 as (I1 & I2 & I3 & I4).
  split; [done|]. split; [done|]. split; [done|]. simpl.
  intros j w Hj. destruct (I4 j w Hj) as (Hfps & Hact & Hhold).
  split; [done|]. split; [congruence|exact Hhold].
Qed.

Lemma closeEvent_cases dev fl a :
  let b := match worker a with
           | Some i => advance i (stop dev fl) a
           | None => a
           end in
  (closeEvent dev fl a = b /\ life b = Aborted)
  \/ (closeEvent dev fl a = set_life Closed b /\ life b <> Aborted).
Proof.
  simpl. unfold closeEvent.
  destruct (life match worker a with
                 | Some i => advance i (stop dev fl) a
                 | None => a
                 end) eqn:Hl; [right|right|left]; done.
Qed.

Lemma closeEvent_fields dev fl a :
  let b := match worker a with
           | Some i => advance i (stop dev fl) a
           | None => a
           end in
  ui (closeEvent dev fl a) = ui b
  /\ file_path (closeEvent dev fl a) = file_path b
  /\ effects (closeEvent dev fl a) = effects b
  /\ threads (closeEvent dev fl a) = threads b
  /\ life (closeEvent dev fl a) <> Alive.
Proof.
  simpl. destruct (closeEvent_cases dev fl a) as [[-> Hl]|[-> Hl]]; simpl;
    repeat apply conj; try done. by rewrite Hl.
Qed.

Lemma invariant_closeEvent dev fl a :
  invariant a -> invariant (closeEvent dev fl a).
Proof.
  intros Ha.
  assert (H1 : invariant match worker a with
                         | Some i => advance i (stop dev fl) a
                         | None => a
                         end).
  { destruct (worker a); [|done]. apply invariant_advance; [apply stop_ok|done]. }
  destruct (closeEvent_cases dev fl a) as [[-> Hl]|[-> Hl]]; [exact H1|].
  destruct H1 as (I1 & I2 & I3 & I4).
  split; [done|]. split; [done|]. split; [done|]. simpl.
  intros j w Hj. destruct (I4 j w Hj) as (Hfps & Hact & _). done.
Qed.

Lemma invariant_step ev a : invariant a -> invariant (step ev a).
Proof.
  intros Ha. unfold step. destruct (life a); [|done|done].
  destruct ev as [f b l|i|f|e r|dev fl|e f|i|i dev| |dev fl].
  - eapply invariant_quiet; [apply quiet_load_model|done].
  - destruct (i <? 3)%nat; [|done].
    eapply invariant_quiet; [apply quiet_select_input|done].
  - eapply invariant_quiet; [apply quiet_select_input_file|done].
  - destruct (startBtn (ui a)) eqn:Hb; [|done].
    by apply invariant_start_detection.
  - destruct (stopBtn (ui a)); [|done]. by apply invariant_stop_detection.
  - eapply invariant_quiet; [apply quiet_save_result, Ha|done].
  - destruct (i <? 2)%nat; [|done].
    eapply invariant_quiet; [apply quiet_change_theme|done].
  - apply invariant_advance; [apply worker_step_ok|done].
  - destruct (queue a) as [|[frame stats] q] eqn:Hq; [done|].
    eapply invariant_quiet; [by apply quiet_deliver|done].
  - by apply invariant_closeEvent.
Qed.

Lemma reachable_invariant a : reachable a -> invariant a.
Proof.
  induction 1 as [|ev a Hr IH]; [apply invariant_init|].
  by apply invariant_step.
Qed.

Lemma reachable_steps evs : forall a, reachable a -> reachable (steps evs a).
Proof.
  induction evs as [|ev evs IH]; intros a Ha; simpl; [done|].
  apply IH. by constructor.
Qed.

(** At most one element of a list has a property that only one position
    can have. *)
Lemma filter_at_most_one {A} (P : A -> Prop) `{forall x, Decision (P x)}
  (l : list A) : forall i,
  (forall j x, l !! j = Some x -> P x -> j = i) ->
  (List.length (filter P l) <= 1)%nat.
Proof.
  induction l as [|y l IH]; intros i Hi; [simpl; lia|].
  rewrite filter_cons. destruct (decide (P y)) as [Hy|Hy].
  - assert (Hnone : filter P l = []).
    { destruct (filter P l) as [|x r] eqn:Hf; [done|]. exfalso.
      assert (Hx : x ∈ filter P l) by (rewrite Hf; apply list_elem_of_here).
      apply list_elem_of_filter in Hx as [Hp Hx].
      apply list_elem_of_lookup in Hx as [j Hj].
      pose proof (Hi 0%nat y eq_refl Hy) as H0.
      pose proof (Hi (S j) x Hj Hp) as HS. lia. }
    rewrite Hnone. simpl. lia.
  - apply (IH (pred i)). intros j x Hj Hp.
    pose proof (Hi (S j) x Hj Hp). lia.
Qed.
(** C3, amended. While a worker thread has not left [run], the start
    button is disabled: a click on it calls nothing and leaves the
    window as it is, so no second source is opened and no error is
    reported; that thread is the one [worker] refers to, no other thread
    is running, and at most one capture is open. *)
Theorem C3_start_while_running a i w :
  reachable a -> threads a !! i = Some w -> active w = true ->
  worker a = Some i
  /\ startBtn (ui a) = false
  /\ (forall e r, step (ClickStart e r) a = a)
  /\ (forall j w', threads a !! j = Some w' -> active w' = true -> j = i)
  /\ (life a = Alive -> (open_sources a <= 1)%nat).
Proof.
  intros Hr Hw Hact.
  destruct (reachable_invariant a Hr) as (_ & _ & _ & I4).
  destruct (I4 i w Hw) as (_ & Hwk & _). destruct (Hwk Hact) as [Hi Hb].
  assert (Huniq : forall j w',
             threads a !! j = Some w' -> active w' = true -> j = i).
  { intros j w' Hj Hact'. destruct (I4 j w' Hj) as (_ & Hwk' & _).
    destruct (Hwk' Hact'). congruence. }
  repeat split; try done.
  - intros e r. unfold step. rewrite Hb. by destruct (life a).
  - intros Hal. unfold open_sources.
    apply (filter_at_most_one _ _ i). intros j x Hj Hh.
    apply (Huniq j x Hj). by apply (I4 j x Hj).
Qed.

Lemma C3_start_while_running_witness :
  step (ClickStart false None) streaming = streaming
  /\ (open_sources streaming <= 1)%nat.
Proof.
  assert (Hw : threads streaming !! 0%nat
               = Some (set_phase Looping (set_cap demo_device demo_worker)))
    by (vm_compute; reflexivity).
  assert (Hal : life streaming = Alive) by (vm_compute; reflexivity).
  pose proof (C3_start_while_running streaming 0%nat _
                (reachable_steps _ init reach_init) Hw eq_refl)
    as (_ & _ & H3 & _ & H5).
  exact (conj (H3 false None) (H5 Hal)).
Defined.

(** C3 as stated fails: [start_detection] called while a stream is
    running reports no error, creates a second worker, and that worker
    opens a second capture while the first is still open. *)
Lemma C3_counterexample_second_start :
  (exists w, threads streaming !! 0%nat = Some w /\ active w = true)
  /\ effects (start_detection false None streaming) = effects streaming
  /\ life (start_detection false None streaming) = Alive
  /\ List.length (threads (start_detection false None streaming)) = 2%nat
  /\ open_sources
       (step (Tick 1 demo_device) (start_detection false None streaming))
     = 2%nat.
Proof.
  split.
  - exists (set_phase Looping (set_cap demo_device demo_worker)).
    split; vm_compute; reflexivity.
  - repeat apply conj; vm_compute; reflexivity.
Qed.

(** C6, amended. In streaming mode every published statistics
    dictionary carries [fps] 0: [extract_stats] reads the attribute [fps]
    of the worker with 0 as default, and nothing measures time or
    assigns that attribute.  This holds of what [run] emits on any
    device and of every signal waiting in a reachable window.  In
    single-shot mode no statistics dictionary is built:
    [process_single_image] leaves the queue and the statistics text as
    they were. *)
Theorem C6_published_fps_is_zero :
  (forall m src th dev x,
      x ∈ emitted (run dev (new_worker m src th)) -> fps (snd x) = PyInt 0)
  /\ (forall a x, reachable a -> x ∈ queue a -> fps (snd x) = PyInt 0)
  /\ (forall e r a,
        queue (process_single_image e r a) = queue a
        /\ stats_text (ui (process_single_image e r a)) = stats_text (ui a)).
Proof.
  split; [|split].
  - intros m src th dev x Hx.
    destruct (run_ok dev (new_worker m src th)) as (_ & _ & H3 & _).
    by apply H3.
  - intros a x Hr Hx.
    destruct (reachable_invariant a Hr) as (_ & _ & I3 & _). by apply I3.
  - intros e r a. unfold process_single_image.
    destruct (file_path a); [|done].
    destruct e; [|done].
    destruct (model a) as [m|]; [|done].
    by destruct (predict m (image_call r)).
Qed.

Lemma C6_published_fps_is_zero_witness :
  Forall (fun x => fps (snd x) = PyInt 0)
    (emitted (run two_frames demo_worker)).
Proof.
  apply Forall_forall.
  exact (proj1 C6_published_fps_is_zero (Recommend.demo_model [1; 1; 3])
           (Camera 0) conf_0_3 two_frames).
Defined.

(** C6 as stated fails: on a device that gives two frames the loop
    publishes two statistics, both with [fps] 0, whatever time the first
    cycle took; a cycle of 50 ms would give the rate 20.0, which is not
    0. *)
Lemma C6_counterexample_fps_not_measured :
  map (fun x => fps (snd x)) (emitted (run two_frames demo_worker))
  = [PyInt 0; PyInt 0]
  /\ py_float "0.05" = Some fifty_ms
  /\ rate_of_elapsed fifty_ms
     = PyFloat (S754_finite false 5629499534213120 (-48))
  /\ is_zero (rate_of_elapsed fifty_ms) = false.
Proof. repeat apply conj; vm_compute; reflexivity. Qed.

(** C10. In every reachable state of the window the attribute
    [last_image] is absent, so [save_result] shows the warning that
    there is no result to save and does nothing else; no image file was
    ever written. *)
Theorem C10_save_never_writes a :
  reachable a ->
  last_image a = None
  /\ (forall e, e ∈ effects a -> wrote_image e = false)
  /\ (forall dir_exists file_name,
        save_result dir_exists file_name a
        = show_message "警告" "没有可保存的结果！" true a).
Proof.
  intros Hr. destruct (reachable_invariant a Hr) as (I1 & I2 & _).
  repeat split; try done.
  intros d f. unfold save_result. by rewrite I1.
Qed.

Lemma C10_save_never_writes_witness :
  last_image streaming = None
  /\ save_result true "result.jpg" streaming
     = show_message "警告" "没有可保存的结果！" true streaming.
Proof.
  pose proof (C10_save_never_writes streaming
                (reachable_steps _ init reach_init)) as (H1 & _ & H3).
  exact (conj H1 (H3 true "result.jpg"%string)).
Defined.
End DetectorFacts.

(** ** 推荐系统.py: further properties *)

Module RecommendExtra.
Import PyNum Yolo Recommend RecommendFacts.

(** X1. A detection that fails.  When the call of the model or the
    plot of its result raises, the stored records, the result label, the
    status and the image shown stay as they were, and the error is
    reported: nothing is cleared, since the plot comes before the
    clearing.  With a plot that labels every box, which raises when a
    class has no name, the loop over the boxes never meets a class
    without a name: a detection whose plot returns shows the annotated
    image and stores the merged records, one per label, and either
    completes or reports an overflow. *)
Theorem failed_detection_state a m img :
  model a = Some m -> current_img a = Some img ->
  (forall msg,
      predict m (call_of img) = Raises msg
      \/ (exists boxes, predict m (call_of img) = PlotRaises msg boxes) ->
      pest_data (run_detection a) = pest_data a
      /\ result_label (run_detection a) = result_label a
      /\ image_label (run_detection a) = image_label a
      /\ status (run_detection a) = status a
      /\ log (run_detection a)
         = log a ++ [ModelCall (call_of img); Critical ("检测失败：" ++ msg)])
  /\ (plot_labels_boxes m ->
      forall ann boxes,
        predict m (call_of img) = Results ann boxes ->
        exists ls,
          labels_of (names m) boxes = Some ls
          /\ image_label (run_detection a) = Some ann
          /\ pest_data (run_detection a)
             = Dict.values (aggregate (map item_of_label ls))
          /\ ((status (run_detection a) = "检测完成"%string
               /\ log (run_detection a) = log a ++ [ModelCall (call_of img)])
              \/ log (run_detection a)
                 = log a ++ [ModelCall (call_of img);
                             Critical ("检测失败：" ++ overflow_text)])).
Proof.
  intros Hm Hi. split.
  - intros msg [Hp|[boxes Hp]]; unfold run_detection; rewrite Hm, Hi, Hp;
      simpl; repeat apply conj; try done; by rewrite <- app_assoc.
  - intros Hplot ann boxes Hp.
    destruct (Hplot _ _ _ Hp) as [ls Hl]. exists ls. split; [done|].
    unfold run_detection. rewrite Hm, Hi, Hp.
    rewrite (collect_labels _ _ _ [] Hl). simpl.
    destruct (update_recommendation _) as [a'|] eqn:Hu.
    + apply update_recommendation_Some in Hu as (t & _ & ->). simpl.
      repeat apply conj; try done. left. done.
    + simpl. repeat apply conj; try done. right. by rewrite <- app_assoc.
Qed.

Lemma failed_detection_state_witness :
  pest_data
    (run_detection
       (steps [ ClickLoadModel "best.pt" (inl unnamed_class_model);
                ClickSelectImage "field.jpg" (Some blank) EmptyString ] init))
  = [].
Proof.
  exact (proj1 (proj1 (failed_detection_state
                  (steps [ ClickLoadModel "best.pt" (inl unnamed_class_model);
                           ClickSelectImage "field.jpg" (Some blank)
                             EmptyString ] init)
                  unnamed_class_model blank eq_refl eq_refl) "9"%string
                  (or_intror (ex_intro _ (demo_boxes [1; 1; 9]) eq_refl)))).
Defined.

(** *** The stored records agree with the tables *)

Lemma item_of_label_from_tables l : from_tables (item_of_label l).
Proof.
  unfold from_tables, item_of_label.
  destruct (Dict.get_default PESTICIDE_DB l unknown_pesticide) as [p d] eqn:E.
  simpl. rewrite E. repeat apply conj; done.
Qed.

Lemma incr_count_from_tables it : from_tables it -> from_tables (incr_count it).
Proof.
  intros (H1 & H2 & H3). unfold from_tables; simpl.
  repeat apply conj; try done. lia.
Qed.

Lemma dict_set_Forall (P : PestItem -> Prop) (d : list (string * PestItem))
  k it :
  Forall P (Dict.values d) -> P it -> Forall P (Dict.values (Dict.set d k it)).
Proof.
  intros Hd Hit. induction d as [|[k' v] d IH]; simpl.
  - by apply Forall_singleton.
  - apply Forall_cons in Hd as [Hv Hd].
    destruct (decide (k = k')); simpl; apply Forall_cons; auto.
Qed.

Lemma dict_get_Forall (P : PestItem -> Prop) (d : list (string * PestItem))
  k it :
  Forall P (Dict.values d) -> Dict.get d k = Some it -> P it.
Proof.
  intros Hd Hg. apply DictFacts.get_Some_elem in Hg.
  rewrite Forall_forall in Hd. apply Hd.
  unfold Dict.values. apply (list_elem_of_fmap_2 snd) in Hg. exact Hg.
Qed.

Lemma aggregate_from_tables items : forall d,
  Forall from_tables items -> Forall from_tables (Dict.values d) ->
  Forall from_tables (Dict.values (fold_left aggregate_step items d)).
Proof.
  induction items as [|it items IH]; intros d Hitems Hd; simpl; [done|].
  apply Forall_cons in Hitems as [Hit Hitems].
  apply IH; [done|]. unfold aggregate_step.
  destruct (Dict.get d (english it)) as [old|] eqn:Hg.
  - apply dict_set_Forall; [done|].
    apply incr_count_from_tables, (dict_get_Forall _ _ _ _ Hd Hg).
  - by apply dict_set_Forall.
Qed.

Lemma collect_from_tables names boxes : forall acc,
  Forall from_tables acc ->
  Forall from_tables (fst (collect names boxes acc)).
Proof.
  induction boxes as [|b boxes IH]; intros acc Hacc; simpl; [done|].
  destruct (Dict.get names (cls b)) as [l|]; [|done].
  apply IH, Forall_app. split; [done|].
  apply Forall_singleton, item_of_label_from_tables.
Qed.

Lemma run_detection_from_tables a :
  Forall from_tables (pest_data a) ->
  Forall from_tables (pest_data (run_detection a)).
Proof.
  intros Ha. unfold run_detection.
  destruct (model a) as [m|]; [|done].
  destruct (current_img a) as [img|]; [|done].
  destruct (predict m (call_of img)) as [msg|ann boxes|msg bs]; [done| |done].
  pose proof (collect_from_tables (names m) boxes [] (Forall_nil_2 _)) as Hc.
  destruct (collect (names m) boxes []) as [items [k|]]; simpl in Hc; [done|].
  assert (Hagg : Forall from_tables (Dict.values (aggregate items))).
  { apply aggregate_from_tables; [done|apply Forall_nil_2]. }
  destruct (update_recommendation _) as [a'|] eqn:Hu; [|done].
  apply update_recommendation_Some in Hu as (t & _ & ->). done.
Qed.

Lemma step_from_tables ev a :
  Forall from_tables (pest_data a) ->
  Forall from_tables (pest_data (step ev a)).
Proof.
  intros Ha. unfold step. destruct (crashed a); [done|].
  destruct ev as [f l|f r e|text|].
  - unfold load_model. destruct f; [done|]. by destruct l.
  - destruct (select_image_btn a); [|done].
    unfold select_image. destruct f; [done|]. by destruct r.
  - destruct (update_recommendation _) as [a'|] eqn:Hu; [|done].
    apply update_recommendation_Some in Hu as (t & _ & ->). done.
  - destruct (run_detection_btn a); [|done].
    by apply run_detection_from_tables.
Qed.

(** X2. In every state the window can reach, every stored record
    agrees with the tables: its Chinese name is the entry of [LABEL_MAP]
    for its label, or the label itself when there is none, its pesticide
    and base dosage are the entry of [PESTICIDE_DB], or 未知 and 0, and
    its count is at least 1. *)
Theorem stored_records_from_tables a r :
  reachable a -> r ∈ pest_data a ->
  chinese r = Dict.get_default LABEL_MAP (english r) (english r)
  /\ (pesticide r, base_dosage r)
     = Dict.get_default PESTICIDE_DB (english r) unknown_pesticide
  /\ 1 <= count r.
Proof.
  intros Hr.
  assert (Hall : Forall from_tables (pest_data a)).
  { induction Hr as [|ev a Hr IH]; [apply Forall_nil_2|].
    by apply step_from_tables. }
  intros Hin. rewrite Forall_forall in Hall. exact (Hall r Hin).
Qed.

Lemma stored_records_from_tables_witness :
  chinese (with_count 2 (item_of_label "rice-bug")) = "稻蝽"%string
  /\ 1 <= count (with_count 2 (item_of_label "rice-bug")).
Proof.
  assert (Hr : reachable (after_detection [1; 1; 3] "2")).
  { unfold after_detection, ready.
    apply reach_step, window_reachable_steps, reach_init. }
  assert (Hin : with_count 2 (item_of_label "rice-bug")
                ∈ pest_data (after_detection [1; 1; 3] "2")).
  { vm_compute. apply list_elem_of_here. }
  pose proof (stored_records_from_tables _ _ Hr Hin) as (H1 & _ & H3).
  exact (conj H1 H3).
Defined.

(** *** The buttons *)

Lemma gated_init : gated init.
Proof.
  unfold gated; simpl. repeat apply conj; try done.
  intros c Hc. by apply elem_of_nil in Hc.
Qed.

Ltac gate_tac :=
  first [ tauto | done | split; intros; first [done | tauto | congruence] ].

Lemma gated_step ev a : gated a -> gated (step ev a).
Proof.
  intros Ga. pose proof Ga as (G1 & G2 & G3).
  unfold step. destruct (crashed a); [done|].
  destruct ev as [f l|f r e|text|].
  - unfold load_model. destruct f; [exact Ga|]. destruct l as [m|err].
    + unfold gated; simpl. split; [gate_tac|]. split; [gate_tac|].
      intros c Hc. destruct (G3 c Hc) as (_ & H2 & H3 & H4). done.
    + unfold gated; simpl. split; [gate_tac|]. split; [gate_tac|].
      intros c [Hc|Hc%list_elem_of_singleton]%elem_of_app; [auto|done].
  - destruct (select_image_btn a) eqn:Hs; [|exact Ga].
    unfold select_image. destruct f; [exact Ga|]. destruct r as [img|].
    + unfold gated; simpl. rewrite Hs. split; [gate_tac|]. split; [gate_tac|].
      done.
    + unfold gated; simpl. rewrite Hs. split; [gate_tac|]. split; [gate_tac|].
      intros c [Hc|Hc%list_elem_of_singleton]%elem_of_app; [auto|done].
  - destruct (update_recommendation _) as [a'|] eqn:Hu.
    + apply update_recommendation_Some in Hu as (t & _ & ->). done.
    + done.
  - destruct (run_detection_btn a) eqn:Hb; [|exact Ga].
    unfold run_detection.
    destruct (model a) as [m|] eqn:Hm; [|exact Ga].
    destruct (current_img a) as [img|] eqn:Hi; [|exact Ga].
    assert (Hcall : forall c, ModelCall c = ModelCall (call_of img) ->
               Some m <> None
               /\ (exists img0, source c = Some img0)
               /\ conf_arg c = None /\ device_arg c = None).
    { intros c [= ->]. repeat apply conj; try done. by exists img. }
    assert (Hlog : forall c,
               ModelCall c ∈ log a ++ [ModelCall (call_of img)] ->
               Some m <> None
               /\ (exists img0, source c = Some img0)
               /\ conf_arg c = None /\ device_arg c = None).
    { intros c [Hc|Hc%list_elem_of_singleton]%elem_of_app.
      - by apply G3.
      - by apply Hcall. }
    assert (Hlog' : forall c text,
               ModelCall c
               ∈ (log a ++ [ModelCall (call_of img)]) ++ [Critical text] ->
               Some m <> None
               /\ (exists img0, source c = Some img0)
               /\ conf_arg c = None /\ device_arg c = None).
    { intros c text [Hc|Hc%list_elem_of_singleton]%elem_of_app; [auto|done]. }
    destruct (predict m (call_of img)) as [msg|ann boxes|msg bs].
    3:{ unfold gated; simpl. rewrite Hm.
        split; [exact G1|]. split; [rewrite Hb; exact G2|].
        intros c. apply Hlog'. }
    + unfold gated; simpl. rewrite Hm.
      split; [exact G1|]. split; [rewrite Hb; exact G2|]. intros c. apply Hlog'.
    + destruct (collect (names m) boxes []) as [items [k|]].
      * unfold gated; simpl. rewrite Hm.
        split; [exact G1|]. split; [rewrite Hb; exact G2|]. intros c. apply Hlog'.
      * destruct (update_recommendation _) as [a'|] eqn:Hu.
        -- apply update_recommendation_Some in Hu as (t & _ & ->).
           unfold gated; simpl. rewrite Hm.
           split; [exact G1|]. split; [rewrite Hb; exact G2|]. intros c. apply Hlog.
        -- unfold gated; simpl. rewrite Hm.
           split; [exact G1|]. split; [rewrite Hb; exact G2|]. intros c. apply Hlog'.
Qed.

(** X3. In every state the window can reach, the button that selects
    an image is enabled exactly when a model is loaded, the detection
    button is enabled only if the selection button is, and the model was
    only ever called while loaded, on an image that was read, with no
    confidence threshold and no device given. *)
Theorem buttons_follow_model a :
  reachable a ->
  (select_image_btn a = true <-> model a <> None)
  /\ (run_detection_btn a = true -> select_image_btn a = true)
  /\ (forall c, ModelCall c ∈ log a ->
        model a <> None
        /\ (exists img, source c = Some img)
        /\ conf_arg c = None /\ device_arg c = None).
Proof.
  induction 1 as [|ev a Hr IH]; [apply gated_init|]. by apply gated_step.
Qed.

Lemma buttons_follow_model_witness :
  select_image_btn (after_detection [1; 1; 3] "2") = true.
Proof.
  assert (Hr : reachable (after_detection [1; 1; 3] "2")).
  { unfold after_detection, ready.
    apply reach_step, window_reachable_steps, reach_init. }
  assert (Hb : run_detection_btn (after_detection [1; 1; 3] "2") = true)
    by (vm_compute; reflexivity).
  exact (proj1 (proj2 (buttons_follow_model _ Hr)) Hb).
Defined.
(** *** The order of the records *)

Lemma aggregate_snoc items it :
  aggregate (items ++ [it]) = aggregate_step (aggregate items) it.
Proof. unfold aggregate. by rewrite fold_left_app. Qed.

(** X4. The records are kept in the order in which their labels were
    first detected: one more detection adds a record at the end when its
    label is new, and leaves the order as it is when the label was
    already met. *)
Theorem records_in_detection_order ls l :
  map english (Dict.values (aggregate (map item_of_label (ls ++ [l]))))
  = map english (Dict.values (aggregate (map item_of_label ls)))
    ++ (if decide (l ∈ ls) then [] else [l]).
Proof.
  pose proof (aggregated_aggregate ls) as Hagg.
  pose proof (aggregated_aggregate (ls ++ [l])) as Hagg'.
  rewrite (aggregated_english _ _ Hagg), (aggregated_english _ _ Hagg').
  rewrite map_app.
  change (map item_of_label [l]) with [item_of_label l].
  rewrite aggregate_snoc. unfold aggregate_step.
  rewrite english_item_of_label.
  destruct Hagg as (Hnd & Hkeys & Hval).
  destruct (Dict.get (aggregate (map item_of_label ls)) l) as [it|] eqn:Hg.
  - rewrite (DictFacts.keys_set_old _ _ _ _ Hg).
    rewrite decide_True, app_nil_r; [done|].
    apply Hkeys. eapply DictFacts.elem_key, DictFacts.get_Some_elem, Hg.
  - rewrite (DictFacts.keys_set_new _ _ _ Hg).
    rewrite decide_False; [done|].
    rewrite <- Hkeys. by apply DictFacts.get_None.
Qed.

(** *** Typing the area before or after the detection *)

Lemma area_step a t :
  crashed a = false -> Forall dosage_in_range (pest_data a) ->
  exists s, report (pest_data a) t = Some s
            /\ step (AreaTextChanged t) a
               = set_result_label s (set_area_input t a).
Proof.
  intros Hc Hin. destruct (report_total _ t Hin) as [s Hs].
  exists s. split; [done|].
  unfold step, update_recommendation. rewrite Hc. simpl. by rewrite Hs.
Qed.

Lemma aggregate_labels_in_range ls :
  Forall dosage_in_range (Dict.values (aggregate (map item_of_label ls))).
Proof.
  apply aggregate_in_range; [|apply Forall_nil_2].
  apply Forall_forall. intros it [l [-> _]]%list_elem_of_fmap.
  apply item_of_label_in_range.
Qed.

(** X5. Typing the area and running the detection commute: from any
    reachable state, editing the area text and then clicking the
    detection button leaves the window in the same state as clicking
    first and editing afterwards, whenever the detection does not meet a
    class without a name. *)
Theorem area_edit_commutes_with_detection a t :
  reachable a ->
  (forall m img ann boxes,
      model a = Some m -> current_img a = Some img ->
      predict m (call_of img) = Results ann boxes ->
      is_Some (labels_of (names m) boxes)) ->
  step ClickRunDetection (step (AreaTextChanged t) a)
  = step (AreaTextChanged t) (step ClickRunDetection a).
Proof.
  intros Hr Hnames.
  pose proof (window_reachable_in_range a Hr) as Hin.
  destruct (crashed a) eqn:Hc.
  { unfold step. rewrite Hc. simpl. by rewrite Hc. }
  destruct (area_step a t Hc Hin) as (s0 & Hs0 & ->).
  unfold step at 1 3. simpl. rewrite Hc.
  destruct (run_detection_btn a) eqn:Hb.
  2:{ destruct (area_step a t Hc Hin) as (s0' & Hs0' & ->). congruence. }
  unfold run_detection. simpl.
  destruct (model a) as [m|] eqn:Hm.
  2:{ destruct (area_step a t Hc Hin) as (s0' & Hs0' & ->). congruence. }
  destruct (current_img a) as [img|] eqn:Hi.
  2:{ destruct (area_step a t Hc Hin) as (s0' & Hs0' & ->). congruence. }
  destruct (predict m (call_of img)) as [msg|ann boxes|msg bs] eqn:Hp.
  3:{ unfold step, update_recommendation. simpl. rewrite Hc, Hs0. done. }
  - unfold step, update_recommendation. simpl. rewrite Hc, Hs0. done.
  - destruct (Hnames m img ann boxes eq_refl eq_refl Hp) as [ls Hls].
    rewrite (collect_labels _ _ _ [] Hls). simpl.
    pose proof (aggregate_labels_in_range ls) as Hrecs.
    destruct (report_total _ t Hrecs) as [s1 Hs1].
    destruct (report_total _ (area_input a) Hrecs) as [s2 Hs2].
    unfold update_recommendation. simpl. rewrite Hs1, Hs2.
    unfold step, update_recommendation. simpl. rewrite Hc, Hs1. done.
Qed.

Lemma area_edit_commutes_with_detection_witness :
  step ClickRunDetection (step (AreaTextChanged "3") (ready [1; 1; 3] "2"))
  = step (AreaTextChanged "3") (step ClickRunDetection (ready [1; 1; 3] "2")).
Proof.
  assert (Hr : reachable (ready [1; 1; 3] "2")).
  { unfold ready. apply window_reachable_steps, reach_init. }
  apply (area_edit_commutes_with_detection _ _ Hr).
  intros m img ann boxes Hm Hi Hp.
  vm_compute in Hm. injection Hm as <-.
  vm_compute in Hp. injection Hp as _ <-.
  vm_compute. eexists. reflexivity.
Defined.
End RecommendExtra.

(** ** app.py: further properties *)

Module DetectorExtra.
Import PyNum Yolo Detector DetectorFacts.

(** *** [extract_stats] *)

Lemma counted_nil : counted [] [].
Proof.
  repeat apply conj; simpl; try done. apply NoDup_nil_2.
Qed.

Lemma counted_step ls counts name :
  counted ls counts ->
  counted (ls ++ [name])
    (Dict.set counts name (Dict.get_default counts name 0 + 1)).
Proof.
  intros (Hnd & Hkeys & Hval).
  assert (Hcount : forall k,
             Z.of_nat (count_occ string_dec (ls ++ [name]) k)
             = Z.of_nat (count_occ string_dec ls k)
               + (if decide (name = k) then 1 else 0)).
  { intros k. rewrite count_occ_app. simpl.
    destruct (string_dec name k), (decide (name = k)); try done; lia. }
  assert (Hget : forall k,
             Dict.get_default
               (Dict.set counts name (Dict.get_default counts name 0 + 1)) k 0
             = Z.of_nat (count_occ string_dec (ls ++ [name]) k)).
  { intros k. rewrite Hcount. unfold Dict.get_default at 1.
    destruct (decide (name = k)) as [<-|Hne].
    - rewrite DictFacts.get_set_eq. by rewrite Hval.
    - rewrite DictFacts.get_set_ne by done.
      fold (Dict.get_default counts k 0). rewrite Hval. lia. }
  destruct (Dict.get counts name) as [v|] eqn:Hg.
  - assert (Hin : name ∈ ls).
    { apply Hkeys. eapply DictFacts.elem_key, DictFacts.get_Some_elem, Hg. }
    split; [by rewrite (DictFacts.keys_set_old _ _ _ _ Hg)|].
    split; [|done]. intros k.
    rewrite (DictFacts.keys_set_old _ _ _ _ Hg), Hkeys, elem_of_app.
    rewrite list_elem_of_singleton. split; [auto|]. by intros [?| ->].
  - assert (Hnin : name ∉ Dict.keys counts) by (by apply DictFacts.get_None).
    split.
    { rewrite (DictFacts.keys_set_new _ _ _ Hg).
      apply NoDup_app. repeat split; [done| |apply NoDup_singleton].
      intros k Hk ->%list_elem_of_singleton. done. }
    split; [|done]. intros k.
    by rewrite (DictFacts.keys_set_new _ _ _ Hg), !elem_of_app, Hkeys.
Qed.

Lemma count_boxes_counted names boxes : forall counts total ls0 ls counts' total',
  counted ls0 counts -> labels_of names boxes = Some ls ->
  count_boxes names boxes counts total = Some (counts', total') ->
  counted (ls0 ++ ls) counts'.
Proof.
  induction boxes as [|b boxes IH];
    intros counts total ls0 ls counts' total' Hc Hl Hcb; simpl in *.
  - injection Hl as <-. injection Hcb as <- _. by rewrite app_nil_r.
  - destruct (Dict.get names (cls b)) as [name|]; [|done].
    destruct (labels_of names boxes) as [ls'|]; [|done].
    injection Hl as <-.
    destruct (add total (PyFloat (conf b))) as [t|]; [|done].
    replace (ls0 ++ name :: ls') with ((ls0 ++ [name]) ++ ls')
      by (by rewrite <- app_assoc).
    eapply IH; [apply counted_step, Hc|done|exact Hcb].
Qed.

(** X6. The class distribution of [extract_stats] has each name once,
    has exactly the names of the boxes, and gives for each name the
    number of boxes that carry it (0 for a name that is absent). *)
Theorem class_distribution_counts w boxes ls stats :
  labels_of (names (w_model w)) boxes = Some ls ->
  extract_stats w boxes = Some stats ->
  NoDup (Dict.keys (class_distribution stats))
  /\ (forall name, name ∈ Dict.keys (class_distribution stats) <-> name ∈ ls)
  /\ (forall name,
        Dict.get_default (class_distribution stats) name 0
        = Z.of_nat (count_occ string_dec ls name)).
Proof.
  intros Hl. unfold extract_stats.
  destruct (count_boxes _ _ _ _) as [[counts total]|] eqn:Hcb; [|done].
  pose proof (count_boxes_counted _ _ _ _ [] ls _ _ counted_nil Hl Hcb) as Hc.
  destruct (match boxes with [] => _ | _ => _ end); [|done].
  intros [= <-]. exact Hc.
Qed.

Lemma class_distribution_counts_witness :
  exists stats,
    extract_stats demo_worker (Recommend.demo_boxes [1; 1; 3]) = Some stats
    /\ Dict.get_default (class_distribution stats) "rice-bug"%string 0 = 2.
Proof.
  eexists. split; [vm_compute; reflexivity|].
  exact (proj2 (proj2
    (class_distribution_counts demo_worker (Recommend.demo_boxes [1; 1; 3])
       ["rice-bug"; "rice-bug"; "stem-borer"]%string _ eq_refl eq_refl))
    "rice-bug"%string).
Defined.

Lemma count_boxes_missing names boxes : forall counts total,
  labels_of names boxes = None -> count_boxes names boxes counts total = None.
Proof.
  induction boxes as [|b boxes IH]; intros counts total Hl; simpl in *;
    [done|].
  destruct (Dict.get names (cls b)) as [name|]; [|done].
  destruct (add total (PyFloat (conf b))) as [t|]; [|done].
  apply IH. by destruct (labels_of names boxes).
Qed.

Lemma extract_stats_returns w boxes ls :
  labels_of (names (w_model w)) boxes = Some ls ->
  Z.of_nat (List.length boxes) < 2 ^ 53 ->
  is_Some (extract_stats w boxes).
Proof.
  intros Hl Hlen. unfold extract_stats.
  destruct (count_boxes_spec _ _ [] (PyInt 0) ls Hl (or_introl eq_refl))
    as (counts & total & Hc & Hs & Hf).
  rewrite Hc. destruct boxes as [|b boxes]; [done|].
  destruct (Hf ltac:(done)) as [f ->].
  destruct (PyNumFacts.float_of_int_small
              (Z.of_nat (List.length (b :: boxes))) ltac:(lia))
    as (g & Hg & _).
  unfold div_by_len. rewrite Hg. done.
Qed.

(** X7. [extract_stats] raises exactly when a box has a class that
    [names] does not know (for fewer than 2^53 boxes). *)
Theorem extract_stats_raises_iff w boxes :
  Z.of_nat (List.length boxes) < 2 ^ 53 ->
  extract_stats w boxes = None
  <-> labels_of (names (w_model w)) boxes = None.
Proof.
  intros Hlen. split.
  - intros Hex. destruct (labels_of _ boxes) as [ls|] eqn:Hl; [|done].
    destruct (extract_stats_returns w boxes ls Hl Hlen) as [st Hst].
    congruence.
  - intros Hl. unfold extract_stats.
    by rewrite (count_boxes_missing _ _ _ _ Hl).
Qed.

Lemma extract_stats_raises_iff_witness :
  extract_stats demo_worker (Recommend.demo_boxes [1; 7]) = None.
Proof.
  apply (extract_stats_raises_iff demo_worker (Recommend.demo_boxes [1; 7])).
  - vm_compute. reflexivity.
  - vm_compute. reflexivity.
Defined.
(** *** [run] and [stop] *)

Lemma loop_turn_done_ok w c f rest x :
  cap w = Some c -> running w = true -> is_opened c = true ->
  feed c = ReadOk f :: rest -> publish w f = Some x ->
  done (loop_turn w) = [ModelCall (frame_call w f)].
Proof.
  intros Hc Hr Ho Hf Hp. unfold loop_turn. rewrite Hc, Hr, Ho, Hf. simpl.
  unfold publish in Hp.
  change (frame_call (set_cap {| is_opened := true; feed := rest |} w) f)
    with (frame_call w f).
  destruct (predict (w_model w) (frame_call w f)) as [|ann boxes|]; [done| |done].
  change (extract_stats (set_cap {| is_opened := true; feed := rest |} w) boxes)
    with (extract_stats w boxes).
  by destruct (extract_stats w boxes).
Qed.

Lemma done_then_step s t : done (then_step s t) = done s ++ done (t (after s)).
Proof. reflexivity. Qed.

Lemma turns_done_until_failed_read rest frames : forall n w c out,
  phase w = Looping -> cap w = Some c -> running w = true ->
  is_opened c = true ->
  feed c = map ReadOk frames ++ ReadFail :: rest ->
  publish_all w frames = Some out ->
  (List.length frames < n)%nat ->
  done (turns n w)
  = model_calls w frames ++ [ReleaseSource (video_source w)].
Proof.
  induction frames as [|f frames IH]; intros n w c out Hp Hc Hr Ho Hf Hpub Hn.
  - destruct n as [|n]; [simpl in Hn; lia|].
    rewrite (turns_looping _ _ Hp), done_then_step.
    rewrite (loop_turn_read_fail _ _ _ Hc Hr Ho Hf).
    rewrite turns_not_looping by done. done.
  - destruct n as [|n]; [simpl in Hn; lia|].
    simpl in Hpub.
    destruct (publish w f) as [x|] eqn:Hx; [|done].
    destruct (publish_all w frames) as [xs|] eqn:Hxs; [|done].
    destruct (loop_turn_read_ok w c f (map ReadOk frames ++ ReadFail :: rest)
                x Hc Hr Ho Hf Hx) as [Ha He].
    rewrite (turns_looping _ _ Hp), done_then_step, Ha.
    rewrite (loop_turn_done_ok w c f _ x Hc Hr Ho Hf Hx).
    rewrite (IH n (set_cap {| is_opened := true;
                              feed := map ReadOk frames ++ ReadFail :: rest |} w)
               {| is_opened := true;
                  feed := map ReadOk frames ++ ReadFail :: rest |} xs);
      try done.
    + by rewrite publish_all_set_cap.
    + simpl in Hn. lia.
Qed.
(** X8. On a stream whose reads succeed up to a first failed read and
    whose frames are all published, [run] opens the source once, calls
    the model exactly once per frame read, in the order of the reads,
    with the confidence threshold of the worker and on the cpu, and
    releases the source once, at the end. *)
Theorem run_effects_in_order m src th dev frames rest out :
  is_opened dev = true ->
  feed dev = map ReadOk frames ++ ReadFail :: rest ->
  publish_all (new_worker m src th) frames = Some out ->
  done (run dev (new_worker m src th))
  = OpenSource src
    :: map (fun f => ModelCall {| source := Some f; conf_arg := Some th;
                                  device_arg := Some "cpu"%string |}) frames
    ++ [ReleaseSource src].
Proof.
  intros Ho Hf Hpub. unfold run. rewrite done_then_step.
  change (after (worker_step dev (new_worker m src th)))
    with (set_phase Looping (set_cap dev (new_worker m src th))).
  change (done (worker_step dev (new_worker m src th)))
    with [OpenSource src].
  rewrite (turns_done_until_failed_read rest frames _ _ dev out); try done.
  - by rewrite publish_all_set_phase, publish_all_set_cap.
  - rewrite Hf, length_app, length_map. simpl. lia.
Qed.

Lemma run_effects_in_order_witness :
  List.length (done (run demo_device demo_worker)) = 3%nat.
Proof.
  unfold demo_worker.
  rewrite (run_effects_in_order (Recommend.demo_model [1; 1; 3]) (Camera 0)
             conf_0_3 demo_device [Recommend.blank] [ReadOk Recommend.blank]
             _ eq_refl eq_refl eq_refl).
  reflexivity.
Defined.

(** X9. A source that cannot be opened ends the run at once and in
    silence: [run] reads no frame, calls no model, publishes nothing,
    releases the capture and returns; no error is raised or reported. *)
Theorem run_on_closed_source m src th dev :
  is_opened dev = false ->
  let r := run dev (new_worker m src th) in
  emitted r = []
  /\ done r = [OpenSource src; ReleaseSource src]
  /\ phase (after r) = Finished
  /\ running (after r) = true
  /\ cap (after r) = Some (release dev).
Proof.
  intros Ho r. subst r. unfold run, then_step. simpl.
  unfold loop_turn. simpl. rewrite Ho. simpl.
  rewrite turns_not_looping by done. simpl. done.
Qed.

Lemma run_on_closed_source_witness :
  done (run {| is_opened := false; feed := [] |} demo_worker)
  = [OpenSource (Camera 0); ReleaseSource (Camera 0)].
Proof.
  exact (proj1 (proj2
    (run_on_closed_source (Recommend.demo_model [1; 1; 3]) (Camera 0) conf_0_3
       {| is_opened := false; feed := [] |} eq_refl))).
Defined.

Lemma loop_turn_read_raises w c f rest :
  cap w = Some c -> running w = true -> is_opened c = true ->
  feed c = ReadOk f :: rest -> publish w f = None ->
  after (loop_turn w)
  = set_phase Failed (set_cap {| is_opened := true; feed := rest |} w)
  /\ emitted (loop_turn w) = []
  /\ done (loop_turn w) = [ModelCall (frame_call w f)].
Proof.
  intros Hc Hr Ho Hf Hp. unfold loop_turn. rewrite Hc, Hr, Ho, Hf. simpl.
  unfold publish in Hp.
  change (frame_call (set_cap {| is_opened := true; feed := rest |} w) f)
    with (frame_call w f).
  destruct (predict (w_model w) (frame_call w f)) as [|ann boxes|]; [done| |done].
  change (extract_stats (set_cap {| is_opened := true; feed := rest |} w) boxes)
    with (extract_stats w boxes).
  by destruct (extract_stats w boxes).
Qed.

Lemma turns_until_exception f rest frames : forall n w c out,
  phase w = Looping -> cap w = Some c -> running w = true ->
  is_opened c = true ->
  feed c = map ReadOk frames ++ ReadOk f :: rest ->
  publish_all w frames = Some out -> publish w f = None ->
  (List.length frames < n)%nat ->
  emitted (turns n w) = out
  /\ phase (after (turns n w)) = Failed
  /\ cap (after (turns n w)) = Some {| is_opened := true; feed := rest |}
  /\ done (turns n w) = model_calls w (frames ++ [f]).
Proof.
  induction frames as [|g frames IH];
    intros n w c out Hp Hc Hr Ho Hf Hpub Hraise Hn.
  - destruct n as [|n]; [simpl in Hn; lia|].
    simpl in Hpub. injection Hpub as <-.
    destruct (loop_turn_read_raises w c f rest Hc Hr Ho Hf Hraise)
      as (Ha & He & Hd).
    rewrite (turns_looping _ _ Hp), emitted_then_step, !after_then_step,
      done_then_step, Ha, He, Hd.
    rewrite turns_not_looping by done. done.
  - destruct n as [|n]; [simpl in Hn; lia|].
    simpl in Hpub.
    destruct (publish w g) as [x|] eqn:Hx; [|done].
    destruct (publish_all w frames) as [xs|] eqn:Hxs; [|done].
    injection Hpub as <-.
    destruct (loop_turn_read_ok w c g (map ReadOk frames ++ ReadOk f :: rest)
                x Hc Hr Ho Hf Hx) as [Ha He].
    rewrite (turns_looping _ _ Hp), emitted_then_step, !after_then_step,
      done_then_step, Ha, He.
    rewrite (loop_turn_done_ok w c g _ x Hc Hr Ho Hf Hx).
    destruct (IH n (set_cap {| is_opened := true;
                               feed := map ReadOk frames ++ ReadOk f :: rest |} w)
                {| is_opened := true;
                   feed := map ReadOk frames ++ ReadOk f :: rest |} xs)
      as (H1 & H2 & H3 & H4); try done.
    + by rewrite publish_all_set_cap.
    + simpl in Hn. lia.
    + rewrite H1, H4. done.
Qed.

(** X10. When the model or [extract_stats] raises on a frame, the run
    ends there with the capture still open: the frames before it are
    published, the thread is left by the exception, and [cap.release()]
    is never reached (no release among the effects). *)
Theorem exception_leaves_capture_open m src th dev frames f rest out :
  is_opened dev = true ->
  feed dev = map ReadOk frames ++ ReadOk f :: rest ->
  publish_all (new_worker m src th) frames = Some out ->
  publish (new_worker m src th) f = None ->
  let r := run dev (new_worker m src th) in
  emitted r = out
  /\ phase (after r) = Failed
  /\ holds_source (after r) = true
  /\ ReleaseSource src ∉ done r.
Proof.
  intros Ho Hf Hpub Hraise r. subst r. unfold run.
  rewrite emitted_then_step, !after_then_step, done_then_step.
  change (after (worker_step dev (new_worker m src th)))
    with (set_phase Looping (set_cap dev (new_worker m src th))).
  change (emitted (worker_step dev (new_worker m src th)))
    with (@nil (Image * Stats)).
  change (done (worker_step dev (new_worker m src th)))
    with [OpenSource src].
  destruct (turns_until_exception f rest frames
              (S (List.length (feed dev)))
              (set_phase Looping (set_cap dev (new_worker m src th))) dev out)
    as (H1 & H2 & H3 & H4); try done.
  - by rewrite publish_all_set_phase, publish_all_set_cap.
  - rewrite Hf, length_app, length_map. simpl. lia.
  - rewrite H1, H2, H4. unfold holds_source. rewrite H3.
    repeat apply conj; try done.
    intros [Hin|Hin]%elem_of_cons; [done|].
    unfold model_calls in Hin.
    apply list_elem_of_fmap in Hin as (g & Hg & _). done.
Qed.

Lemma exception_leaves_capture_open_witness :
  holds_source
    (after (run two_frames
              (new_worker {| names := []; predict := fun _ => Raises "x" |}
                 (Camera 0) conf_0_3)))
  = true.
Proof.
  exact (proj1 (proj2 (proj2
    (exception_leaves_capture_open
       {| names := []; predict := fun _ => Raises "x" |} (Camera 0) conf_0_3
       two_frames [] Recommend.blank [ReadOk Recommend.blank] []
       eq_refl eq_refl eq_refl eq_refl)))).
Defined.

Lemma clear_and_wait_silent dev w :
  emitted (clear_and_wait dev w) = []
  /\ running (after (clear_and_wait dev w)) = false
  /\ (forall e, e ∈ done (clear_and_wait dev w) ->
        e = OpenSource (video_source w) \/ e = ReleaseSource (video_source w))
  /\ (phase w <> Started ->
      forall e, e ∈ done (clear_and_wait dev w) ->
        e = ReleaseSource (video_source w)).
Proof.
  destruct w as [m src th r [c|] fa []]; simpl;
    (split; [reflexivity|]); (split; [reflexivity|]);
    (split; [intros e He|intros Hns e He]); try done;
    vm_compute in He;
    repeat (apply elem_of_cons in He as [->|He]; [auto|]);
    by apply elem_of_nil in He.
Qed.

Lemma loop_turn_emits_one w : (List.length (emitted (loop_turn w)) <= 1)%nat.
Proof.
  unfold loop_turn, leave_loop.
  repeat case_match; simpl; lia.
Qed.

Lemma loop_turn_keeps w :
  video_source (after (loop_turn w)) = video_source w
  /\ (phase w <> Started -> phase (after (loop_turn w)) <> Started).
Proof.
  unfold loop_turn, leave_loop.
  repeat case_match; simpl; done.
Qed.

Lemma stop_lets_running_cleared dev fl w :
  running (after (stop dev fl w)) = false
  /\ (List.length (emitted (stop dev fl w)) <= 1)%nat.
Proof.
  destruct (clear_and_wait_silent dev w) as (E1 & E2 & _).
  destruct (clear_and_wait_silent dev (after (loop_turn w))) as (L1 & L2 & _).
  unfold stop. destruct fl; [|rewrite E1; split; [done|simpl; lia]].
  destruct (phase w); try (rewrite E1; split; [done|simpl; lia]).
  rewrite after_then_step, emitted_then_step, L1, app_nil_r.
  split; [done|apply loop_turn_emits_one].
Qed.

(** X11. [stop()] clears [running] and returns with the thread out of
    [run].  When no turn of the loop is in flight it reads no frame: it
    publishes nothing and does not call the model, and its only effects
    are the opening, when the thread had not opened its source yet, and
    the release.  When a turn is in flight, that turn ends first: what
    [stop()] publishes is what that turn publishes, at most one signal,
    and its effects are those of the turn, then the release at most. *)
Theorem stop_lets_turn_in_flight_finish dev w :
  (forall in_flight,
      running (after (stop dev in_flight w)) = false
      /\ active (after (stop dev in_flight w)) = false
      /\ (List.length (emitted (stop dev in_flight w)) <= 1)%nat)
  /\ (emitted (stop dev false w) = []
      /\ forall e, e ∈ done (stop dev false w) ->
           e = OpenSource (video_source w)
           \/ e = ReleaseSource (video_source w))
  /\ (phase w = Looping ->
      emitted (stop dev true w) = emitted (loop_turn w)
      /\ exists rest,
           done (stop dev true w) = done (loop_turn w) ++ rest
           /\ forall e, e ∈ rest -> e = ReleaseSource (video_source w))
  /\ (phase w <> Looping -> stop dev true w = stop dev false w).
Proof.
  assert (Hloop : phase w = Looping ->
            stop dev true w = then_step (loop_turn w) (clear_and_wait dev)).
  { intros Hp. unfold stop. by rewrite Hp. }
  destruct (clear_and_wait_silent dev w) as (E1 & E2 & E3 & _).
  destruct (clear_and_wait_silent dev (after (loop_turn w)))
    as (L1 & L2 & _ & L4).
  destruct (loop_turn_keeps w) as [Hsrc Hns].
  split; [|split; [|split]].
  - intros fl. destruct (stop_lets_running_cleared dev fl w) as [H1 H2].
    split; [done|]. split; [apply stop_inactive|done].
  - split; [exact E1|exact E3].
  - intros Hp. rewrite (Hloop Hp), emitted_then_step, done_then_step, L1.
    split; [by rewrite app_nil_r|].
    eexists. split; [reflexivity|].
    intros e He. rewrite <- Hsrc.
    apply L4; [apply Hns; by rewrite Hp|done].
  - intros Hp. unfold stop. by destruct (phase w).
Qed.

Lemma stop_lets_turn_in_flight_finish_witness :
  List.length
    (emitted (stop demo_device true
                (set_phase Looping (set_cap demo_device demo_worker))))
  = 1%nat.
Proof.
  rewrite (proj1 (proj1 (proj2 (proj2
             (stop_lets_turn_in_flight_finish demo_device
                (set_phase Looping (set_cap demo_device demo_worker)))))
             eq_refl)).
  vm_compute. reflexivity.
Defined.

Lemma loop_turn_consumes w c :
  cap w = Some c ->
  exists c', cap (after (loop_turn w)) = Some c'
             /\ (List.length (emitted (loop_turn w)) + List.length (feed c')
                 <= List.length (feed c))%nat.
Proof.
  intros Hc. unfold loop_turn. rewrite Hc.
  destruct (running w && is_opened c);
    [|eexists; split; [reflexivity|simpl; lia]].
  destruct (feed c) as [|[f|] rest] eqn:Hfeed;
    try (eexists; split; [reflexivity|simpl; rewrite ?Hfeed; simpl; lia]).
  set (w1 := set_cap {| is_opened := is_opened c; feed := rest |} w).
  destruct (predict (w_model w1) (frame_call w1 f)) as [msg|ann boxes|msg bs];
    [eexists; split; [reflexivity|simpl; lia]|
    |eexists; split; [reflexivity|simpl; lia]].
  destruct (extract_stats w1 boxes) as [stats|];
    eexists; (split; [reflexivity|simpl; lia]).
Qed.

Lemma turns_emit_at_most n : forall w c,
  cap w = Some c ->
  (List.length (emitted (turns n w)) <= List.length (feed c))%nat.
Proof.
  induction n as [|n IH]; intros w c Hc; [simpl; lia|].
  destruct (phase w) eqn:Hp;
    try (rewrite turns_not_looping by congruence; simpl; lia).
  rewrite (turns_looping _ _ Hp), emitted_then_step, length_app.
  destruct (loop_turn_consumes w c Hc) as (c' & Hc' & Hlen).
  pose proof (IH _ c' Hc'). lia.
Qed.

(** X12. Whatever the device gives, [run] publishes at most one
    statistics dictionary per read the device can answer. *)
Theorem run_publishes_at_most_reads dev m src th :
  (List.length (emitted (run dev (new_worker m src th)))
   <= List.length (feed dev))%nat.
Proof.
  unfold run. rewrite emitted_then_step.
  change (emitted (worker_step dev (new_worker m src th)))
    with (@nil (Image * Stats)).
  rewrite app_nil_l. by apply turns_emit_at_most.
Qed.
(** *** The calls of the model and the signals, in every reachable state *)

Lemma loop_turn_calls : thread_step_calls loop_turn.
Proof.
  intros w. unfold loop_turn.
  assert (Hnil : forall c : Call, ModelCall c ∈ (@nil Effect) -> False).
  { intros c Hc. by apply elem_of_nil in Hc. }
  assert (Hrel : forall (c : Call) src, ModelCall c ∈ [ReleaseSource src] -> False).
  { intros c src Hc%list_elem_of_singleton. done. }
  assert (Hemp : forall x : Image * Stats, x ∈ (@nil (Image * Stats)) -> False).
  { intros x Hx. by apply elem_of_nil in Hx. }
  destruct (cap w) as [c|] eqn:Hc.
  2:{ repeat apply conj; simpl; try done; intros ? H; exfalso; eauto. }
  destruct (running w && is_opened c).
  2:{ repeat apply conj; simpl; try done; intros ? H; exfalso; eauto. }
  destruct (feed c) as [|[f|] rest] eqn:Hfeed.
  - repeat apply conj; simpl; try done; intros ? H; exfalso; eauto.
  - set (w1 := set_cap {| is_opened := is_opened c; feed := rest |} w).
    assert (Hcall : forall c0, ModelCall c0 ∈ [ModelCall (frame_call w1 f)] ->
               exists frame,
                 c0 = {| source := Some frame;
                         conf_arg := Some (conf_threshold w);
                         device_arg := Some "cpu"%string |}).
    { intros c0 Hc0%list_elem_of_singleton. injection Hc0 as ->. by exists f. }
    destruct (predict (w_model w1) (frame_call w1 f)) as [msg|ann boxes|msg bs].
    { repeat apply conj; simpl; try done. intros ? H; exfalso; eauto. }
    2:{ repeat apply conj; simpl; try done. intros ? H; exfalso; eauto. }
    destruct (extract_stats w1 boxes) as [stats|] eqn:Hst.
    + repeat apply conj; simpl; try done.
      intros x ->%list_elem_of_singleton. by exists w1, boxes.
    + repeat apply conj; simpl; try done. intros ? H; exfalso; eauto.
  - repeat apply conj; simpl; try done; intros ? H; exfalso; eauto.
Qed.

Lemma worker_step_calls dev : thread_step_calls (worker_step dev).
Proof.
  intros w. unfold worker_step. destruct (phase w).
  - repeat apply conj; simpl; try done.
    + intros c Hc%list_elem_of_singleton. done.
    + intros x Hx. by apply elem_of_nil in Hx.
  - apply loop_turn_calls.
  - repeat apply conj; simpl; try done; intros ? H; by apply elem_of_nil in H.
  - repeat apply conj; simpl; try done; intros ? H; by apply elem_of_nil in H.
Qed.

Lemma then_step_calls s t :
  thread_step_calls s -> thread_step_calls t ->
  thread_step_calls (fun w => then_step (s w) t).
Proof.
  intros Hs Ht w. destruct (Hs w) as (S1 & S2 & S3).
  destruct (Ht (after (s w))) as (T1 & T2 & T3).
  unfold then_step; simpl. repeat apply conj.
  - congruence.
  - intros c [Hc|Hc]%elem_of_app; [auto|].
    rewrite <- S1. auto.
  - intros x [Hx|Hx]%elem_of_app; auto.
Qed.

Lemma clear_and_wait_calls dev : thread_step_calls (clear_and_wait dev).
Proof.
  apply (then_step_calls (fun w => worker_step dev (set_running false w))
           (worker_step dev)).
  - intros w. apply (worker_step_calls dev (set_running false w)).
  - apply worker_step_calls.
Qed.

Lemma stop_calls dev fl : thread_step_calls (stop dev fl).
Proof.
  intros w. unfold stop. destruct fl; [|apply clear_and_wait_calls].
  destruct (phase w); try apply clear_and_wait_calls.
  apply (then_step_calls loop_turn (clear_and_wait dev) loop_turn_calls
           (clear_and_wait_calls dev)).
Qed.

(** Without a turn in flight, [stop()] does not call the model. *)
Lemma stop_at_test_no_call dev fl w c :
  fl = false \/ phase w <> Looping ->
  ModelCall c ∈ done (stop dev fl w) -> False.
Proof.
  intros Hfl Hc.
  assert (Heq : stop dev fl w = clear_and_wait dev w).
  { unfold stop. destruct fl; [|done]. destruct Hfl as [?|Hp]; [done|].
    by destruct (phase w). }
  rewrite Heq in Hc.
  destruct (clear_and_wait_silent dev w) as (_ & _ & E3 & _).
  by destruct (E3 _ Hc).
Qed.

Lemma calls_invariant_calm a a' :
  calm a a' -> calls_invariant a -> calls_invariant a'.
Proof.
  intros (Ht & Hq & He) (I1 & I2 & I3). repeat apply conj.
  - intros i w Hi. rewrite Ht in Hi. by apply (I1 i w).
  - intros c [Hc|Hc]%He; [by apply I2|by left].
  - intros x Hx. by apply I3, Hq.
Qed.

Ltac calm_tac :=
  unfold calm; simpl; repeat apply conj; simpl; try done; auto;
  try (intros ? [?|?%list_elem_of_singleton]%elem_of_app; [auto|done]).

Lemma calm_load_model f b l a : calm a (load_model f b l a).
Proof. unfold load_model. destruct f; [calm_tac|]. destruct l; calm_tac. Qed.

Lemma calm_select_input_file f a : calm a (select_input_file f a).
Proof.
  unfold select_input_file.
  destruct (input_combo (ui a)) as [|[|[|n]]]; calm_tac.
Qed.

Lemma calm_update_stats arg a : calm a (update_stats arg a).
Proof.
  unfold update_stats. destruct arg as [stats|]; [|calm_tac].
  destruct (stats_lines stats); calm_tac.
Qed.

Lemma calm_trans a b c : calm a b -> calm b c -> calm a c.
Proof.
  intros (H1 & H2 & H3) (G1 & G2 & G3). repeat apply conj.
  - congruence.
  - auto.
  - intros x [Hx|Hx]%G3; auto.
Qed.

Lemma calm_process_single_image e r a : calm a (process_single_image e r a).
Proof.
  unfold process_single_image.
  destruct (file_path a); [|calm_tac].
  destruct e; [|calm_tac].
  destruct (model a) as [m|]; [|calm_tac].
  assert (Hcall : calm a (perform [ModelCall (image_call r)] a)).
  { unfold calm; simpl. repeat apply conj; try done.
    intros c [Hc|Hc%list_elem_of_singleton]%elem_of_app; [by left|].
    right. exists r. by injection Hc. }
  destruct (predict m (image_call r)) as [msg|ann boxes|msg bs].
  3:{ eapply calm_trans; [exact Hcall|]. calm_tac. }
  - eapply calm_trans; [exact Hcall|]. calm_tac.
  - eapply calm_trans; [|apply calm_update_stats].
    eapply calm_trans; [exact Hcall|]. calm_tac.
Qed.

Lemma calm_save_result e f a : calm a (save_result e f a).
Proof.
  unfold save_result. destruct (last_image a) as [img|]; [|calm_tac].
  assert (H1 : calm a (if e then a else perform [MakeDirs (save_dir a)] a)).
  { destruct e; calm_tac. }
  destruct f; [exact H1|].
  eapply calm_trans; [exact H1|].
  unfold calm; simpl. repeat apply conj; try done.
  intros c [[Hc|Hc%list_elem_of_singleton]%elem_of_app
           |Hc%list_elem_of_singleton]%elem_of_app; [by left|done|done].
Qed.

Lemma calm_deliver frame stats q a :
  queue a = (frame, stats) :: q ->
  calm a (display_image_and_stats frame stats (set_queue q a)).
Proof.
  intros Hq. unfold display_image_and_stats.
  eapply calm_trans; [|apply calm_update_stats].
  unfold calm; simpl; repeat apply conj; auto.
  intros x Hx. rewrite Hq. by apply list_elem_of_further.
Qed.

Lemma calls_invariant_advance i t a :
  thread_step_calls t -> calls_invariant a -> calls_invariant (advance i t a).
Proof.
  intros Ht Ha.
  destruct (threads a !! i) as [w|] eqn:Hw;
    [|unfold advance; by rewrite Hw].
  destruct (advance_fields i t a w Hw) as (_ & F2 & F3 & F4 & _).
  destruct Ha as (I1 & I2 & I3). destruct (Ht w) as (T1 & T2 & T3).
  pose proof (I1 i w Hw) as Hth.
  repeat apply conj.
  - intros j w' Hj. rewrite F4 in Hj.
    apply list_lookup_insert_Some in Hj as [(<- & <- & _)|[Hne Hj]].
    + congruence.
    + by apply (I1 j w').
  - intros c. rewrite F2. intros [Hc|Hc]%elem_of_app; [by apply I2|].
    destruct (T2 c Hc) as [f ->]. right. exists f. by rewrite Hth.
  - intros x. rewrite F3. intros [Hx|Hx]%elem_of_app; auto.
Qed.

Lemma calls_invariant_step ev a :
  calls_invariant a -> calls_invariant (step ev a).
Proof.
  intros Ha. unfold step. destruct (life a); [|done|done].
  destruct ev as [f b l|i|f|e r|dev fl|e f|i|i dev| |dev fl].
  - eapply calls_invariant_calm; [apply calm_load_model|done].
  - destruct (i <? 3)%nat; [|done].
    eapply calls_invariant_calm; [|done]. calm_tac.
  - eapply calls_invariant_calm; [apply calm_select_input_file|done].
  - destruct (startBtn (ui a)); [|done]. unfold start_detection.
    destruct (model a) as [m|];
      [|eapply calls_invariant_calm; [calm_tac|done]].
    destruct (Nat.eq_dec (input_combo (ui a)) 2) as [->|Hne2].
    { eapply calls_invariant_calm; [apply calm_process_single_image|done]. }
    set (src := match input_combo (ui a) with
                | O => Some (Camera 0)
                | _ => match file_path a with
                       | Some f => Some (File f)
                       | None => None
                       end
                end).
    assert (Hgoal :
      calls_invariant
        match src with
        | None =>
            abort (with_ui (set_status_label "检测进行中")
                     (with_ui (set_buttons false true) a))
        | Some s =>
            set_threads (threads a ++ [new_worker m s conf_0_3])
              (set_worker (Some (List.length (threads a)))
                 (with_ui (set_status_label "检测进行中")
                    (with_ui (set_buttons false true) a)))
        end).
    { destruct Ha as (I1 & I2 & I3). destruct src as [s|].
      - repeat apply conj; simpl; try done.
        intros j w [Hold|[Hlen Hnew]]%lookup_app_Some; [by apply (I1 j w)|].
        destruct (j - List.length (threads a))%nat; [|done].
        by injection Hnew as <-.
      - repeat apply conj; simpl; done. }
    destruct (input_combo (ui a)) as [|[|[|n]]]; try done.
  - destruct (stopBtn (ui a)); [|done]. unfold stop_detection.
    assert (H1 : calls_invariant
                   match worker a with
                   | Some i => set_worker None (advance i (stop dev fl) a)
                   | None => a
                   end).
    { destruct (worker a) as [i|]; [|done].
      destruct (calls_invariant_advance i (stop dev fl) a (stop_calls dev fl) Ha)
        as (I1 & I2 & I3).
      repeat apply conj; simpl; done. }
    destruct H1 as (I1 & I2 & I3). repeat apply conj; simpl; done.
  - eapply calls_invariant_calm; [apply calm_save_result|done].
  - destruct (i <? 2)%nat; [|done].
    eapply calls_invariant_calm; [|done]. calm_tac.
  - apply calls_invariant_advance; [apply worker_step_calls|done].
  - destruct (queue a) as [|[frame stats] q] eqn:Hq; [done|].
    eapply calls_invariant_calm; [by apply calm_deliver|done].
  - assert (H1 : calls_invariant match worker a with
                                 | Some i => advance i (stop dev fl) a
                                 | None => a
                                 end).
    { destruct (worker a) as [i|]; [|done].
      apply calls_invariant_advance; [apply stop_calls|done]. }
    destruct (closeEvent_cases dev fl a) as [[-> Hl]|[-> Hl]]; [exact H1|].
    destruct H1 as (I1 & I2 & I3). repeat apply conj; simpl; done.
Qed.

Lemma reachable_calls_invariant a : reachable a -> calls_invariant a.
Proof.
  induction 1 as [|ev a Hr IH].
  - repeat apply conj; simpl; try done; intros ? H; by apply elem_of_nil in H.
  - by apply calls_invariant_step.
Qed.

(** The effects only grow, and what a step of a thread adds. *)
Lemma advance_new_effects i t a :
  exists new,
    effects (advance i t a) = effects a ++ new
    /\ (new = []
        \/ exists w, threads a !! i = Some w /\ new = done (t w)).
Proof.
  destruct (threads a !! i) as [w|] eqn:Hw.
  - destruct (advance_fields i t a w Hw) as (_ & F2 & _).
    exists (done (t w)). split; [done|]. right. by exists w.
  - exists []. unfold advance. rewrite Hw, app_nil_r. by split; [|left].
Qed.

Ltac no_call :=
  intros ? Hin;
  repeat (apply elem_of_cons in Hin as [Hin|Hin]; [discriminate Hin|]);
  by apply elem_of_nil in Hin.

Lemma step_new_calls ev a :
  calls_invariant a ->
  exists new,
    effects (step ev a) = effects a ++ new
    /\ forall c, ModelCall c ∈ new -> calls_of_event ev c.
Proof.
  intros (I1 & _ & _).
  assert (Hkeep : forall a' : YOLODetector,
            effects a' = effects a ->
            exists new,
              effects a' = effects a ++ new
              /\ forall c, ModelCall c ∈ new -> calls_of_event ev c).
  { intros a' Ha'. exists []. rewrite app_nil_r. split; [done|no_call]. }
  assert (Hthread : forall i t fl (a' : YOLODetector),
            effects a' = effects (advance i t a) ->
            (forall w, threads a !! i = Some w ->
               forall c, ModelCall c ∈ done (t w) ->
                 fl = true /\ exists frame,
                   c = {| source := Some frame;
                          conf_arg := Some (conf_threshold w);
                          device_arg := Some "cpu"%string |}) ->
            exists new,
              effects a' = effects a ++ new
              /\ forall c, ModelCall c ∈ new -> fl = true /\ stream_call c).
  { intros i t fl a' Ha' Ht.
    destruct (advance_new_effects i t a) as (new & Hnew & [->|(w & Hw & ->)]).
    - exists []. rewrite Ha', Hnew. split; [done|no_call].
    - exists (done (t w)). rewrite Ha', Hnew. split; [done|].
      intros c Hc. destruct (Ht w Hw c Hc) as [Hfl [f ->]].
      split; [done|]. exists f. by rewrite (I1 i w Hw). }
  unfold step. destruct (life a); [|by apply Hkeep|by apply Hkeep].
  destruct ev as [f b l|i|f|e r|dev fl|e f|i|i dev| |dev fl].
  - unfold load_model. destruct f; [|destruct l];
      (eexists; split; [reflexivity|no_call]).
  - destruct (i <? 3)%nat; by apply Hkeep.
  - apply Hkeep. unfold select_input_file.
    by destruct (input_combo (ui a)) as [|[|[|n]]].
  - destruct (startBtn (ui a)); [|by apply Hkeep]. unfold start_detection.
    destruct (model a) as [m|] eqn:Hm;
      [|eexists; split; [reflexivity|no_call]].
    destruct (Nat.eq_dec (input_combo (ui a)) 2) as [->|Hne2].
    + unfold process_single_image. rewrite Hm.
      destruct (file_path a); [|eexists; split; [reflexivity|no_call]].
      destruct e; [|eexists; split; [reflexivity|no_call]].
      exists [ModelCall (image_call r)]. split.
      * by destruct (predict m (image_call r)).
      * intros c Hc%list_elem_of_singleton. by injection Hc as ->.
    + apply Hkeep.
      destruct (input_combo (ui a)) as [|[|[|n]]]; try done; simpl;
        by destruct (file_path a).
  - destruct (stopBtn (ui a)); [|by apply Hkeep]. unfold stop_detection.
    destruct (worker a) as [i|]; [|by apply Hkeep].
    destruct (Hthread i (stop dev fl) fl
                (with_ui (set_status_label "已停止检测")
                   (with_ui (set_buttons true false)
                      (set_worker None (advance i (stop dev fl) a))))
                eq_refl) as (new & Hnew & Hc).
    { intros w Hw c Hc.
      destruct fl.
      - split; [done|]. by apply (stop_calls dev true w).
      - exfalso. apply (stop_at_test_no_call dev false w c); [by left|done]. }
    exists new. split; [done|]. intros c Hin.
    destruct (Hc c Hin) as [-> Hs]. exact Hs.
  - unfold save_result. destruct (last_image a) as [img|];
      [|eexists; split; [reflexivity|no_call]].
    destruct e, f; simpl; rewrite <- ?app_assoc;
      (eexists; split; [reflexivity|no_call])
      || (exists []; rewrite app_nil_r; split; [done|no_call]).
  - destruct (i <? 2)%nat; [|by apply Hkeep].
    eexists; split; [reflexivity|no_call].
  - destruct (Hthread i (worker_step dev) true
                (advance i (worker_step dev) a) eq_refl) as (new & Hnew & Hc).
    { intros w Hw c Hc. split; [done|]. by apply (worker_step_calls dev w). }
    exists new. split; [done|]. intros c Hin. by destruct (Hc c Hin).
  - apply Hkeep. destruct (queue a) as [|[frame stats] q]; [done|].
    unfold display_image_and_stats, update_stats.
    by destruct (stats_lines stats).
  - destruct (closeEvent_fields dev fl a) as (_ & _ & Heff & _).
    destruct (worker a) as [i|]; [|by apply Hkeep].
    destruct (Hthread i (stop dev fl) fl (closeEvent dev fl a) Heff)
      as (new & Hnew & Hc).
    { intros w Hw c Hc.
      destruct fl.
      - split; [done|]. by apply (stop_calls dev true w).
      - exfalso. apply (stop_at_test_no_call dev false w c); [by left|done]. }
    exists new. split; [done|]. intros c Hin.
    destruct (Hc c Hin) as [-> Hs]. exact Hs.
Qed.

(** X13. In every reachable state, every worker has the threshold 0.3
    and every call of the model carries it, and the device follows the
    mode: the calls a click on the start button makes are calls on the
    single image read, with no device; the calls a step of a thread
    makes (also a turn in flight that ends while the window stops or
    closes) are calls on a frame, on the cpu; no other event calls the
    model.  So every call made so far is one of the two. *)
Theorem model_always_called_with_threshold a :
  reachable a ->
  (forall i w, threads a !! i = Some w -> conf_threshold w = conf_0_3)
  /\ (forall ev,
        exists new,
          effects (step ev a) = effects a ++ new
          /\ forall c, ModelCall c ∈ new ->
               match ev with
               | ClickStart _ read =>
                   c = {| source := read; conf_arg := Some conf_0_3;
                          device_arg := None |}
               | Tick _ _ | ClickStop _ true | CloseWindow _ true =>
                   exists frame,
                     c = {| source := Some frame; conf_arg := Some conf_0_3;
                            device_arg := Some "cpu"%string |}
               | _ => False
               end)
  /\ (forall c, ModelCall c ∈ effects a ->
        (exists read,
            c = {| source := read; conf_arg := Some conf_0_3;
                   device_arg := None |})
        \/ (exists frame,
              c = {| source := Some frame; conf_arg := Some conf_0_3;
                     device_arg := Some "cpu"%string |})).
Proof.
  intros Hr. pose proof (reachable_calls_invariant a Hr) as Hci.
  destruct Hci as (I1 & I2 & I3).
  split; [exact I1|]. split; [|exact I2].
  intros ev. exact (step_new_calls ev a (conj I1 (conj I2 I3))).
Qed.

Lemma model_always_called_with_threshold_witness :
  exists new,
    effects (step (Tick 0 demo_device) streaming) = effects streaming ++ new
    /\ Forall (fun e => match e with
                        | ModelCall c =>
                            c = {| source := Some Recommend.blank;
                                   conf_arg := Some conf_0_3;
                                   device_arg := Some "cpu"%string |}
                        | _ => True
                        end) new.
Proof.
  destruct (proj1 (proj2 (model_always_called_with_threshold streaming
                            (reachable_steps _ init reach_init)))
              (Tick 0 demo_device)) as (new & Hnew & _).
  exists new. split; [exact Hnew|].
  assert (Hn : new = [ModelCall (frame_call demo_worker Recommend.blank)]).
  { apply (app_inv_head (effects streaming)). rewrite <- Hnew.
    vm_compute. reflexivity. }
  rewrite Hn. by apply Forall_singleton.
Defined.

(** *** The slot of [frame_ready] *)

Lemma extract_stats_shape w boxes stats :
  extract_stats w boxes = Some stats ->
  exists ls,
    labels_of (names (w_model w)) boxes = Some ls
    /\ counted ls (class_distribution stats)
    /\ total_objects stats = Z.of_nat (List.length boxes)
    /\ total_objects stats = sum_values (class_distribution stats)
    /\ (boxes = [] ->
        class_distribution stats = [] /\ avg_confidence stats = PyInt 0)
    /\ (boxes <> [] -> exists f, avg_confidence stats = PyFloat f).
Proof.
  intros Hex.
  destruct (labels_of (names (w_model w)) boxes) as [ls|] eqn:Hl.
  2:{ unfold extract_stats in Hex.
      by rewrite (count_boxes_missing _ _ _ _ Hl) in Hex. }
  exists ls. split; [done|].
  destruct (count_boxes_spec _ _ [] (PyInt 0) ls Hl (or_introl eq_refl))
    as (counts & total & Hc & Hs & Hf).
  pose proof (count_boxes_counted _ _ _ _ [] ls _ _ counted_nil Hl Hc) as Hcd.
  unfold extract_stats in Hex. rewrite Hc in Hex.
  change (sum_values []) with 0 in Hs.
  destruct boxes as [|b boxes].
  - injection Hex as <-. simpl in Hc. injection Hc as <- _.
    split; [exact Hcd|]. simpl. repeat apply conj; try done.
  - destruct (Hf ltac:(done)) as [f ->].
    destruct (div_by_len (PyFloat f) _) as [avg|] eqn:Hd; [|done].
    injection Hex as <-. split; [exact Hcd|]. simpl class_distribution.
    simpl total_objects. simpl avg_confidence.
    split; [lia|]. split; [done|]. split; [done|].
    intros _. unfold div_by_len in Hd.
    destruct (float_of_int _) as [g|]; [|done].
    injection Hd as <-. by eexists.
Qed.

Lemma published_formats stats :
  published stats -> is_Some (stats_lines stats).
Proof.
  intros (w & boxes & Hex).
  destruct (extract_stats_shape w boxes stats Hex)
    as (ls & _ & _ & _ & _ & Hnil & Hcons).
  unfold stats_lines. destruct boxes as [|b boxes].
  - destruct (Hnil eq_refl) as [_ ->].
    assert (format_f 2 (PyInt 0) = Some "0.00"%string) as ->
      by (vm_compute; reflexivity).
    done.
  - destruct (Hcons ltac:(done)) as [f ->]. simpl. done.
Qed.

(** X14. The slot of [frame_ready] never fails on a signal a worker has
    sent: in every reachable state of a living window, delivering the
    oldest waiting signal shows its frame, writes the text of its
    statistics into the panel, takes it from the queue, and leaves the
    window alive. *)
Theorem frame_signal_is_displayed a frame stats q :
  reachable a -> life a = Alive -> queue a = (frame, stats) :: q ->
  exists text,
    stats_lines stats = Some text
    /\ step Deliver a
       = with_ui (set_stats_text text)
           (with_ui (set_image_label frame) (set_queue q a))
    /\ life (step Deliver a) = Alive.
Proof.
  intros Hr Hal Hq.
  destruct (reachable_calls_invariant a Hr) as (_ & _ & I3).
  assert (Hp : published stats).
  { apply (I3 (frame, stats)). rewrite Hq. apply list_elem_of_here. }
  destruct (published_formats stats Hp) as [text Ht].
  exists text. split; [done|].
  unfold step. rewrite Hal, Hq.
  unfold display_image_and_stats, update_stats. rewrite Ht.
  split; [done|]. simpl. done.
Qed.

Lemma frame_signal_is_displayed_witness :
  life (step Deliver (step (Tick 0 demo_device) streaming)) = Alive.
Proof.
  assert (Hr : reachable (step (Tick 0 demo_device) streaming)).
  { apply reach_step. unfold streaming. apply reachable_steps, reach_init. }
  assert (Hal : life (step (Tick 0 demo_device) streaming) = Alive)
    by (vm_compute; reflexivity).
  destruct (queue (step (Tick 0 demo_device) streaming))
    as [|[frame stats] q] eqn:Hq; [vm_compute in Hq; discriminate Hq|].
  destruct (frame_signal_is_displayed _ frame stats q Hr Hal Hq)
    as (text & _ & _ & H3).
  exact H3.
Defined.

(** X15. Every signal waiting in a reachable window carries statistics
    of one detection result: [total_objects] is not negative and is the
    sum of the class distribution, the distribution has each name once
    with a count of at least one, and the average confidence is the
    integer 0 exactly when nothing was detected and a float otherwise. *)
Theorem queued_statistics_well_formed a x :
  reachable a -> x ∈ queue a ->
  0 <= total_objects (snd x)
  /\ total_objects (snd x) = sum_values (class_distribution (snd x))
  /\ NoDup (Dict.keys (class_distribution (snd x)))
  /\ (forall name n, (name, n) ∈ class_distribution (snd x) -> 1 <= n)
  /\ (total_objects (snd x) = 0 ->
      class_distribution (snd x) = [] /\ avg_confidence (snd x) = PyInt 0)
  /\ (total_objects (snd x) <> 0 ->
      exists f, avg_confidence (snd x) = PyFloat f).
Proof.
  intros Hr Hx.
  destruct (reachable_calls_invariant a Hr) as (_ & _ & I3).
  destruct (I3 x Hx) as (w & boxes & Hex).
  destruct (extract_stats_shape w boxes _ Hex)
    as (ls & Hl & (Hnd & Hkeys & Hval) & Hlen & Hsum & Hnil & Hcons).
  repeat apply conj; try done.
  - lia.
  - intros name n Hin.
    pose proof (DictFacts.elem_get _ _ _ Hnd Hin) as Hg.
    pose proof (Hval name) as Hv. unfold Dict.get_default in Hv.
    rewrite Hg in Hv.
    assert (Hname : name ∈ ls) by (eapply Hkeys, DictFacts.elem_key, Hin).
    apply list_elem_of_In in Hname.
    apply (count_occ_In string_dec) in Hname. lia.
  - intros H0. apply Hnil. destruct boxes; [done|]. simpl in Hlen. lia.
  - intros H0. apply Hcons. intros ->. simpl in Hlen. lia.
Qed.

Lemma queued_statistics_well_formed_witness :
  Forall (fun x => total_objects (snd x) = sum_values (class_distribution (snd x)))
    (queue (step (Tick 0 demo_device) streaming)).
Proof.
  assert (Hr : reachable (step (Tick 0 demo_device) streaming)).
  { apply reach_step. unfold streaming. apply reachable_steps, reach_init. }
  apply Forall_forall. intros x Hx.
  exact (proj1 (proj2 (queued_statistics_well_formed _ x Hr Hx))).
Defined.

(** *** A step of a thread, seen from the window *)

Lemma advance_life i t a w :
  threads a !! i = Some w ->
  life (advance i t a)
  = match phase (after (t w)) with Failed => Aborted | _ => life a end.
Proof.
  intros Hw. unfold advance. rewrite Hw.
  by destruct (phase (after (t w))).
Qed.

Lemma advance_thread i t a w :
  threads a !! i = Some w -> threads (advance i t a) !! i = Some (after (t w)).
Proof.
  intros Hw. destruct (advance_fields i t a w Hw) as (_ & _ & _ & F4 & _).
  rewrite F4. apply list_lookup_insert_eq. by eapply lookup_lt_Some.
Qed.

(** *** Stopping and closing *)

Lemma worker_step_runs dev : thread_step_runs (worker_step dev).
Proof.
  intros w. unfold worker_step, loop_turn, leave_loop, runnable.
  destruct w as [m src th r [c|] fa []]; simpl;
    repeat case_match; simpl; split; intros; try done;
    split; intros; try done; by eexists.
Qed.

Lemma then_step_runs s t :
  thread_step_runs s -> thread_step_runs t ->
  thread_step_runs (fun w => then_step (s w) t).
Proof.
  intros Hs Ht w. destruct (Hs w) as [S1 S2].
  destruct (Ht (after (s w))) as [T1 T2].
  unfold then_step; simpl. split; [auto|].
  intros Hw Hnf. apply T2; [|done]. apply S2; [done|]. auto.
Qed.

Lemma clear_and_wait_runs dev : thread_step_runs (clear_and_wait dev).
Proof.
  apply (then_step_runs (fun w => worker_step dev (set_running false w))
           (worker_step dev)); [|apply worker_step_runs].
  intros w. apply (worker_step_runs dev (set_running false w)).
Qed.

(** With a turn in flight, [stop()] is that turn, a step of the thread,
    and then the leaving. *)
Lemma stop_in_flight dev w :
  phase w = Looping ->
  stop dev true w = then_step (worker_step dev w) (clear_and_wait dev)
  /\ worker_step dev w = loop_turn w.
Proof. intros Hp. unfold stop, worker_step. by rewrite Hp. Qed.

Lemma stop_at_test dev fl w :
  fl = false \/ phase w <> Looping -> stop dev fl w = clear_and_wait dev w.
Proof.
  intros Hfl. unfold stop. destruct fl; [|done].
  destruct Hfl as [?|Hp]; [done|]. by destruct (phase w).
Qed.

Lemma stop_runs dev fl : thread_step_runs (stop dev fl).
Proof.
  intros w. destruct fl.
  - assert (Hcase : phase w = Looping \/ phase w <> Looping).
    { destruct (phase w); auto; right; discriminate. }
    destruct Hcase as [Hp|Hp].
    + rewrite (proj1 (stop_in_flight dev w Hp)).
      apply (then_step_runs (worker_step dev) (clear_and_wait dev)
               (worker_step_runs dev) (clear_and_wait_runs dev)).
    + rewrite stop_at_test by (by right). apply clear_and_wait_runs.
  - rewrite stop_at_test by (by left). apply clear_and_wait_runs.
Qed.

Lemma alive_threads_quiet a a' :
  quiet a a' -> alive_threads a -> alive_threads a'.
Proof.
  intros (Ht & _ & _ & _ & _ & _ & Hl) Ha Hal i w Hi.
  rewrite Ht in Hi. by apply (Ha (Hl Hal) i w).
Qed.

Lemma alive_threads_advance i t a :
  thread_step_runs t -> alive_threads a -> alive_threads (advance i t a).
Proof.
  intros Ht Ha.
  destruct (threads a !! i) as [w|] eqn:Hw;
    [|unfold advance; by rewrite Hw].
  destruct (advance_fields i t a w Hw) as (_ & _ & _ & F4 & _ & _ & F7).
  intros Hal j w' Hj. destruct (F7 Hal) as [Hal0 Hnf].
  rewrite F4 in Hj.
  apply list_lookup_insert_Some in Hj as [(<- & <- & _)|[Hne Hj]].
  - apply (Ht w); [|done]. by apply (Ha Hal0 i w).
  - by apply (Ha Hal0 j w').
Qed.

Lemma alive_threads_step ev a :
  invariant a -> alive_threads a -> alive_threads (step ev a).
Proof.
  intros Hinv Ha. unfold step. destruct (life a) eqn:Hlife; [|done|done].
  destruct ev as [f b l|i|f|e r|dev fl|e f|i|i dev| |dev fl].
  - eapply alive_threads_quiet; [apply quiet_load_model|done].
  - destruct (i <? 3)%nat; [|done].
    eapply alive_threads_quiet; [apply quiet_select_input|done].
  - eapply alive_threads_quiet; [apply quiet_select_input_file|done].
  - destruct (startBtn (ui a)); [|done]. unfold start_detection.
    destruct (model a) as [m|];
      [|intros Hal i w Hi; by apply (Ha Hlife i w)].
    destruct (Nat.eq_dec (input_combo (ui a)) 2) as [->|Hne2].
    { eapply alive_threads_quiet; [apply quiet_process_single_image|done]. }
    set (src := match input_combo (ui a) with
                | O => Some (Camera 0)
                | _ => match file_path a with
                       | Some f => Some (File f)
                       | None => None
                       end
                end).
    assert (Hgoal :
      alive_threads
        match src with
        | None =>
            abort (with_ui (set_status_label "检测进行中")
                     (with_ui (set_buttons false true) a))
        | Some s =>
            set_threads (threads a ++ [new_worker m s conf_0_3])
              (set_worker (Some (List.length (threads a)))
                 (with_ui (set_status_label "检测进行中")
                    (with_ui (set_buttons false true) a)))
        end).
    { destruct src as [s|]; [|done].
      intros _ j w [Hold|[Hlen Hnew]]%lookup_app_Some;
        [by apply (Ha Hlife j w)|].
      destruct (j - List.length (threads a))%nat; [|done].
      injection Hnew as <-. by split. }
    destruct (input_combo (ui a)) as [|[|[|n]]]; try done.
  - destruct (stopBtn (ui a)); [|done]. unfold stop_detection.
    destruct (worker a) as [i|];
      [|intros Hal j w Hj; by apply (Ha Hlife j w)].
    pose proof (alive_threads_advance i (stop dev fl) a (stop_runs dev fl) Ha)
      as H1.
    intros Hal j w Hj. by apply (H1 Hal j w).
  - eapply alive_threads_quiet; [apply quiet_save_result, Hinv|done].
  - destruct (i <? 2)%nat; [|done].
    eapply alive_threads_quiet; [apply quiet_change_theme|done].
  - apply alive_threads_advance; [apply worker_step_runs|done].
  - destruct (queue a) as [|[frame stats] q] eqn:Hq; [done|].
    eapply alive_threads_quiet; [by apply quiet_deliver|done].
  - intros Hal'. by destruct (closeEvent_fields dev fl a) as (_ & _ & _ & _ & Hn).
Qed.

Lemma reachable_alive_threads a : reachable a -> alive_threads a.
Proof.
  induction 1 as [|ev a Hr IH].
  - intros _ i w Hi. done.
  - apply alive_threads_step; [by apply reachable_invariant|done].
Qed.

Lemma filter_none {A} (P : A -> Prop) `{forall x, Decision (P x)} (l : list A) :
  (forall x, x ∈ l -> ~ P x) -> filter P l = [].
Proof.
  induction l as [|y l IH]; intros Hl; [done|].
  rewrite filter_cons. destruct (decide (P y)) as [Hy|Hy].
  - exfalso. apply (Hl y); [apply list_elem_of_here|done].
  - apply IH. intros x Hx. apply Hl. by apply list_elem_of_further.
Qed.

(** Leaving at the test cannot fail for a thread that no exception has
    left. *)
Lemma clear_and_wait_not_failed dev w :
  runnable w -> phase (after (clear_and_wait dev w)) <> Failed.
Proof.
  intros [Hnf Hc].
  destruct w as [m src th r [c|] fa []]; simpl in *; try done.
  by destruct (Hc eq_refl).
Qed.

(** When [stop()] ends with the thread left by an exception, a turn was
    in flight and it is that turn that raised. *)
Lemma stop_failed dev fl w :
  runnable w -> phase (after (stop dev fl w)) = Failed ->
  fl = true /\ phase w = Looping /\ phase (after (loop_turn w)) = Failed.
Proof.
  intros Hw Hf.
  destruct fl.
  2:{ rewrite stop_at_test in Hf by (by left).
      by destruct (clear_and_wait_not_failed dev w Hw). }
  destruct (phase w) eqn:Hp;
    try (rewrite stop_at_test in Hf by (right; congruence);
         by destruct (clear_and_wait_not_failed dev w Hw)).
  destruct (stop_in_flight dev w Hp) as [Hs Hl].
  split; [done|]. split; [done|].
  rewrite Hs, after_then_step, Hl in Hf.
  destruct (worker_step_runs dev w) as [_ Hrun]. rewrite Hl in Hrun.
  destruct (phase (after (loop_turn w))) eqn:Hq; [| | |done]; exfalso.
  all: apply (clear_and_wait_not_failed dev (after (loop_turn w))); [|done].
  all: apply Hrun; [exact Hw|done].
Qed.

(** After [worker.stop()] on the worker the window refers to, no thread
    is in [run]; a thread holds an open capture only if it is the one
    stopped and an exception has left it; the signals of the turn in
    flight, if any, have joined the queue. *)
Lemma stopped_threads dev fl a :
  invariant a -> alive_threads a -> life a = Alive ->
  let a' := match worker a with
            | Some i => advance i (stop dev fl) a
            | None => a
            end in
  (forall j w, threads a' !! j = Some w ->
     active w = false
     /\ (holds_source w = true -> fl = true /\ phase w = Failed))
  /\ (life a' = Alive \/ life a' = Aborted)
  /\ (life a' = Aborted ->
      exists i w, worker a = Some i /\ threads a !! i = Some w
                  /\ fl = true /\ phase w = Looping
                  /\ phase (after (loop_turn w)) = Failed)
  /\ (life a' = Alive ->
      forall j w, threads a' !! j = Some w -> phase w <> Failed)
  /\ exists sent,
       queue a' = queue a ++ sent
       /\ (List.length sent <= 1)%nat
       /\ (fl = false -> sent = [])
       /\ (forall i w, worker a = Some i -> threads a !! i = Some w ->
             phase w = Looping -> fl = true -> sent = emitted (loop_turn w)).
Proof.
  intros (_ & _ & _ & I4) Hat Hal.
  assert (Hidle : forall j w,
            worker a <> Some j -> threads a !! j = Some w ->
            active w = false /\ holds_source w = false).
  { intros j w Hne Hj. destruct (I4 j w Hj) as (_ & Hact & Hh).
    assert (Ha : active w = false).
    { destruct (active w); [|done]. by destruct (Hact eq_refl). }
    split; [done|]. destruct (holds_source w); [|done].
    rewrite (Hh Hal eq_refl) in Ha. done. }
  assert (Hnone : (forall j w, threads a !! j = Some w ->
                     worker a <> Some j) ->
            (forall j w, threads a !! j = Some w ->
               active w = false
               /\ (holds_source w = true -> fl = true /\ phase w = Failed))
            /\ (life a = Alive \/ life a = Aborted)
            /\ (life a = Aborted ->
                exists i w, worker a = Some i /\ threads a !! i = Some w
                            /\ fl = true /\ phase w = Looping
                            /\ phase (after (loop_turn w)) = Failed)
            /\ (life a = Alive ->
                forall j w, threads a !! j = Some w -> phase w <> Failed)
            /\ exists sent,
                 queue a = queue a ++ sent
                 /\ (List.length sent <= 1)%nat
                 /\ (fl = false -> sent = [])
                 /\ (forall i w, worker a = Some i -> threads a !! i = Some w ->
                       phase w = Looping -> fl = true ->
                       sent = emitted (loop_turn w))).
  { intros Hno. split; [|split; [by left|split; [congruence|split]]].
    - intros j w Hj. destruct (Hidle j w (Hno j w Hj) Hj) as [H1 H2].
      split; [done|]. congruence.
    - intros _ j w Hj. by apply (Hat Hal j w).
    - exists []. rewrite app_nil_r. repeat apply conj; try done.
      + simpl. lia.
      + intros i w Hi Hw. by destruct (Hno i w Hw). }
  destruct (worker a) as [i|] eqn:Hw; simpl; [|by apply Hnone].
  destruct (threads a !! i) as [wi|] eqn:Hi.
  2:{ unfold advance. rewrite Hi. apply Hnone.
      intros j w Hj [= ->]. congruence. }
  destruct (advance_fields i (stop dev fl) a wi Hi)
    as (_ & _ & F3 & F4 & _).
  pose proof (advance_life i (stop dev fl) a wi Hi) as Hlife.
  pose proof (Hat Hal i wi Hi) as Hrun.
  destruct (stop_ok dev fl wi) as (_ & _ & _ & _ & O5).
  destruct (I4 i wi Hi) as (_ & _ & Hact).
  assert (Hhold : holds_source (after (stop dev fl wi)) = true ->
                  phase (after (stop dev fl wi)) = Failed).
  { intros Hh. destruct (phase (after (stop dev fl wi))) eqn:Hp; [| | |done];
      exfalso;
      (assert (Hac : active (after (stop dev fl wi)) = true);
       [apply O5; [by apply Hact|done|done]|]);
      by rewrite stop_inactive in Hac. }
  split; [|split; [|split; [|split]]].
  - intros j w Hj. rewrite F4 in Hj.
    apply list_lookup_insert_Some in Hj as [(<- & <- & _)|[Hne Hj]].
    + split; [apply stop_inactive|]. intros Hh.
      pose proof (Hhold Hh) as Hf.
      by destruct (stop_failed dev fl wi Hrun Hf) as (-> & _ & _).
    + destruct (Hidle j w) as [H1 H2]; [congruence|done|].
      split; [done|]. congruence.
  - rewrite Hlife, Hal. destruct (phase (after (stop dev fl wi))); auto.
  - rewrite Hlife, Hal. intros Hab.
    assert (Hf : phase (after (stop dev fl wi)) = Failed).
    { by destruct (phase (after (stop dev fl wi))). }
    destruct (stop_failed dev fl wi Hrun Hf) as (H1 & H2 & H3).
    by exists i, wi.
  - rewrite Hlife, Hal. intros Hlive j w Hj. rewrite F4 in Hj.
    apply list_lookup_insert_Some in Hj as [(<- & <- & _)|[Hne Hj]].
    + intros Hf. by rewrite Hf in Hlive.
    + by apply (Hat Hal j w).
  - exists (emitted (stop dev fl wi)). split; [exact F3|].
    destruct fl.
    + destruct (phase wi) eqn:Hp.
      all: try (rewrite stop_at_test by (right; congruence);
                destruct (clear_and_wait_silent dev wi) as (-> & _);
                repeat apply conj; try done; simpl; try lia;
                intros i' w' [= <-]; rewrite Hi; intros [= <-]; congruence).
      destruct (stop_in_flight dev wi Hp) as [Hs Hl].
      destruct (clear_and_wait_silent dev (after (loop_turn wi))) as (L1 & _).
      rewrite Hs, emitted_then_step, Hl, L1, app_nil_r.
      repeat apply conj; try done.
      * apply loop_turn_emits_one.
      * intros i' w' [= <-]. rewrite Hi. by intros [= <-].
    + rewrite stop_at_test by (by left).
      destruct (clear_and_wait_silent dev wi) as (-> & _).
      repeat apply conj; try done. simpl. lia.
Qed.

(** X16. In every reachable state of a living window, [stop_detection]
    leaves the window idle: [worker] is cleared, the start button is
    enabled and the stop button disabled, the status says so, and no
    thread is left in [run].  A turn of the loop that is in flight ends
    first: its signal, one at most, joins the queue while
    [stop_detection] runs, and when that turn raises the process ends.
    Otherwise, and always when no turn is in flight, the window stays
    alive, no capture is left open, and without a turn in flight no
    signal is added. *)
Theorem stop_detection_leaves_idle dev in_flight a :
  reachable a -> life a = Alive ->
  let a' := stop_detection dev in_flight a in
  worker a' = None
  /\ startBtn (ui a') = true
  /\ stopBtn (ui a') = false
  /\ status_label (ui a') = "已停止检测"%string
  /\ (forall j w, threads a' !! j = Some w -> active w = false)
  /\ (life a' = Alive \/ life a' = Aborted)
  /\ (life a' = Aborted ->
      exists i w, worker a = Some i /\ threads a !! i = Some w
                  /\ in_flight = true /\ phase w = Looping
                  /\ phase (after (loop_turn w)) = Failed)
  /\ (life a' = Alive ->
      (forall j w, threads a' !! j = Some w -> holds_source w = false)
      /\ open_sources a' = 0%nat)
  /\ exists sent,
       queue a' = queue a ++ sent
       /\ (List.length sent <= 1)%nat
       /\ (in_flight = false -> sent = [])
       /\ (forall i w, worker a = Some i -> threads a !! i = Some w ->
             phase w = Looping -> in_flight = true ->
             sent = emitted (loop_turn w)).
Proof.
  intros Hr Hal.
  pose proof (reachable_invariant a Hr) as Hinv.
  pose proof (reachable_alive_threads a Hr) as Hat.
  destruct (stopped_threads dev in_flight a Hinv Hat Hal)
    as (Hth & Hlife & Hab & Hnf & Hq).
  assert (Hsame : forall (P : YOLODetector -> Prop),
            (forall b, P (set_worker None b) <-> P b) ->
            P match worker a with
              | Some i => advance i (stop dev in_flight) a
              | None => a
              end ->
            P match worker a with
              | Some i => set_worker None (advance i (stop dev in_flight) a)
              | None => a
              end).
  { intros P HP. destruct (worker a); [by apply HP|done]. }
  assert (Hthreads : forall j w,
            threads (stop_detection dev in_flight a) !! j = Some w ->
            active w = false
            /\ (holds_source w = true -> in_flight = true /\ phase w = Failed)).
  { unfold stop_detection. simpl.
    apply (Hsame (fun b => forall j w, threads b !! j = Some w ->
                    active w = false
                    /\ (holds_source w = true ->
                        in_flight = true /\ phase w = Failed)));
      [done|exact Hth]. }
  assert (Hlive : life (stop_detection dev in_flight a) = Alive ->
                  forall j w,
                    threads (stop_detection dev in_flight a) !! j = Some w ->
                    phase w <> Failed).
  { unfold stop_detection. simpl.
    apply (Hsame (fun b => life b = Alive -> forall j w,
                    threads b !! j = Some w -> phase w <> Failed));
      [done|exact Hnf]. }
  simpl. split; [by destruct (worker a) eqn:Hw|].
  split; [done|]. split; [done|]. split; [done|].
  split; [intros j w Hj; by destruct (Hthreads j w Hj)|].
  split.
  { unfold stop_detection. simpl.
    apply (Hsame (fun b => life b = Alive \/ life b = Aborted)); done. }
  split.
  { unfold stop_detection. simpl.
    apply (Hsame (fun b => life b = Aborted -> _)); [done|exact Hab]. }
  split.
  - intros Hl.
    assert (Hno : forall j w,
              threads (stop_detection dev in_flight a) !! j = Some w ->
              holds_source w = false).
    { intros j w Hj. destruct (Hthreads j w Hj) as [_ Hh].
      destruct (holds_source w); [|done].
      destruct (Hh eq_refl) as [_ Hf]. by destruct (Hlive Hl j w Hj). }
    split; [exact Hno|].
    unfold open_sources. rewrite filter_none; [done|].
    intros w [j Hj]%list_elem_of_lookup. rewrite (Hno j w Hj). done.
  - unfold stop_detection. simpl.
    apply (Hsame (fun b => exists sent, queue b = queue a ++ sent /\ _));
      [done|exact Hq].
Qed.

Lemma stop_detection_leaves_idle_witness :
  open_sources (stop_detection demo_device true streaming) = 0%nat
  /\ List.length (queue (stop_detection demo_device true streaming)) = 1%nat.
Proof.
  assert (Hal : life streaming = Alive) by (vm_compute; reflexivity).
  pose proof (stop_detection_leaves_idle demo_device true streaming
                (reachable_steps _ init reach_init) Hal)
    as (_ & _ & _ & _ & _ & _ & _ & H8 & _).
  split; [|vm_compute; reflexivity].
  apply H8. vm_compute. reflexivity.
Defined.

(** X17. Closing a living window in a reachable state stops the worker:
    no thread is left in [run] and nothing happens afterwards.  When no
    turn of the loop is in flight the process ends closed and no capture
    is left open.  With a turn in flight the process ends closed as
    well, with no capture left open, unless that turn raises: then the
    process is ended by that exception, and the capture of that thread
    is the only one left open. *)
Theorem close_stops_the_worker dev in_flight a :
  reachable a -> life a = Alive ->
  let a' := closeEvent dev in_flight a in
  (life a' = Closed \/ life a' = Aborted)
  /\ (life a' = Aborted ->
      exists i w, worker a = Some i /\ threads a !! i = Some w
                  /\ in_flight = true /\ phase w = Looping
                  /\ phase (after (loop_turn w)) = Failed)
  /\ (forall j w, threads a' !! j = Some w ->
        active w = false
        /\ (holds_source w = true -> in_flight = true /\ phase w = Failed))
  /\ (life a' = Closed ->
      (forall j w, threads a' !! j = Some w ->
         active w = false /\ holds_source w = false)
      /\ open_sources a' = 0%nat)
  /\ (in_flight = false -> life a' = Closed)
  /\ (forall ev, step ev a' = a').
Proof.
  intros Hr Hal.
  pose proof (reachable_invariant a Hr) as Hinv.
  pose proof (reachable_alive_threads a Hr) as Hat.
  destruct (stopped_threads dev in_flight a Hinv Hat Hal)
    as (Hth & Hlife & Hab & Hnf & _).
  destruct (closeEvent_fields dev in_flight a) as (_ & _ & _ & Hthr & Hna).
  assert (Hthreads : forall j w,
            threads (closeEvent dev in_flight a) !! j = Some w ->
            active w = false
            /\ (holds_source w = true -> in_flight = true /\ phase w = Failed)).
  { intros j w Hj. rewrite Hthr in Hj. by apply (Hth j w). }
  assert (Hclosed : life (closeEvent dev in_flight a) = Closed ->
                    forall j w,
                      threads (closeEvent dev in_flight a) !! j = Some w ->
                      phase w <> Failed).
  { intros Hc j w Hj. rewrite Hthr in Hj. apply (Hnf) with (j := j); [|done].
    destruct (closeEvent_cases dev in_flight a) as [[Heq Hl]|[Heq Hl]].
    - rewrite Heq in Hc. congruence.
    - by destruct Hlife. }
  simpl. split; [|split; [|split; [exact Hthreads|split; [|split]]]].
  - destruct (closeEvent_cases dev in_flight a) as [[-> Hl]|[-> Hl]];
      [by right|by left].
  - intros Hl. apply Hab.
    destruct (closeEvent_cases dev in_flight a) as [[Heq Hl']|[Heq Hl']];
      [done|]. by rewrite Heq in Hl.
  - intros Hc.
    assert (Hno : forall j w,
              threads (closeEvent dev in_flight a) !! j = Some w ->
              active w = false /\ holds_source w = false).
    { intros j w Hj. destruct (Hthreads j w Hj) as [Ha Hh].
      split; [done|]. destruct (holds_source w); [|done].
      destruct (Hh eq_refl) as [_ Hf]. by destruct (Hclosed Hc j w Hj). }
    split; [exact Hno|].
    unfold open_sources. rewrite filter_none; [done|].
    intros w [j Hj]%list_elem_of_lookup. destruct (Hno j w Hj). congruence.
  - intros ->.
    destruct (closeEvent_cases dev false a) as [[Heq Hl]|[-> Hl]]; [|done].
    by destruct (Hab Hl) as (? & ? & _ & _ & ? & _).
  - intros ev. unfold step.
    destruct (life (closeEvent dev in_flight a)); done.
Qed.

Lemma close_stops_the_worker_witness :
  open_sources (closeEvent demo_device false streaming) = 0%nat.
Proof.
  assert (Hal : life streaming = Alive) by (vm_compute; reflexivity).
  pose proof (close_stops_the_worker demo_device false streaming
                (reachable_steps _ init reach_init) Hal)
    as (_ & _ & _ & H4 & H5 & _).
  exact (proj2 (H4 (H5 eq_refl))).
Defined.

(** *** What can end the process *)

Lemma deliver_alive a frame stats q :
  calls_invariant a -> life a = Alive -> queue a = (frame, stats) :: q ->
  life (display_image_and_stats frame stats (set_queue q a)) = Alive.
Proof.
  intros (_ & _ & I3) Hal Hq.
  assert (Hp : published stats).
  { apply (I3 (frame, stats)). rewrite Hq. apply list_elem_of_here. }
  destruct (published_formats stats Hp) as [text Ht].
  unfold display_image_and_stats, update_stats. by rewrite Ht.
Qed.

(** X18. In a reachable state of a living window, only two things can
    end the process with an unhandled exception: a click on the start
    button, or a step of a worker thread, be it given by the scheduler
    or the turn of the loop that is in flight when the stop button is
    clicked or the window closed and that ends, by its exception, while
    [stop()] waits.  Loading a model, choosing an input or a file,
    stopping or closing with no turn in flight, saving, changing the
    theme and delivering a signal never do. *)
Theorem only_start_or_thread_can_fail a ev :
  reachable a -> life a = Alive -> life (step ev a) = Aborted ->
  (exists e r, ev = ClickStart e r)
  \/ (exists i dev, ev = Tick i dev)
  \/ (exists dev i w,
        (ev = ClickStop dev true \/ ev = CloseWindow dev true)
        /\ worker a = Some i /\ threads a !! i = Some w
        /\ phase w = Looping /\ phase (after (loop_turn w)) = Failed).
Proof.
  intros Hr Hal Hab.
  pose proof (reachable_invariant a Hr) as Hinv.
  pose proof (reachable_alive_threads a Hr) as Hat.
  pose proof (reachable_calls_invariant a Hr) as Hci.
  destruct Hinv as (Hlast & Hinv').
  unfold step in Hab. rewrite Hal in Hab.
  destruct ev as [f b l|i|f|e r|dev fl|e f|i|i dev| |dev fl].
  - exfalso. unfold load_model in Hab.
    destruct f; [simpl in Hab; congruence|].
    destruct l; simpl in Hab; congruence.
  - exfalso. destruct (i <? 3)%nat; simpl in Hab; congruence.
  - exfalso. unfold select_input_file in Hab.
    destruct (input_combo (ui a)) as [|[|[|n]]]; simpl in Hab; congruence.
  - left. by exists e, r.
  - right. right. destruct (stopBtn (ui a)); [|congruence].
    destruct (stopped_threads dev fl a (conj Hlast Hinv') Hat Hal)
      as (_ & _ & Hfail & _).
    unfold stop_detection in Hab. simpl in Hab.
    destruct (worker a) as [i|] eqn:Hw; [|congruence].
    simpl in Hab, Hfail.
    destruct (Hfail Hab) as (i' & w & [= <-] & Hi & -> & Hp & Hf).
    exists dev, i, w. split; [by left|done].
  - exfalso. unfold save_result in Hab. rewrite Hlast in Hab.
    simpl in Hab. congruence.
  - exfalso. destruct (i <? 2)%nat; simpl in Hab; congruence.
  - right. left. by exists i, dev.
  - exfalso. destruct (queue a) as [|[frame stats] q] eqn:Hq; [congruence|].
    rewrite (deliver_alive a frame stats q Hci Hal Hq) in Hab. done.
  - right. right.
    destruct (stopped_threads dev fl a (conj Hlast Hinv') Hat Hal)
      as (_ & _ & Hfail & _).
    destruct (closeEvent_cases dev fl a) as [[Heq Hl]|[Heq Hl]];
      [|by rewrite Heq in Hab].
    destruct (Hfail Hl) as (i & w & Hw & Hi & -> & Hp & Hf).
    exists dev, i, w. split; [by right|done].
Qed.

Lemma only_start_or_thread_can_fail_witness :
  (exists e r, ClickStart false None = ClickStart e r)
  \/ (exists i dev, ClickStart false None = Tick i dev)
  \/ (exists dev i w,
        (ClickStart false None = ClickStop dev true
         \/ ClickStart false None = CloseWindow dev true)
        /\ worker (steps [ClickLoadModel "best.pt" "best.pt"
                            (LoadOk (Recommend.demo_model [1; 1; 3]));
                          SelectInput 1] init) = Some i
        /\ threads (steps [ClickLoadModel "best.pt" "best.pt"
                             (LoadOk (Recommend.demo_model [1; 1; 3]));
                           SelectInput 1] init) !! i = Some w
        /\ phase w = Looping /\ phase (after (loop_turn w)) = Failed).
Proof.
  apply (only_start_or_thread_can_fail
           (steps [ClickLoadModel "best.pt" "best.pt"
                     (LoadOk (Recommend.demo_model [1; 1; 3]));
                   SelectInput 1] init)).
  - apply reachable_steps, reach_init.
  - vm_compute. reflexivity.
  - vm_compute. reflexivity.
Defined.

(** *** The steps of the scheduler and [run] *)

Lemma steps_dead evs : forall a, life a <> Alive -> steps evs a = a.
Proof.
  induction evs as [|ev evs IH]; intros a Ha; [done|].
  change (steps (ev :: evs) a) with (steps evs (step ev a)).
  assert (Hs : step ev a = a).
  { unfold step. by destruct (life a). }
  rewrite Hs. by apply IH.
Qed.

Lemma advance_ext i s t a w :
  threads a !! i = Some w -> s w = t w -> advance i s a = advance i t a.
Proof. intros Hw Hst. unfold advance. by rewrite Hw, Hst. Qed.

Lemma advance_idle i a w :
  threads a !! i = Some w -> phase w <> Failed ->
  advance i (fun w => {| after := w; emitted := []; done := [] |}) a = a.
Proof.
  intros Hw Hp. unfold advance. rewrite Hw. simpl.
  rewrite (list_insert_id _ _ _ Hw).
  destruct a; unfold perform, set_queue, set_threads; simpl in *.
  rewrite !app_nil_r. by destruct (phase w).
Qed.

Lemma advance_eq i t a w :
  threads a !! i = Some w ->
  advance i t a
  = {| model := model a; model_path := model_path a; save_dir := save_dir a;
       worker := worker a; dark_theme := dark_theme a;
       file_path := file_path a; last_image := last_image a; ui := ui a;
       threads := <[i := after (t w)]> (threads a);
       queue := queue a ++ emitted (t w);
       effects := effects a ++ done (t w);
       life := match phase (after (t w)) with
               | Failed => Aborted
               | _ => life a
               end |}.
Proof.
  intros Hw. unfold advance. rewrite Hw.
  destruct (phase (after (t w))); reflexivity.
Qed.

Lemma advance_then i s t a w :
  threads a !! i = Some w -> phase (after (s w)) <> Failed ->
  advance i t (advance i s a) = advance i (fun w => then_step (s w) t) a.
Proof.
  intros Hw Hp.
  pose proof (lookup_lt_Some _ _ _ Hw) as Hlt.
  rewrite (advance_eq i s a w Hw).
  rewrite (advance_eq i (fun w => then_step (s w) t) a w Hw).
  erewrite advance_eq; [|simpl; by apply list_lookup_insert_eq].
  simpl. rewrite list_insert_insert_eq, <- !app_assoc.
  by destruct (phase (after (s w))).
Qed.

Lemma advance_failed i s t a w :
  threads a !! i = Some w -> phase (after (s w)) = Failed ->
  t (after (s w)) = {| after := after (s w); emitted := []; done := [] |} ->
  advance i (fun w => then_step (s w) t) a = advance i s a.
Proof.
  intros Hw Hp Ht. unfold advance. rewrite Hw. unfold then_step.
  rewrite Ht. simpl. by rewrite !app_nil_r.
Qed.

Lemma loop_turn_phase w :
  phase w = Looping ->
  phase (after (loop_turn w)) = Looping
  \/ phase (after (loop_turn w)) = Finished
  \/ phase (after (loop_turn w)) = Failed.
Proof.
  intros Hp. unfold loop_turn, leave_loop.
  destruct w as [m src th r [c|] fa ph]; simpl in *; subst ph;
    repeat case_match; simpl; auto.
Qed.

Lemma ticks_turns i dev n : forall a w,
  life a = Alive -> threads a !! i = Some w ->
  phase w = Looping \/ phase w = Finished ->
  steps (replicate n (Tick i dev)) a = advance i (turns n) a.
Proof.
  induction n as [|n IH]; intros a w Hal Hw Hp.
  - simpl. symmetry. apply (advance_idle i a w Hw).
    destruct Hp as [Hp|Hp]; rewrite Hp; done.
  - change (steps (replicate (S n) (Tick i dev)) a)
      with (steps (replicate n (Tick i dev)) (step (Tick i dev) a)).
    assert (Hstep : step (Tick i dev) a = advance i (worker_step dev) a).
    { unfold step. by rewrite Hal. }
    rewrite Hstep. destruct Hp as [Hp|Hp].
    + assert (Hws : worker_step dev w = loop_turn w).
      { unfold worker_step. by rewrite Hp. }
      rewrite (advance_ext i (worker_step dev) loop_turn a w Hw Hws).
      rewrite (advance_ext i (turns (S n))
                 (fun w => then_step (loop_turn w) (turns n)) a w Hw
                 (turns_looping n w Hp)).
      destruct (loop_turn_phase w Hp) as [Hq|[Hq|Hq]].
      * rewrite <- (advance_then i loop_turn (turns n) a w Hw)
          by (rewrite Hq; done).
        apply (IH _ (after (loop_turn w))).
        -- rewrite (advance_life i loop_turn a w Hw), Hq. done.
        -- by apply advance_thread.
        -- by left.
      * rewrite <- (advance_then i loop_turn (turns n) a w Hw)
          by (rewrite Hq; done).
        apply (IH _ (after (loop_turn w))).
        -- rewrite (advance_life i loop_turn a w Hw), Hq. done.
        -- by apply advance_thread.
        -- by right.
      * rewrite (advance_failed i loop_turn (turns n) a w Hw Hq)
          by (apply turns_not_looping; rewrite Hq; done).
        apply steps_dead.
        rewrite (advance_life i loop_turn a w Hw), Hq. done.
    + assert (Hws : worker_step dev w
                    = {| after := w; emitted := []; done := [] |}).
      { unfold worker_step. by rewrite Hp. }
      rewrite (advance_ext i (worker_step dev)
                 (fun w => {| after := w; emitted := []; done := [] |})
                 a w Hw Hws).
      rewrite (advance_idle i a w Hw) by (rewrite Hp; done).
      rewrite (IH a w Hal Hw (or_intror Hp)).
      apply (advance_ext i _ _ a w Hw).
      rewrite !turns_not_looping by (rewrite Hp; done). done.
Qed.

(** X19. A video played to its end.  From a living window with a
    worker that has just been started, on a device that opens and gives
    some frames and then a failed read, all frames being processed
    without exception: once the scheduler has let the thread make its
    steps (the opening, one turn per frame, and the turn of the failed
    read), the signals of the frames have joined the queue in order,
    the effects are the opening, one call of the model per frame, in
    order, with the threshold of the worker on the cpu, and the release;
    the thread is out of [run] with [running] cleared and its capture
    released; the window is alive and its widgets and [worker] are as
    they were, the start button included; further steps of the thread
    change nothing. *)
Theorem video_plays_to_its_end a i m src th dev frames rest out :
  life a = Alive -> threads a !! i = Some (new_worker m src th) ->
  is_opened dev = true ->
  feed dev = map ReadOk frames ++ ReadFail :: rest ->
  publish_all (new_worker m src th) frames = Some out ->
  let a' := steps (replicate (2 + List.length frames) (Tick i dev)) a in
  life a' = Alive
  /\ queue a' = queue a ++ out
  /\ effects a'
     = effects a
       ++ OpenSource src
          :: map (fun f => ModelCall {| source := Some f; conf_arg := Some th;
                                        device_arg := Some "cpu"%string |})
               frames
          ++ [ReleaseSource src]
  /\ (exists w',
        threads a' !! i = Some w'
        /\ phase w' = Finished /\ running w' = false
        /\ holds_source w' = false)
  /\ ui a' = ui a
  /\ worker a' = worker a
  /\ (forall dev', step (Tick i dev') a' = a').
Proof.
  intros Hal Hw Ho Hf Hpub a'.
  set (w0 := new_worker m src th) in *.
  set (w1 := set_phase Looping (set_cap dev w0)).
  set (n := S (List.length frames)).
  assert (Hpub1 : publish_all w1 frames = Some out).
  { unfold w1. by rewrite publish_all_set_phase, publish_all_set_cap. }
  destruct (turns_until_failed_read rest frames n w1 dev out)
    as (T1 & T2 & T3 & T4); try done; [unfold n; lia|].
  pose proof (turns_done_until_failed_read rest frames n w1 dev out
                eq_refl eq_refl eq_refl Ho Hf Hpub1 ltac:(unfold n; lia))
    as T5.
  set (a1 := advance i (worker_step dev) a).
  assert (Ha1 : a1 = {| model := model a; model_path := model_path a;
                        save_dir := save_dir a; worker := worker a;
                        dark_theme := dark_theme a; file_path := file_path a;
                        last_image := last_image a; ui := ui a;
                        threads := <[i := w1]> (threads a);
                        queue := queue a ++ [];
                        effects := effects a ++ [OpenSource src];
                        life := life a |}).
  { unfold a1. by rewrite (advance_eq i (worker_step dev) a w0 Hw). }
  assert (Hw1 : threads a1 !! i = Some w1).
  { unfold a1. exact (advance_thread i (worker_step dev) a w0 Hw). }
  assert (Hal1 : life a1 = Alive) by (by rewrite Ha1).
  assert (Ha' : a' = advance i (turns n) a1).
  { unfold a'.
    change (steps (replicate (2 + List.length frames) (Tick i dev)) a)
      with (steps (replicate n (Tick i dev)) (step (Tick i dev) a)).
    assert (Hstep : step (Tick i dev) a = a1).
    { unfold step. by rewrite Hal. }
    rewrite Hstep. apply (ticks_turns i dev n a1 w1 Hal1 Hw1). by left. }
  assert (Hfin : threads a' !! i = Some (after (turns n w1))).
  { rewrite Ha'. exact (advance_thread i (turns n) a1 w1 Hw1). }
  rewrite (advance_eq i (turns n) a1 w1 Hw1) in Ha'.
  rewrite T1, T2, T5 in Ha'.
  assert (Hlife : life a' = Alive) by (by rewrite Ha', Hal1).
  split; [exact Hlife|].
  split; [by rewrite Ha', Ha1; simpl; rewrite app_nil_r|].
  split.
  { rewrite Ha', Ha1. simpl. by rewrite <- app_assoc. }
  split.
  { exists (after (turns n w1)). split; [exact Hfin|].
    split; [done|]. split; [done|]. unfold holds_source. by rewrite T4. }
  split; [by rewrite Ha', Ha1|]. split; [by rewrite Ha', Ha1|].
  intros dev'. unfold step. rewrite Hlife.
  rewrite (advance_ext i (worker_step dev')
             (fun w => {| after := w; emitted := []; done := [] |})
             a' _ Hfin); [|unfold worker_step; by rewrite T2].
  apply (advance_idle i a' _ Hfin). by rewrite T2.
Qed.

Lemma video_plays_to_its_end_witness :
  List.length
    (queue (steps (replicate 3 (Tick 0 demo_device))
              (steps [ClickLoadModel "best.pt" "best.pt"
                        (LoadOk (Recommend.demo_model [1; 1; 3]));
                      ClickStart false None] init)))
  = 1%nat.
Proof.
  assert (Hq : exists out,
             publish_all demo_worker [Recommend.blank] = Some out
             /\ List.length out = 1%nat).
  { eexists. split; vm_compute; reflexivity. }
  destruct Hq as (out & Hout & Hlen).
  destruct (video_plays_to_its_end
              (steps [ClickLoadModel "best.pt" "best.pt"
                        (LoadOk (Recommend.demo_model [1; 1; 3]));
                      ClickStart false None] init)
              0%nat (Recommend.demo_model [1; 1; 3]) (Camera 0) conf_0_3
              demo_device [Recommend.blank] [ReadOk Recommend.blank] out
              ltac:(vm_compute; reflexivity) ltac:(vm_compute; reflexivity)
              eq_refl eq_refl Hout) as (_ & H2 & _).
  change (2 + List.length [Recommend.blank])%nat with 3%nat in H2.
  rewrite H2, length_app, Hlen. vm_compute. reflexivity.
Defined.

(** *** The buttons *)

Lemma advance_ui i t a : ui (advance i t a) = ui a.
Proof.
  unfold advance. destruct (threads a !! i) as [w|]; [|done].
  by destruct (phase (after (t w))).
Qed.

Lemma buttons_step ev a :
  (startBtn (ui a) = false -> stopBtn (ui a) = true) ->
  startBtn (ui (step ev a)) = false -> stopBtn (ui (step ev a)) = true.
Proof.
  intros Hb. unfold step. destruct (life a); [|done|done].
  destruct ev as [f b l|i|f|e r|dev fl|e f|i|i dev| |dev fl].
  - unfold load_model. destruct f; [done|]. by destruct l.
  - by destruct (i <? 3)%nat.
  - unfold select_input_file. by destruct (input_combo (ui a)) as [|[|[|n]]].
  - destruct (startBtn (ui a)) eqn:Hs; [|by rewrite Hs].
    unfold start_detection, process_single_image, update_stats.
    repeat case_match; simpl; intros; try done; congruence.
  - destruct (stopBtn (ui a)) eqn:Hst; [|intros Hs; by apply Hb in Hs].
    unfold stop_detection. simpl. done.
  - unfold save_result. repeat case_match; simpl; done.
  - by destruct (i <? 2)%nat.
  - by rewrite advance_ui.
  - destruct (queue a) as [|[frame stats] q]; [done|].
    unfold display_image_and_stats, update_stats.
    by destruct (stats_lines stats).
  - destruct (closeEvent_fields dev fl a) as (-> & _).
    destruct (worker a); [|done]. by rewrite advance_ui.
Qed.

Lemma reachable_buttons a :
  reachable a -> startBtn (ui a) = false -> stopBtn (ui a) = true.
Proof.
  induction 1 as [|ev a Hr IH]; [done|]. by apply buttons_step.
Qed.

(** X20. A running stream can always be stopped: in every reachable
    state in which a thread has not left [run], the stop button is
    enabled, and a click on it calls [stop_detection], which leaves
    that thread out of [run] with [running] cleared, whether or not a
    turn of its loop is in flight. *)
Theorem running_stream_can_be_stopped a i w dev in_flight :
  reachable a -> life a = Alive ->
  threads a !! i = Some w -> active w = true ->
  stopBtn (ui a) = true
  /\ step (ClickStop dev in_flight) a = stop_detection dev in_flight a
  /\ exists w',
       threads (step (ClickStop dev in_flight) a) !! i = Some w'
       /\ active w' = false /\ running w' = false.
Proof.
  intros Hr Hal Hw Hact.
  destruct (reachable_invariant a Hr) as (_ & _ & _ & I4).
  destruct (I4 i w Hw) as (_ & Hwk & _). destruct (Hwk Hact) as [Hi Hs].
  pose proof (reachable_buttons a Hr Hs) as Hstop.
  assert (Hstep : step (ClickStop dev in_flight) a
                  = stop_detection dev in_flight a).
  { unfold step. by rewrite Hal, Hstop. }
  split; [done|]. split; [done|]. rewrite Hstep.
  exists (after (stop dev in_flight w)). split.
  - unfold stop_detection. rewrite Hi.
    exact (advance_thread i (stop dev in_flight) a w Hw).
  - split; [apply stop_inactive|].
    destruct (stop_lets_running_cleared dev in_flight w) as [H1 _]. exact H1.
Qed.

Lemma running_stream_can_be_stopped_witness :
  stopBtn (ui streaming) = true.
Proof.
  assert (Hal : life streaming = Alive) by (vm_compute; reflexivity).
  assert (Hw : threads streaming !! 0%nat
               = Some (set_phase Looping (set_cap demo_device demo_worker)))
    by (vm_compute; reflexivity).
  exact (proj1 (running_stream_can_be_stopped streaming 0%nat _ demo_device
                  true (reachable_steps _ init reach_init) Hal Hw eq_refl)).
Defined.

(** *** Starting without a file *)

Lemma advance_file_path i t a : file_path (advance i t a) = file_path a.
Proof.
  unfold advance. destruct (threads a !! i) as [w|]; [|done].
  by destruct (phase (after (t w))).
Qed.

Lemma file_path_step ev a :
  is_file_choice ev = false -> file_path (step ev a) = file_path a.
Proof.
  intros Hev. unfold step. destruct (life a); [|done|done].
  destruct ev as [f b l|i|f|e r|dev fl|e f|i|i dev| |dev fl]; try done.
  - unfold load_model. destruct f; [done|]. by destruct l.
  - by destruct (i <? 3)%nat.
  - destruct (startBtn (ui a)); [|done].
    unfold start_detection, process_single_image, update_stats.
    repeat case_match; simpl; done.
  - destruct (stopBtn (ui a)); [|done]. unfold stop_detection. simpl.
    destruct (worker a); [|done]. simpl. by rewrite advance_file_path.
  - unfold save_result. repeat case_match; simpl; done.
  - by destruct (i <? 2)%nat.
  - by rewrite advance_file_path.
  - destruct (queue a) as [|[frame stats] q]; [done|].
    unfold display_image_and_stats, update_stats.
    by destruct (stats_lines stats).
  - destruct (closeEvent_fields dev fl a) as (_ & -> & _).
    destruct (worker a); [|done]. by rewrite advance_file_path.
Qed.

Lemma file_path_steps evs : forall a,
  Forall (fun ev => is_file_choice ev = false) evs ->
  file_path (steps evs a) = file_path a.
Proof.
  induction evs as [|ev evs IH]; intros a Hevs; [done|].
  apply Forall_cons in Hevs as [Hev Hevs].
  change (steps (ev :: evs) a) with (steps evs (step ev a)).
  rewrite (IH _ Hevs). by apply file_path_step.
Qed.

(** X21. When the file dialog has never been used, [file_path] does not
    exist.  Starting a detection on a video file then ends the process
    on the missing attribute, after the buttons were switched (start
    disabled, stop enabled, the status 检测进行中) and before any worker
    is created or any message shown; starting a detection on an image
    only shows the warning. *)
Theorem start_without_file evs e r :
  Forall (fun ev => is_file_choice ev = false) evs ->
  life (steps evs init) = Alive ->
  model (steps evs init) <> None ->
  startBtn (ui (steps evs init)) = true ->
  (input_combo (ui (steps evs init)) = 1%nat ->
     life (step (ClickStart e r) (steps evs init)) = Aborted
     /\ startBtn (ui (step (ClickStart e r) (steps evs init))) = false
     /\ stopBtn (ui (step (ClickStart e r) (steps evs init))) = true
     /\ status_label (ui (step (ClickStart e r) (steps evs init)))
        = "检测进行中"%string
     /\ worker (step (ClickStart e r) (steps evs init))
        = worker (steps evs init)
     /\ threads (step (ClickStart e r) (steps evs init))
        = threads (steps evs init)
     /\ effects (step (ClickStart e r) (steps evs init))
        = effects (steps evs init))
  /\ (input_combo (ui (steps evs init)) = 2%nat ->
        step (ClickStart e r) (steps evs init)
        = show_message "警告" "请选择有效的图片文件！" true (steps evs init)).
Proof.
  intros Hevs Hal Hm Hs.
  pose proof (file_path_steps evs init Hevs) as Hf. simpl in Hf.
  unfold step. rewrite Hal, Hs. unfold start_detection.
  destruct (model (steps evs init)) as [m|]; [|done].
  split; intros ->; simpl.
  - rewrite Hf. done.
  - unfold process_single_image. by rewrite Hf.
Qed.

Lemma start_without_file_witness :
  life (step (ClickStart false None)
          (steps [ClickLoadModel "best.pt" "best.pt"
                    (LoadOk (Recommend.demo_model [1; 1; 3]));
                  SelectInput 1] init))
  = Aborted.
Proof.
  refine (proj1 (proj1 (start_without_file
            [ClickLoadModel "best.pt" "best.pt"
               (LoadOk (Recommend.demo_model [1; 1; 3]));
             SelectInput 1] false None _ _ _ _) _)).
  - repeat constructor.
  - vm_compute. reflexivity.
  - vm_compute. discriminate.
  - vm_compute. reflexivity.
  - vm_compute. reflexivity.
Defined.
End DetectorExtra.
